(** * gradio/queue.py: the admission-and-dispatch queue

    A shallow embedding of [gradio.queue] (classes [Estimation], [Event]
    and [Queue]) and proofs about admission, batch formation, slot
    release, streaming relay and latency estimation.

    Conventions.
    - Python [int] is [Z]; Python [float] is IEEE 754 binary64, the
      [spec_float] of the Standard Library at precision 53 and maximal
      exponent 1024, with its correctly rounded operations (round to
      nearest, ties to even); a value that may be either is a [pynum].
      A [spec_float] that is not [valid] stands for no Python float;
      the theorems that depend on it assume [valid].
    - An [Event] object is an immutable record that carries its identity
      ([ev_id]); the one attribute the queue mutates, [event.data], lives
      in a heap keyed by that identity.
    - A method is a function in the state-and-exception monad [M]: the
      state written before an exception is raised stays written.
    - The websocket transport, the HTTP client and the clock are the
      [World]; what they answer is scripted, so that every theorem
      quantifies over all behaviours of these collaborators. *)

From Stdlib Require Import ZArith String Lia SpecFloat.
From stdpp Require Import base option list strings.

#[local] Set Warnings "-register-all".

Local Open Scope Z_scope.

(** ** Python built-ins used by the queue *)

Section Builtins.
Context {A : Type}.

(** [l[i]] on a Python list: a negative index counts from the back,
    anything out of range raises IndexError ([None]). *)
Definition py_getitem (l : list A) (i : Z) : option A :=
  if decide (0 <= i) then l !! Z.to_nat i
  else if decide (0 <= Z.of_nat (length l) + i)
       then l !! Z.to_nat (Z.of_nat (length l) + i)
       else None.

(** [l[:n]]: a negative bound drops elements from the back. *)
Definition py_slice_to (l : list A) (n : Z) : list A :=
  if decide (0 <= n) then take (Z.to_nat n) l
  else take (Z.to_nat (Z.of_nat (length l) + n)) l.

(** [list(zip( *cols ))]: the rows of [cols], as many as the shortest
    column has; no column at all gives no row. *)
Fixpoint zip_star (cols : list (list A)) : list (list A) :=
  match cols with
  | [] => []
  | [c] => map (fun x => [x]) c
  | c :: cs => zip_with cons c (zip_star cs)
  end.

Context `{EqDecision A}.

(** [x in l] *)
Definition py_in (x : A) (l : list A) : bool := bool_decide (x ∈ l).

(** [l.index(x)]: the first position holding a value equal to [x];
    ValueError ([None]) when there is none. *)
Fixpoint py_index (x : A) (l : list A) : option nat :=
  match l with
  | [] => None
  | y :: l' => if decide (y = x) then Some 0%nat else S <$> py_index x l'
  end.

(** [l.remove(x)]: drops the first value equal to [x]; ValueError
    ([None]) when there is none. *)
Fixpoint py_remove (x : A) (l : list A) : option (list A) :=
  match l with
  | [] => None
  | y :: l' => if decide (y = x) then Some l' else cons y <$> py_remove x l'
  end.
End Builtins.

(** ** Python floats *)

(** The format of a Python [float]: 53 bits of precision, exponents
    below 1024. *)
Definition prec : Z := 53.
Definition emax : Z := 1024.

Definition float : Type := spec_float.

(** The floats of the format: a finite one has a mantissa of at most 53
    bits with the least exponent that allows it. *)
Definition valid (x : float) : bool := valid_binary prec emax x.

Definition is_finite (x : float) : bool :=
  match x with
  | S754_zero _ | S754_finite _ _ _ => true
  | S754_infinity _ | S754_nan => false
  end.

Definition is_zero (x : float) : bool :=
  match x with
  | S754_zero _ => true
  | _ => false
  end.

(** [x + y], [x - y], [x * y] on floats: the exact result rounded to the
    nearest float, an infinity when that is out of range. *)
Definition float_add (x y : float) : float := SFadd prec emax x y.
Definition float_sub (x y : float) : float := SFsub prec emax x y.
Definition float_mul (x y : float) : float := SFmul prec emax x y.

(** The quotient of two floats, rounded; Python's [x / y] is
    [py_truediv] below, which raises on a zero divisor. *)
Definition float_div (x y : float) : float := SFdiv prec emax x y.

(** The float nearest to an integer (an infinity when the integer is
    out of range; Python's conversion is [py_float] below). *)
Definition float_of_Z (z : Z) : float := binary_normalize prec emax z 0 false.

(** Python numbers that reach a client: [int] or [float]. *)
Inductive pynum :=
| PyInt (z : Z)
| PyFloat (x : float).

(** [int(x)] on a float truncates toward zero; it raises on an infinity
    and on a NaN ([None]). *)
Definition py_int_of_float (x : float) : option Z :=
  match x with
  | S754_zero _ => Some 0
  | S754_finite s m e => Some (cond_Zopp s (Z.shiftl (Z.pos m) e))
  | S754_infinity _ | S754_nan => None
  end.

Definition py_int (x : pynum) : option Z :=
  match x with
  | PyInt z => Some z
  | PyFloat x => py_int_of_float x
  end.

(** Exceptions the queue can run into. *)
Inductive exn :=
| TypeError
| IndexError
| ValueError
| AttributeError
| ZeroDivisionError
| UnboundLocalError
| RuntimeError
| OverflowError
| CancelledError.

(** [isinstance(e, Exception)]: every exception above derives from
    [Exception], except that since Python 3.8 [CancelledError] derives
    from [BaseException]; [legacy_python] is [sys.version_info < (3, 8)]. *)
Definition is_Exception (legacy_python : bool) (e : exn) : bool :=
  match e with
  | CancelledError => legacy_python
  | _ => true
  end.

(** ** Data model *)

(** JSON values carried in requests and responses. *)
Inductive val :=
| VNum (z : Z)
| VStr (s : string)
| VList (l : list val).

(** Iterating a value, as [zip( *v )] does: a list gives its items, a
    string its characters, a number raises TypeError ([None]). *)
Definition iter_val (v : val) : option (list val) :=
  match v with
  | VNum _ => None
  | VStr s => Some (map (fun c => VStr (String c EmptyString)) (list_ascii_of_string s))
  | VList l => Some l
  end.

(** [PredictBody]: the request payload a client sends ([data], [batched]). *)
Record PredictBody := {
  pb_data : val;
  pb_batched : bool
}.

(** [class Event]. [websocket] is the [World]; [data] is in the heap;
    [lost_connection_time] is never read. *)
Record Event := {
  ev_id : nat;
  fn_index : option Z;
  session_hash : string;
  token : option string
}.

#[global] Instance Event_eq_dec : EqDecision Event.
Proof. solve_decision. Defined.

(** An entry of [blocks_dependencies]: the keys the queue reads. *)
Record Dependency := {
  dep_batch : bool;
  dep_max_batch_size : Z
}.

(** [class Estimation(BaseModel)], without its constant [msg]
    (["estimation"]). [rank_eta] is declared [Optional[int]] but is
    written by plain attribute assignment, so the field holds whatever
    number was assigned. *)
Record Estimation := {
  rank : option Z;
  queue_size : Z;
  avg_event_process_time : option float;
  avg_event_concurrent_process_time : option float;
  rank_eta : option pynum;
  queue_eta : Z
}.

(** [class Queue]: the attributes the scheduling engine reads or writes
    ([server_path], [access_token], [sleep_when_free] and the lock only
    parametrise the transport). *)
Record Queue := {
  event_queue : list Event;
  stopped : bool;
  max_thread_count : Z;
  data_gathering_start : Z;
  update_intervals : Z;
  active_jobs : list (option (list Event));
  duration_history_total : float;
  duration_history_count : Z;
  avg_process_time : option float;
  avg_concurrent_process_time : option float;
  queue_duration : float;
  live_updates : bool;
  max_size : option Z;
  blocks_dependencies : list Dependency
}.

(** [Queue.__init__]. [duration_history_total] and [queue_duration]
    start as the [int]s 0 and 1, held here as the floats 0.0 and 1.0:
    the first [+=] converts the one to a float before it adds, and
    [int(...)] of the other is 1 either way. *)
Definition init (live_updates : bool) (concurrency_count data_gathering_start
    update_intervals : Z) (max_size : option Z)
    (blocks_dependencies : list Dependency) : Queue :=
  {| event_queue := [];
     stopped := false;
     max_thread_count := concurrency_count;
     data_gathering_start := data_gathering_start;
     update_intervals := update_intervals;
     active_jobs := replicate (Z.to_nat concurrency_count) None;
     duration_history_total := float_of_Z 0;
     duration_history_count := 0;
     avg_process_time := None;
     avg_concurrent_process_time := None;
     queue_duration := float_of_Z 1;
     live_updates := live_updates;
     max_size := max_size;
     blocks_dependencies := blocks_dependencies |}.

(** Attribute assignment. *)
Definition set_event_queue (l : list Event) (q : Queue) : Queue :=
  {| event_queue := l;
     stopped := stopped q;
     max_thread_count := max_thread_count q;
     data_gathering_start := data_gathering_start q;
     update_intervals := update_intervals q;
     active_jobs := active_jobs q;
     duration_history_total := duration_history_total q;
     duration_history_count := duration_history_count q;
     avg_process_time := avg_process_time q;
     avg_concurrent_process_time := avg_concurrent_process_time q;
     queue_duration := queue_duration q;
     live_updates := live_updates q;
     max_size := max_size q;
     blocks_dependencies := blocks_dependencies q |}.

Definition set_stopped (b : bool) (q : Queue) : Queue :=
  {| event_queue := event_queue q;
     stopped := b;
     max_thread_count := max_thread_count q;
     data_gathering_start := data_gathering_start q;
     update_intervals := update_intervals q;
     active_jobs := active_jobs q;
     duration_history_total := duration_history_total q;
     duration_history_count := duration_history_count q;
     avg_process_time := avg_process_time q;
     avg_concurrent_process_time := avg_concurrent_process_time q;
     queue_duration := queue_duration q;
     live_updates := live_updates q;
     max_size := max_size q;
     blocks_dependencies := blocks_dependencies q |}.

Definition set_active_jobs (jobs : list (option (list Event))) (q : Queue) : Queue :=
  {| event_queue := event_queue q;
     stopped := stopped q;
     max_thread_count := max_thread_count q;
     data_gathering_start := data_gathering_start q;
     update_intervals := update_intervals q;
     active_jobs := jobs;
     duration_history_total := duration_history_total q;
     duration_history_count := duration_history_count q;
     avg_process_time := avg_process_time q;
     avg_concurrent_process_time := avg_concurrent_process_time q;
     queue_duration := queue_duration q;
     live_updates := live_updates q;
     max_size := max_size q;
     blocks_dependencies := blocks_dependencies q |}.

Definition set_duration_history_total (x : float) (q : Queue) : Queue :=
  {| event_queue := event_queue q;
     stopped := stopped q;
     max_thread_count := max_thread_count q;
     data_gathering_start := data_gathering_start q;
     update_intervals := update_intervals q;
     active_jobs := active_jobs q;
     duration_history_total := x;
     duration_history_count := duration_history_count q;
     avg_process_time := avg_process_time q;
     avg_concurrent_process_time := avg_concurrent_process_time q;
     queue_duration := queue_duration q;
     live_updates := live_updates q;
     max_size := max_size q;
     blocks_dependencies := blocks_dependencies q |}.

Definition set_duration_history_count (n : Z) (q : Queue) : Queue :=
  {| event_queue := event_queue q;
     stopped := stopped q;
     max_thread_count := max_thread_count q;
     data_gathering_start := data_gathering_start q;
     update_intervals := update_intervals q;
     active_jobs := active_jobs q;
     duration_history_total := duration_history_total q;
     duration_history_count := n;
     avg_process_time := avg_process_time q;
     avg_concurrent_process_time := avg_concurrent_process_time q;
     queue_duration := queue_duration q;
     live_updates := live_updates q;
     max_size := max_size q;
     blocks_dependencies := blocks_dependencies q |}.

Definition set_avg_process_time (x : option float) (q : Queue) : Queue :=
  {| event_queue := event_queue q;
     stopped := stopped q;
     max_thread_count := max_thread_count q;
     data_gathering_start := data_gathering_start q;
     update_intervals := update_intervals q;
     active_jobs := active_jobs q;
     duration_history_total := duration_history_total q;
     duration_history_count := duration_history_count q;
     avg_process_time := x;
     avg_concurrent_process_time := avg_concurrent_process_time q;
     queue_duration := queue_duration q;
     live_updates := live_updates q;
     max_size := max_size q;
     blocks_dependencies := blocks_dependencies q |}.

Definition set_avg_concurrent_process_time (x : option float) (q : Queue) : Queue :=
  {| event_queue := event_queue q;
     stopped := stopped q;
     max_thread_count := max_thread_count q;
     data_gathering_start := data_gathering_start q;
     update_intervals := update_intervals q;
     active_jobs := active_jobs q;
     duration_history_total := duration_history_total q;
     duration_history_count := duration_history_count q;
     avg_process_time := avg_process_time q;
     avg_concurrent_process_time := x;
     queue_duration := queue_duration q;
     live_updates := live_updates q;
     max_size := max_size q;
     blocks_dependencies := blocks_dependencies q |}.

Definition set_queue_duration (x : float) (q : Queue) : Queue :=
  {| event_queue := event_queue q;
     stopped := stopped q;
     max_thread_count := max_thread_count q;
     data_gathering_start := data_gathering_start q;
     update_intervals := update_intervals q;
     active_jobs := active_jobs q;
     duration_history_total := duration_history_total q;
     duration_history_count := duration_history_count q;
     avg_process_time := avg_process_time q;
     avg_concurrent_process_time := avg_concurrent_process_time q;
     queue_duration := x;
     live_updates := live_updates q;
     max_size := max_size q;
     blocks_dependencies := blocks_dependencies q |}.

(** ** The state-and-exception monad *)

(** How a call ends: it returns, it raises, or it awaits an answer that
    never comes. *)
Inductive outcome (A : Type) :=
| Done (a : A)
| Raised (e : exn)
| Hung.
Arguments Done {A} a.
Arguments Raised {A} e.
Arguments Hung {A}.

Definition M (S A : Type) : Type := S -> S * outcome A.

Definition ret {S A} (a : A) : M S A := fun s => (s, Done a).
Definition raise {S A} (e : exn) : M S A := fun s => (s, Raised e).
Definition hang {S A} : M S A := fun s => (s, Hung).
Definition bind {S A B} (m : M S A) (k : A -> M S B) : M S B :=
  fun s =>
    match m s with
    | (s', Done a) => k a s'
    | (s', Raised e) => (s', Raised e)
    | (s', Hung) => (s', Hung)
    end.
Definition gets {S A} (f : S -> A) : M S A := fun s => (s, Done (f s)).
Definition modify {S} (f : S -> S) : M S unit := fun s => (f s, Done tt).

(** [x = o] where evaluating [o] raises [e] when it has no value. *)
Definition or_raise {S A} (e : exn) (o : option A) : M S A :=
  match o with
  | Some a => ret a
  | None => raise e
  end.

Declare Scope monad_scope.
Delimit Scope monad_scope with monad.
Notation "x <- m ;; k" := (bind m (fun x => k))
  (at level 100, m at next level, right associativity) : monad_scope.
Notation "m ;; k" := (bind m (fun _ => k))
  (at level 100, right associativity) : monad_scope.
Local Open Scope monad_scope.

(** [for x in l: body(x)] *)
Fixpoint for_each {S A} (l : list A) (body : A -> M S unit) : M S unit :=
  match l with
  | [] => ret tt
  | x :: l' => body x ;; for_each l' body
  end.

(** ** Admission and batch formation *)

(** [Queue.push] *)
Definition push (event : Event) : M Queue (option Z) :=
  queue_len <- gets (fun q => Z.of_nat (length (event_queue q))) ;;
  max_size <- gets max_size ;;
  if match max_size with
     | Some m => bool_decide (queue_len >= m)
     | None => false
     end
  then ret None
  else
    modify (fun q => set_event_queue (event_queue q ++ [event]) q) ;;
    ret (Some queue_len).

(** [self.event_queue.remove(event)] *)
Definition event_queue_remove (event : Event) : M Queue unit :=
  l <- gets event_queue ;;
  l' <- or_raise ValueError (py_remove event l) ;;
  modify (set_event_queue l').

(** [Queue.get_events_in_batch] *)
Definition get_events_in_batch : M Queue (option (list Event) * bool) :=
  l <- gets event_queue ;;
  match l with
  | [] => ret (None, false)
  | first_event :: rest =>
      modify (set_event_queue rest) ;;
      let event_fn_index := fn_index first_event in
      deps <- gets blocks_dependencies ;;
      i <- or_raise TypeError event_fn_index ;;
      dep <- or_raise IndexError (py_getitem deps i) ;;
      let batch := dep_batch dep in
      if batch then
        dep' <- or_raise IndexError (py_getitem deps i) ;;
        let batch_size := dep_max_batch_size dep' in
        l' <- gets event_queue ;;
        let rest_of_batch :=
          py_slice_to
            (filter (fun event => fn_index event = event_fn_index) l')
            (batch_size - 1) in
        for_each rest_of_batch event_queue_remove ;;
        ret (Some (first_event :: rest_of_batch), batch)
      else ret (Some [first_event], batch)
  end.

(** [Queue.close], [Queue.resume] *)
Definition close : M Queue unit := modify (set_stopped true).
Definition resume : M Queue unit := modify (set_stopped false).

(** [Queue.get_active_worker_count] *)
Definition get_active_worker_count (q : Queue) : Z :=
  fold_left (fun count worker =>
               match worker with
               | Some _ => count + 1
               | None => count
               end) (active_jobs q) 0.

(** ** Estimator *)

(** The [int] operand of a mixed operation, converted to a float: the
    nearest float, OverflowError when that is out of range. *)
Definition py_float {S} (z : Z) : M S float :=
  if is_finite (float_of_Z z) then ret (float_of_Z z) else raise OverflowError.

(** [x / y] on floats: ZeroDivisionError when [y] is a zero. *)
Definition py_truediv {S} (x y : float) : M S float :=
  if is_zero y then raise ZeroDivisionError else ret (float_div x y).

(** [Queue.update_estimation] *)
Definition update_estimation (duration : float) : M Queue unit :=
  modify (fun q => set_duration_history_total
                     (float_add (duration_history_total q) duration) q) ;;
  modify (fun q => set_duration_history_count (duration_history_count q + 1) q) ;;
  total <- gets duration_history_total ;;
  count <- gets duration_history_count ;;
  count' <- py_float count ;;
  avg <- py_truediv total count' ;;
  modify (set_avg_process_time (Some avg)) ;;
  limit <- gets max_thread_count ;;
  workers <- py_float (Z.min limit count) ;;
  conc <- py_truediv avg workers ;;
  modify (set_avg_concurrent_process_time (Some conc)) ;;
  len <- gets (fun q => Z.of_nat (length (event_queue q))) ;;
  len' <- py_float len ;;
  modify (set_queue_duration (float_mul conc len')).

(** [Estimation(queue_size=..., avg_event_process_time=...,
    avg_event_concurrent_process_time=..., queue_eta=...)]: the model's
    constructor validates its arguments against the declared field
    types, which turns the number given for [queue_eta: int] into an
    [int] and raises a validation error, a ValueError, when it has
    none; [rank] and [rank_eta] take their default. *)
Definition Estimation_new {S} (queue_size : Z) (avg avg_concurrent : option float)
    (queue_eta : pynum) : M S Estimation :=
  eta <- or_raise ValueError (py_int queue_eta) ;;
  ret {| rank := None;
         queue_size := queue_size;
         avg_event_process_time := avg;
         avg_event_concurrent_process_time := avg_concurrent;
         rank_eta := None;
         queue_eta := eta |}.

(** [Queue.get_estimation]; [queue_duration] is the [int] 1 until the
    first [update_estimation] and a [float] from then on, [int(...)]
    of either is the same. *)
Definition get_estimation : M Queue Estimation :=
  len <- gets (fun q => Z.of_nat (length (event_queue q))) ;;
  avg <- gets avg_process_time ;;
  conc <- gets avg_concurrent_process_time ;;
  duration <- gets queue_duration ;;
  Estimation_new len avg conc (PyFloat duration).

(** [estimation.rank = ...], [estimation.rank_eta = ...]: assignment to
    an attribute of the model stores the value as it is. *)
Definition set_rank (r : option Z) (e : Estimation) : Estimation :=
  {| rank := r;
     queue_size := queue_size e;
     avg_event_process_time := avg_event_process_time e;
     avg_event_concurrent_process_time := avg_event_concurrent_process_time e;
     rank_eta := rank_eta e;
     queue_eta := queue_eta e |}.

Definition set_rank_eta (x : option pynum) (e : Estimation) : Estimation :=
  {| rank := rank e;
     queue_size := queue_size e;
     avg_event_process_time := avg_event_process_time e;
     avg_event_concurrent_process_time := avg_event_concurrent_process_time e;
     rank_eta := x;
     queue_eta := queue_eta e |}.

(** ** The collaborators *)

(** The JSON body of a prediction response: the two keys the queue
    looks at ([is_generating] read with default [False]; [j_data] is
    [None] when the key is absent). *)
Record Json := {
  j_is_generating : bool;
  j_data : option val
}.

Definition set_j_data (v : val) (j : Json) : Json :=
  {| j_is_generating := j_is_generating j; j_data := Some v |}.

(** What [Request] exposes of a finished call. *)
Record Response := {
  has_exception : bool;
  exception : string;
  json : option Json;
  status : option Z
}.

(** The answer to one prediction call: the await raises, or a response
    arrives after [latency] seconds. *)
Inductive Leg :=
| LRaise (e : exn)
| LReturn (latency : float) (r : Response).

(** The ["output"] of a [process_completed] message. *)
Inductive Output :=
| OError (error : string)
| OJson (j : option Json).

(** Messages sent to a client. *)
Inductive Msg :=
| MsgSendData
| MsgProcessStarts
| MsgAlive
| MsgProcessGenerating (output : option Json) (success : bool)
| MsgProcessCompleted (output : Output) (success : bool)
| MsgEstimation (e : Estimation).

(** What a run does to the outside, in order: messages, payloads
    received, connections closed, prediction requests issued and
    answered, iterator resets; [ERelease] and [EUpdate] log the writes
    to the slot table and the feeds of the estimator. *)
Inductive effect :=
| ESend (event : Event) (m : Msg) (delivered : bool)
| ERecv (event : Event) (r : option PredictBody)
| EClose (event : Event) (r : option exn)
| EPredict (body : PredictBody) (tok : option string) (at_time : float)
| EAnswer (latency : float) (r : Response)
| EReset (session : string) (fn : option Z)
| ERelease (slot : nat)
| EUpdate (duration : float).

(** The scripted collaborators: the wall clock, and what the successive
    [send_json], [receive_json], [close] and [reset] calls do. A send
    answers [false] and a receive [None] when it raises; a close or a
    reset answers with the exception it raises, if any
    ([CancelledError] when the task is cancelled while it awaits the
    call). A send, close or reset script that has run out answers with
    success, a receive script that has run out raises. Only the
    prediction calls take time: sends and receives are instantaneous. *)
Record World := {
  now : float;
  send_script : list bool;
  recv_script : list (option PredictBody);
  close_script : list (option exn);
  reset_script : list (option exn)
}.

(** The state a task runs on: the queue object, the [data] attribute of
    the events, the collaborators, the log, and the local variable
    [awake_events] of the running [process_events]. *)
Record St := {
  queue : Queue;
  heap : list (nat * PredictBody);
  world : World;
  trace : list effect;
  awake_events : list Event
}.

Definition set_queue (q : Queue) (s : St) : St :=
  {| queue := q; heap := heap s; world := world s; trace := trace s;
     awake_events := awake_events s |}.
Definition set_heap (h : list (nat * PredictBody)) (s : St) : St :=
  {| queue := queue s; heap := h; world := world s; trace := trace s;
     awake_events := awake_events s |}.
Definition set_world (w : World) (s : St) : St :=
  {| queue := queue s; heap := heap s; world := w; trace := trace s;
     awake_events := awake_events s |}.
Definition set_trace (t : list effect) (s : St) : St :=
  {| queue := queue s; heap := heap s; world := world s; trace := t;
     awake_events := awake_events s |}.
Definition set_awake_events (l : list Event) (s : St) : St :=
  {| queue := queue s; heap := heap s; world := world s; trace := trace s;
     awake_events := l |}.

(** A queue method run on the task state. *)
Definition on_queue {A} (m : M Queue A) : M St A :=
  fun s => let (q', r) := m (queue s) in (set_queue q' s, r).

Definition emit (e : effect) : M St unit :=
  modify (fun s => set_trace (trace s ++ [e]) s).

(** [event.data] and [event.data = d] *)
Fixpoint heap_get (h : list (nat * PredictBody)) (i : nat) : option PredictBody :=
  match h with
  | [] => None
  | (j, d) :: h' => if decide (j = i) then Some d else heap_get h' i
  end.

Definition heap_set (h : list (nat * PredictBody)) (i : nat) (d : option PredictBody)
    : list (nat * PredictBody) :=
  let h' := filter (fun p => fst p <> i) h in
  match d with
  | Some d => (i, d) :: h'
  | None => h'
  end.

Definition get_data (event : Event) : M St (option PredictBody) :=
  gets (fun s => heap_get (heap s) (ev_id event)).
Definition set_data (event : Event) (d : option PredictBody) : M St unit :=
  modify (fun s => set_heap (heap_set (heap s) (ev_id event) d) s).

(** [time.time()] *)
Definition time : M St float := gets (fun s => now (world s)).

(** The collaborators' next answers, taken off the scripts. *)
Definition next_send : M St bool :=
  w <- gets world ;;
  modify (set_world {| now := now w; send_script := tail (send_script w);
                       recv_script := recv_script w;
                       close_script := close_script w;
                       reset_script := reset_script w |}) ;;
  ret (default true (head (send_script w))).

Definition next_recv : M St (option PredictBody) :=
  w <- gets world ;;
  modify (set_world {| now := now w; send_script := send_script w;
                       recv_script := tail (recv_script w);
                       close_script := close_script w;
                       reset_script := reset_script w |}) ;;
  ret (default None (head (recv_script w))).

Definition next_close : M St (option exn) :=
  w <- gets world ;;
  modify (set_world {| now := now w; send_script := send_script w;
                       recv_script := recv_script w;
                       close_script := tail (close_script w);
                       reset_script := reset_script w |}) ;;
  ret (default None (head (close_script w))).

Definition next_reset : M St (option exn) :=
  w <- gets world ;;
  modify (set_world {| now := now w; send_script := send_script w;
                       recv_script := recv_script w;
                       close_script := close_script w;
                       reset_script := tail (reset_script w) |}) ;;
  ret (default None (head (reset_script w))).

(** [await event.websocket.send_json(data=data)]: [false] when it raises. *)
Definition ws_send_json (event : Event) (data : Msg) : M St bool :=
  ok <- next_send ;;
  emit (ESend event data ok) ;;
  ret ok.

(** [PredictBody( **(await event.websocket.receive_json()))]: [None]
    when either step raises. *)
Definition ws_receive_json (event : Event) : M St (option PredictBody) :=
  r <- next_recv ;;
  emit (ERecv event r) ;;
  ret r.

(** [Event.disconnect]: [await self.websocket.close(code=code)] *)
Definition disconnect (event : Event) : M St unit :=
  r <- next_close ;;
  emit (EClose event r) ;;
  match r with
  | Some e => raise e
  | None => ret tt
  end.

(** [Queue.reset_iterators] *)
Definition reset_iterators (session_hash : string) (fn_index : option Z) : M St unit :=
  emit (EReset session_hash fn_index) ;;
  r <- next_reset ;;
  match r with
  | Some e => raise e
  | None => ret tt
  end.

(** Awaiting the answer to a prediction request; [None]: it never
    comes. The clock moves on by the latency of the answer. *)
Definition await_answer (answer : option Leg) : M St Response :=
  match answer with
  | None => hang
  | Some (LRaise e) => raise e
  | Some (LReturn latency response) =>
      w <- gets world ;;
      modify (set_world {| now := float_add (now w) latency;
                           send_script := send_script w;
                           recv_script := recv_script w;
                           close_script := close_script w;
                           reset_script := reset_script w |}) ;;
      emit (EAnswer latency response) ;;
      ret response
  end.

(** [Queue.clean_event] *)
Definition clean_event (event : Event) : M St unit :=
  l <- gets (fun s => event_queue (queue s)) ;;
  if py_in event l then on_queue (event_queue_remove event) else ret tt.

(** [Queue.send_message] *)
Definition send_message (event : Event) (data : Msg) : M St bool :=
  sent <- ws_send_json event data ;;
  if sent then ret true
  else clean_event event ;; ret false.

(** [Queue.get_message] *)
Definition get_message (event : Event) : M St (option PredictBody) :=
  r <- ws_receive_json event ;;
  match r with
  | Some data => ret (Some data)
  | None => clean_event event ;; ret None
  end.

(** [Queue.gather_event_data] *)
Definition gather_event_data (event : Event) : M St bool :=
  data <- get_data event ;;
  match data with
  | None =>
      client_awake <- send_message event MsgSendData ;;
      if negb client_awake then ret false
      else
        d <- get_message event ;;
        set_data event d ;;
        ret true
  | Some _ => ret true
  end.

(** ** Broadcasting estimations *)

(** [Queue.send_estimation]; the message is [estimation.dict()], taken
    when the send is issued. *)
Definition send_estimation (event : Event) (estimation : Estimation) (rank : Z)
    : M St Estimation :=
  let estimation := set_rank (Some rank) estimation in
  conc <- gets (fun s => avg_concurrent_process_time (queue s)) ;;
  estimation <-
    match conc with
    | Some c =>
        rank' <- py_float rank ;;
        avg <- gets (fun s => avg_process_time (queue s)) ;;
        a <- or_raise TypeError avg ;;
        let eta := float_add (float_mul rank' c) a in
        jobs <- gets (fun s => active_jobs (queue s)) ;;
        if negb (py_in None jobs)
        then ret (set_rank_eta (Some (PyFloat (float_add eta c))) estimation)
        else ret (set_rank_eta (Some (PyFloat eta)) estimation)
    | None => ret estimation
    end ;;
  client_awake <- send_message event (MsgEstimation estimation) ;;
  (if negb client_awake then clean_event event else ret tt) ;;
  ret estimation.

(** [for rank, event in enumerate(...)] of [broadcast_estimations]: the
    one [Estimation] object is handed from send to send. *)
Fixpoint send_estimations (estimation : Estimation) (rank : Z) (events : list Event)
    : M St unit :=
  match events with
  | [] => ret tt
  | event :: rest =>
      estimation <- send_estimation event estimation rank ;;
      send_estimations estimation (rank + 1) rest
  end.

(** [Queue.broadcast_estimations] *)
Definition broadcast_estimations : M St unit :=
  estimation <- on_queue get_estimation ;;
  events <- gets (fun s => event_queue (queue s)) ;;
  send_estimations estimation 0 events.

(** ** The dispatcher *)

(** What one turn of the [start_processing] loop does. *)
Inductive Dispatch :=
| Exit
| Sleep
| Skip
| Launch (events : list Event) (batch : bool).

(** One turn of the [while not self.stopped] loop of
    [Queue.start_processing]; [Launch events batch] stands for
    [run_coro_in_background(self.process_events, events, batch)]. *)
Definition start_processing_step : M Queue Dispatch :=
  stopped <- gets stopped ;;
  if stopped then ret Exit
  else
    l <- gets event_queue ;;
    match l with
    | [] => ret Sleep
    | _ :: _ =>
        jobs <- gets active_jobs ;;
        if negb (py_in None jobs) then ret Sleep
        else
          r <- get_events_in_batch ;;
          match r with
          | (Some (e :: es), batch) =>
              jobs <- gets active_jobs ;;
              i <- or_raise ValueError (py_index None jobs) ;;
              modify (set_active_jobs (<[i := Some (e :: es)]> jobs)) ;;
              ret (Launch (e :: es) batch)
          | _ => ret Skip
          end
    end.

(** ** Processing a batch *)

(** [try: body finally: cleanup]. A body that never returns never
    reaches the cleanup; an exception of the cleanup replaces the
    outcome of the body. *)
Definition try_finally {S A} (body : M S A) (cleanup : M S unit) : M S A :=
  fun s =>
    match body s with
    | (s1, Hung) => (s1, Hung)
    | (s1, r) =>
        match cleanup s1 with
        | (s2, Done _) => (s2, r)
        | (s2, Raised e) => (s2, Raised e)
        | (s2, Hung) => (s2, Hung)
        end
    end.

(** [try: body except Exception: pass] *)
Definition except_Exception {S} (legacy_python : bool) (body : M S unit) : M S unit :=
  fun s =>
    match body s with
    | (s1, Raised e) =>
        if is_Exception legacy_python e then (s1, Done tt) else (s1, Raised e)
    | (s1, r) => (s1, r)
    end.

(** The first lines of [Queue.call_prediction]: the body of the request
    ([dict(data)]) and the session credential, both taken from the first
    event; a batched call first rewrites the payload of that event. *)
Definition request_body (events : list Event) (batch : bool)
    : M St (PredictBody * option string) :=
  first <- or_raise IndexError (head events) ;;
  data <- get_data first ;;
  let tok := token first in
  (if batch then
     h <- gets heap ;;
     cols <- or_raise TypeError
               (mapM iter_val (omap (fun event => pb_data <$> heap_get h (ev_id event)) events)) ;;
     d <- or_raise AttributeError data ;;
     set_data first (Some {| pb_data := VList (map VList (zip_star cols));
                             pb_batched := pb_batched d |}) ;;
     set_data first (Some {| pb_data := VList (map VList (zip_star cols));
                             pb_batched := true |})
   else ret tt) ;;
  data <- get_data first ;;
  body <- or_raise TypeError data ;;
  ret (body, tok).

(** [Queue.call_prediction]; [answer] is what the awaited [Request]
    does, [None] when it never completes. *)
Definition call_prediction (events : list Event) (batch : bool) (answer : option Leg)
    : M St Response :=
  request <- request_body events batch ;;
  t <- time ;;
  emit (EPredict (fst request) (snd request) t) ;;
  await_answer answer.

(** [response.status == 200] *)
Definition status_ok (response : Response) : bool :=
  bool_decide (status response = Some 200).

(** [response.json.get("is_generating", False)] *)
Definition is_generating (response : Response) : M St bool :=
  j <- or_raise AttributeError (json response) ;;
  ret (j_is_generating j).

Section Processing.
(** [sys.version_info < (3, 8)] *)
Variable legacy_python : bool.

(** [events]: the batch; [batch]: whether it is a batched call. *)
Variable events : list Event.
Variable batch : bool.

(** The first loop of the [try] block. *)
Definition gather_awake : M St unit :=
  for_each events (fun event =>
    client_awake <- gather_event_data event ;;
    client_awake <- (if client_awake
                     then send_message event MsgProcessStarts
                     else ret false) ;;
    if client_awake
    then modify (fun s => set_awake_events (awake_events s ++ [event]) s)
    else ret tt).

(** [for event in awake_events: await self.send_message(event, data)] *)
Definition relay (awake : list Event) (data : Msg) : M St unit :=
  for_each awake (fun event => send_message event data ;; ret tt).

(** The [while] loop of the streaming branch, entered with its
    condition just found true for [response]; [event] is the loop
    variable left by the last [for] statement. The result is [None]
    when the function returns from inside the loop, and the pair
    [(response, old_response)] when the loop ends. *)
Fixpoint generating_loop (awake : list Event) (legs : list Leg)
    (response : Response) (event : option Event)
    : M St (option (Response * Response)) :=
  is_alive <- (if legacy_python then
                 target <- or_raise UnboundLocalError event ;;
                 send_message target MsgAlive
               else ret true) ;;
  if negb is_alive then ret None
  else
    let old_response := response in
    relay awake (MsgProcessGenerating (json old_response) (status_ok old_response)) ;;
    let event := match last awake with
                 | Some e => Some e
                 | None => event
                 end in
    match legs with
    | [] => call_prediction awake batch None ;; hang
    | leg :: legs' =>
        response <- call_prediction awake batch (Some leg) ;;
        more <- is_generating response ;;
        if more then generating_loop awake legs' response event
        else ret (Some (response, old_response))
    end.

(** The [for e, event in enumerate(awake_events)] loop of the
    single-response branch; [output] is the dictionary it rewrites. *)
Fixpoint relay_single (response : Response) (output : option Json) (e : nat)
    (awake : list Event) : M St unit :=
  match awake with
  | [] => ret tt
  | event :: rest =>
      output <-
        (if batch then
           out <- or_raise TypeError output ;;
           match j_data out with
           | Some _ =>
               j <- or_raise AttributeError (json response) ;;
               d <- or_raise TypeError (j_data j) ;;
               l <- or_raise TypeError (iter_val d) ;;
               cols <- or_raise TypeError (mapM iter_val l) ;;
               row <- or_raise IndexError (zip_star cols !! e) ;;
               ret (Some (set_j_data (VList row) out))
           | None => ret output
           end
         else ret output) ;;
      send_message event (MsgProcessCompleted (OJson output) (status_ok response)) ;;
      relay_single response output (S e) rest
  end.

(** The [if]/[elif]/[else] on the first response: upstream error,
    streaming, single response. The result is the response the cycle
    ended on, [None] when the function returned from inside the
    streaming loop. *)
Definition handle_response (awake : list Event) (response : Response)
    (legs : list Leg) : M St (option Response) :=
  if has_exception response then
    relay awake (MsgProcessCompleted (OError (exception response)) false) ;;
    ret (Some response)
  else
    more <- is_generating response ;;
    if more then
      r <- generating_loop awake legs response (last events) ;;
      match r with
      | None => ret None
      | Some (response, old_response) =>
          relay awake (MsgProcessCompleted (OJson (json old_response))
                                           (status_ok old_response)) ;;
          ret (Some response)
      end
    else
      relay_single response (json response) 0 awake ;;
      ret (Some response).

(** The end of the [try] block: the estimator is fed when the cycle
    ended on a response with status 200. *)
Definition record_duration (begin_time : float) (final : option Response) : M St unit :=
  match final with
  | None => ret tt
  | Some response =>
      end_time <- time ;;
      if status_ok response then
        emit (EUpdate (float_sub end_time begin_time)) ;;
        on_queue (update_estimation (float_sub end_time begin_time))
      else ret tt
  end.

(** The [try] block. *)
Definition process_events_body (legs : list Leg) : M St unit :=
  gather_awake ;;
  awake <- gets awake_events ;;
  match awake with
  | [] => ret tt
  | _ :: _ =>
      begin_time <- time ;;
      response <- call_prediction awake batch (head legs) ;;
      final <- handle_response awake response (tail legs) ;;
      record_duration begin_time final
  end.

(** The first loop of the [finally] block. *)
Definition disconnect_all (awake : list Event) : M St unit :=
  for_each awake (fun event => except_Exception legacy_python (disconnect event)).

(** The [finally] block. *)
Definition process_events_cleanup : M St unit :=
  awake <- gets awake_events ;;
  disconnect_all awake ;;
  jobs <- gets (fun s => active_jobs (queue s)) ;;
  i <- or_raise ValueError (py_index (Some events) jobs) ;;
  on_queue (modify (set_active_jobs (<[i := None]> jobs))) ;;
  emit (ERelease i) ;;
  for_each awake (fun event =>
    clean_event event ;;
    reset_iterators (session_hash event) (fn_index event)).

(** [Queue.process_events]; [legs] are the answers of the prediction
    service to the successive calls of this batch. *)
Definition process_events (legs : list Leg) : M St unit :=
  modify (set_awake_events []) ;;
  try_finally (process_events_body legs) process_events_cleanup.
End Processing.

(** ** The tasks in the background *)

(** [Queue.broadcast_live_estimations] *)
Definition broadcast_live_estimations : M St unit :=
  live <- gets (fun s => live_updates (queue s)) ;;
  if live then broadcast_estimations else ret tt.

(** The coroutines that [Queue.start] puts in the background. *)
Inductive Coroutine :=
| StartProcessing
| NotifyClients.

(** [Queue.start] *)
Definition start (q : Queue) : list Coroutine :=
  StartProcessing :: (if negb (live_updates q) then [NotifyClients] else []).

(** * Vocabulary of the proofs *)

(** ** Batch formation *)

(** [l] without its first [n] elements that satisfy [P]. *)
Fixpoint drop_matching {A} (P : A -> Prop) `{forall x, Decision (P x)}
    (n : nat) (l : list A) : list A :=
  match l with
  | [] => []
  | x :: l' =>
      if decide (P x)
      then match n with
           | O => x :: l'
           | S n' => drop_matching P n' l'
           end
      else x :: drop_matching P n l'
  end.

(** [[l.remove(x) for x in picks]] *)
Fixpoint remove_all {A} `{EqDecision A} (picks l : list A) : option (list A) :=
  match picks with
  | [] => Some l
  | x :: picks' =>
      match py_remove x l with
      | Some l' => remove_all picks' l'
      | None => None
      end
  end.

(** ** The estimator *)

(** The state one successful [update_estimation] call leaves. *)
Definition fed (duration : float) (q : Queue) : Queue :=
  let total := float_add (duration_history_total q) duration in
  let count := duration_history_count q + 1 in
  let avg := float_div total (float_of_Z count) in
  let conc := float_div avg (float_of_Z (Z.min (max_thread_count q) count)) in
  set_queue_duration (float_mul conc (float_of_Z (Z.of_nat (length (event_queue q)))))
    (set_avg_concurrent_process_time (Some conc)
       (set_avg_process_time (Some avg)
          (set_duration_history_count count
             (set_duration_history_total total q)))).

(** The integers that every mixed operation converts to a finite float. *)
Definition in_float_range (z : Z) : Prop := Z.abs z < 2 ^ 1023.

(** [((0 + d1) + d2) + ... + dn], each sum rounded. *)
Definition float_sum (ds : list float) : float := fold_left float_add ds (float_of_Z 0).

(** The estimation state. *)
Definition estimation (q : Queue) : float * Z * option float * option float :=
  (duration_history_total q, duration_history_count q,
   avg_process_time q, avg_concurrent_process_time q).

(** What the estimator owns or reads of a queue. *)
Definition estimator (s : St) : (float * Z * option float * option float) * float * Z :=
  (estimation (queue s), queue_duration (queue s), max_thread_count (queue s)).

(** ** Observations on a log *)

Definition releases (t : list effect) : list nat :=
  omap (fun e => match e with ERelease i => Some i | _ => None end) t.

Definition feeds (t : list effect) : list float :=
  omap (fun e => match e with EUpdate d => Some d | _ => None end) t.

Definition answers (t : list effect) : list (float * Response) :=
  omap (fun e => match e with EAnswer latency r => Some (latency, r) | _ => None end) t.

(** The progress and completion messages, with their addressees, in the
    order in which they were sent. *)
Definition relayed (t : list effect) : list (Event * Msg) :=
  omap (fun e => match e with
                 | ESend event (MsgProcessGenerating o b) _ =>
                     Some (event, MsgProcessGenerating o b)
                 | ESend event (MsgProcessCompleted o b) _ =>
                     Some (event, MsgProcessCompleted o b)
                 | _ => None
                 end) t.

(** The clock after the answers logged in [t], from the reading
    [begin]: each answer has moved it on by its latency. *)
Definition clock_after (begin : float) (t : list effect) : float :=
  fold_left float_add (fst <$> answers t) begin.

(** The time the answered prediction calls of [t] took together, as
    the clock that read [begin] before them measures it. *)
Definition latency_of (begin : float) (t : list effect) : float :=
  float_sub (clock_after begin t) begin.

(** The progress and completion messages sent to one event, in order. *)
Definition sent_to (event : Event) (t : list effect) : list Msg :=
  snd <$> filter (fun p => fst p = event) (relayed t).

Definition not_release (e : effect) : bool :=
  match e with ERelease _ => false | _ => true end.

Definition not_update (e : effect) : bool :=
  match e with EUpdate _ => false | _ => true end.

Definition not_answer (e : effect) : bool :=
  match e with EAnswer _ _ => false | _ => true end.

Definition not_relayed (e : effect) : bool :=
  match e with
  | ESend _ (MsgProcessGenerating _ _) _ => false
  | ESend _ (MsgProcessCompleted _ _) _ => false
  | _ => true
  end.

Definition any_effect (e : effect) : bool := true.

(** The messages that carry no result. *)
Definition control (m : Msg) : bool :=
  match m with
  | MsgProcessGenerating _ _ | MsgProcessCompleted _ _ => false
  | _ => true
  end.

Definition to_all (awake : list Event) (m : Msg) : list (Event * Msg) :=
  map (fun event => (event, m)) awake.

(** The progress message and the completion message made from a
    response. *)
Definition generating_msg (r : Response) : Msg :=
  MsgProcessGenerating (json r) (status_ok r).

Definition completed_msg (r : Response) : Msg :=
  MsgProcessCompleted (OJson (json r)) (status_ok r).

(** ** What a run leaves alone *)

(** [keeps R m]: whatever way [m] ends, the state it leaves is related
    by [R] to the state it started from. *)
Definition keeps (R : St -> St -> Prop) {A} (m : M St A) : Prop :=
  forall s, R s (fst (m s)).

(** The log only grows, and by effects that satisfy [ok]. *)
Definition logs_only (ok : effect -> bool) (s s' : St) : Prop :=
  exists t, trace s' = trace s ++ t /\ forallb ok t = true.

(** The observation [f] of the state has not changed. *)
Definition same {X} (f : St -> X) (s s' : St) : Prop := f s' = f s.

(** The log grows by effects that satisfy [okl] and the observation [f]
    stays as it was. *)
Definition calm (okl : effect -> bool) {X : Type} (f : St -> X) (s s' : St) : Prop :=
  logs_only okl s s' /\ same f s s'.

(** The effects that a relation [calm okl f] tolerates: those the log
    may grow by ([okl]) whose logging leaves [f] alone ([okf]). *)
Definition ok_both (okl okf : effect -> bool) (e : effect) : bool := okl e && okf e.

(** No cell of the slot table is written and no release is logged. *)
Definition slots_kept : St -> St -> Prop :=
  calm not_release (fun s => active_jobs (queue s)).

(** The estimator is not fed. *)
Definition estimator_kept : St -> St -> Prop := calm not_update estimator.

(** No prediction is answered and the clock stands still. *)
Definition hushed : St -> St -> Prop := calm not_answer (fun s => now (world s)).

(** The clock moves by the latencies of the answers. *)
Definition clock_kept (s s' : St) : Prop :=
  exists t, trace s' = trace s ++ t
            /\ now (world s') = clock_after (now (world s)) t.

(** Nothing is relayed and [awake_events] is not written. *)
Definition unsent : St -> St -> Prop := calm not_relayed awake_events.

(** Nothing is relayed. *)
Definition unrelayed : St -> St -> Prop := calm not_relayed (fun _ => tt).

(** The log only grows. *)
Definition grows : St -> St -> Prop := calm any_effect (fun _ => tt).

(** [awake_events] is not written. *)
Definition awake_kept : St -> St -> Prop := calm any_effect awake_events.

(** What a run has done to the estimator: nothing, or one feed with the
    time all the answered prediction calls took, as the clock measures
    it, after a last answer of status 200. *)
Definition fed_or_not (s s' : St) (t : list effect) : Prop :=
  (feeds t = [] /\ estimation (queue s') = estimation (queue s))
  \/ exists d latency final,
       feeds t = [d]
       /\ last (answers t) = Some (latency, final)
       /\ status final = Some 200
       /\ d = latency_of (now (world s)) t
       /\ estimation (queue s') = estimation (fst (update_estimation d (queue s))).

(** A step after which the estimator is as before unless a feed was
    logged. *)
Definition fed_only_by_log (s s' : St) : Prop :=
  exists t, trace s' = trace s ++ t /\ (feeds t = [] -> estimator s' = estimator s).

(** ** Calls that come back *)

(** [lively m]: [m] returns or raises, it never waits forever. *)
Definition lively {S A} (m : M S A) : Prop := forall s, snd (m s) <> Hung.


(** ** The queue at work *)

(** What happens to a queue: a client is admitted, the dispatcher takes
    a turn, a processing task runs, estimations are broadcast, the
    queue is closed or resumed. *)
Inductive Action :=
| APush (event : Event)
| ADispatch
| AProcess (legacy_python : bool) (events : list Event) (batch : bool) (legs : list Leg)
| ABroadcast
| AClose
| AResume.

Definition act (a : Action) : M St unit :=
  match a with
  | APush event => on_queue (push event) ;; ret tt
  | ADispatch => on_queue start_processing_step ;; ret tt
  | AProcess legacy_python events batch legs =>
      process_events legacy_python events batch legs
  | ABroadcast => broadcast_estimations
  | AClose => on_queue close
  | AResume => on_queue resume
  end.

(** The state after a sequence of actions; an action that raises leaves
    what it has written. *)
Fixpoint run (actions : list Action) (s : St) : St :=
  match actions with
  | [] => s
  | a :: rest => run rest (fst (act a s))
  end.

(** A server that has just been started. *)
Definition started (q : Queue) (w : World) : St :=
  {| queue := q; heap := []; world := w; trace := []; awake_events := [] |}.

(** ** The periodic notifier *)

(** The body of the loop of [Queue.notify_clients], the sleep over. *)
Definition notify_clients_turn : M St unit :=
  l <- gets (fun s => event_queue (queue s)) ;;
  match l with
  | [] => ret tt
  | _ :: _ => broadcast_estimations
  end.

(** [Queue.notify_clients]; [sleeps] holds, for each
    [await asyncio.sleep(self.update_intervals)], what the other tasks
    do to the queue in the meantime; the coroutine is still asleep when
    [sleeps] has run out. *)
Fixpoint notify_clients (sleeps : list (list Action)) : M St unit :=
  stopped <- gets (fun s => stopped (queue s)) ;;
  if stopped then ret tt
  else
    match sleeps with
    | [] => hang
    | meanwhile :: rest =>
        modify (run meanwhile) ;;
        notify_clients_turn ;;
        notify_clients rest
    end.

(** ** Further observations *)

(** The cells of the slot table that hold a batch. *)
Definition busy (jobs : list (option (list Event))) : list (list Event) :=
  omap id jobs.

(** What [Queue.__init__] is given and no method writes. *)
Definition settings (q : Queue) : Z * Z * Z * bool * option Z * list Dependency :=
  (max_thread_count q, data_gathering_start q, update_intervals q,
   live_updates q, max_size q, blocks_dependencies q).

(** Events have only left the queue, in place, and neither the
    settings nor the [stopped] flag has changed. *)
Definition only_leave (s s' : St) : Prop :=
  sublist (event_queue (queue s')) (event_queue (queue s))
  /\ settings (queue s') = settings (queue s)
  /\ stopped (queue s') = stopped (queue s).

(** [l] without the first occurrence of [x], if it has one. *)
Definition without_first (x : Event) (l : list Event) : list Event :=
  drop_matching (fun e => e = x) 1 l.

(** The state after [event] has been taken off the waiting queue. *)
Definition cleaned (event : Event) (s : St) : St :=
  set_queue (set_event_queue (without_first event (event_queue (queue s))) (queue s)) s.

(** The transport after one more [send_json], [receive_json] call. *)
Definition after_send (w : World) : World :=
  {| now := now w; send_script := tail (send_script w);
     recv_script := recv_script w; close_script := close_script w;
     reset_script := reset_script w |}.

Definition after_recv (w : World) : World :=
  {| now := now w; send_script := send_script w;
     recv_script := tail (recv_script w); close_script := close_script w;
     reset_script := reset_script w |}.

(** The state after [data] has been sent to [event], with the outcome
    [delivered]. *)
Definition sent (event : Event) (data : Msg) (delivered : bool) (s : St) : St :=
  let s1 := set_trace (trace s ++ [ESend event data delivered])
              (set_world (after_send (world s)) s) in
  if delivered then s1 else cleaned event s1.

(** The state after the payload [d] has been received from [event]
    ([None]: the receive failed). *)
Definition received (event : Event) (d : option PredictBody) (s : St) : St :=
  let s1 := set_trace (trace s ++ [ERecv event d])
              (set_world (after_recv (world s)) s) in
  match d with
  | Some _ => s1
  | None => cleaned event s1
  end.

(** What an event is first sent by [process_events]: the request for
    its payload, or the start notice when the payload is there. *)
Definition first_message (h : list (nat * PredictBody)) (event : Event) : Msg :=
  match heap_get h (ev_id event) with
  | Some _ => MsgProcessStarts
  | None => MsgSendData
  end.

(** The prediction requests issued, in order. *)
Definition requests (t : list effect) : list (PredictBody * option string) :=
  omap (fun e => match e with EPredict body tok _ => Some (body, tok) | _ => None end) t.

(** The effects of housekeeping: no request, no answer, no result
    relayed, no feed of the estimator. *)
Definition housekeeping (e : effect) : bool :=
  match e with
  | EPredict _ _ _ | EAnswer _ _ | EUpdate _ => false
  | ESend _ m _ => control m
  | _ => true
  end.

(** The completion message that carries one row of a batched result. *)
Definition row_msg (j : Json) (success : bool) (row : list val) : Msg :=
  MsgProcessCompleted (OJson (Some (set_j_data (VList row) j))) success.

(** The completion message that reports an upstream error. *)
Definition error_msg (response : Response) : Msg :=
  MsgProcessCompleted (OError (exception response)) false.

(** The connections closed and the iterator resets requested, in
    order. *)
Definition closes (t : list effect) : list Event :=
  omap (fun e => match e with EClose event _ => Some event | _ => None end) t.

Definition resets (t : list effect) : list (string * option Z) :=
  omap (fun e => match e with EReset session fn => Some (session, fn) | _ => None end) t.

(** What [reset_iterators] is called with for an event. *)
Definition reset_key (event : Event) : string * option Z :=
  (session_hash event, fn_index event).

Definition not_closing (e : effect) : bool :=
  match e with
  | EClose _ _ | EReset _ _ => false
  | _ => true
  end.

Definition after_close (w : World) : World :=
  {| now := now w; send_script := send_script w;
     recv_script := recv_script w; close_script := tail (close_script w);
     reset_script := reset_script w |}.

Definition after_reset (w : World) : World :=
  {| now := now w; send_script := send_script w;
     recv_script := recv_script w; close_script := close_script w;
     reset_script := tail (reset_script w) |}.

(** The state after the connection of [event] has been closed, and
    after a reset has been requested. *)
Definition closed (event : Event) (r : option exn) (s : St) : St :=
  set_trace (trace s ++ [EClose event r]) (set_world (after_close (world s)) s).

Definition reset (session : string) (fn : option Z) (s : St) : St :=
  set_world (after_reset (world s)) (set_trace (trace s ++ [EReset session fn]) s).

(** How the [try] ... [except Exception: pass] around a close ends when
    the close answers [r]. *)
Definition close_outcome (legacy_python : bool) (r : option exn) : outcome unit :=
  match r with
  | Some e => if is_Exception legacy_python e then Done tt else Raised e
  | None => Done tt
  end.

(** No task cancellation can leave the [finally] block at a close: a
    [CancelledError] is caught there (Python 3.7), or none arrives. *)
Definition closes_guarded (legacy_python : bool) (s : St) : Prop :=
  legacy_python = true \/ Some CancelledError ∉ close_script (world s).

(** The closes at which the task was cancelled. *)
Definition cancelled_closes (t : list effect) : list Event :=
  omap (fun e => match e with
                 | EClose event (Some CancelledError) => Some event
                 | _ => None
                 end) t.

(** The estimation that [send_estimation] sends for a rank: the
    snapshot with its [rank] set and, once the averages are known, its
    [rank_eta]. *)
Definition stamped (q : Queue) (rank : Z) (est : Estimation) : Estimation :=
  let est := set_rank (Some rank) est in
  match avg_concurrent_process_time q, avg_process_time q with
  | Some c, Some a =>
      set_rank_eta
        (Some (PyFloat (if py_in None (active_jobs q)
                        then float_add (float_mul (float_of_Z rank) c) a
                        else float_add (float_add (float_mul (float_of_Z rank) c) a) c)))
        est
  | _, _ => est
  end.

(** The events of a broadcast whose send succeeds, the sends answering
    by [script]. *)
Fixpoint reached (script : list bool) (events : list Event) : list Event :=
  match events with
  | [] => []
  | event :: rest =>
      if default true (head script)
      then event :: reached (tail script) rest
      else reached (tail script) rest
  end.

(** The waiting queue after a broadcast to [events]: an event whose
    send fails is taken off the queue by [send_message] and once more
    by [send_estimation]. *)
Fixpoint after_broadcast (script : list bool) (events waiting : list Event)
    : list Event :=
  match events with
  | [] => waiting
  | event :: rest =>
      after_broadcast (tail script) rest
        (if default true (head script) then waiting
         else without_first event (without_first event waiting))
  end.

(** The client an effect is exchanged with, if any. *)
Definition addressee (e : effect) : option Event :=
  match e with
  | ESend event _ _ | ERecv event _ | EClose event _ => Some event
  | _ => None
  end.

(** The clients contacted, in order. *)
Definition contacted (t : list effect) : list Event := omap addressee t.

(** An effect that is exchanged with no client outside [events]. *)
Definition within (events : list Event) (e : effect) : bool :=
  match addressee e with
  | Some event => bool_decide (event ∈ events)
  | None => true
  end.

(** Only the clients of [events] are contacted. *)
Definition among (events : list Event) : St -> St -> Prop :=
  calm (within events) (fun _ => tt).

(** ** Scenarios *)

Definition client (n : nat) (fn : Z) : Event :=
  {| ev_id := n; fn_index := Some fn; session_hash := "foo"; token := None |}.

Definition payload (x : string) : PredictBody :=
  {| pb_data := VList [VStr x]; pb_batched := false |}.

(** A transport on which every call succeeds at once. *)
Definition calm_world : World :=
  {| now := float_of_Z 0; send_script := []; recv_script := [];
     close_script := []; reset_script := [] |}.

Definition answer (more : bool) (x : string) (code : Z) : Response :=
  {| has_exception := false; exception := "";
     json := Some {| j_is_generating := more; j_data := Some (VList [VStr x]) |};
     status := Some code |}.

(** Two slots, one endpoint without batching. *)
Definition plain_queue : Queue :=
  init false 2 1 1 None [ {| dep_batch := false; dep_max_batch_size := 4 |} ].

(** One slot, at most two queued events. *)
Definition small_queue : Queue :=
  init false 1 1 1 (Some 2) [ {| dep_batch := false; dep_max_batch_size := 4 |} ].

(** One slot, no bound. *)
Definition single_queue : Queue :=
  init false 1 1 1 None [ {| dep_batch := false; dep_max_batch_size := 4 |} ].

(** Endpoint 5 batches by two. *)
Definition batching_queue : Queue :=
  set_event_queue [client 1 5; client 2 5; client 3 5]
    (init false 1 1 1 None
       (replicate 5 {| dep_batch := false; dep_max_batch_size := 4 |}
        ++ [ {| dep_batch := true; dep_max_batch_size := 2 |} ])).

(** A prediction that streams twice and then ends, each leg taking five
    seconds. *)
Definition three_legs : list Leg :=
  [LReturn (float_of_Z 5) (answer true "a" 200);
   LReturn (float_of_Z 5) (answer true "b" 200);
   LReturn (float_of_Z 5) (answer false "c" 200)].

(** A prediction that streams twice and then ends on a failure. *)
Definition failing_legs : list Leg :=
  [LReturn (float_of_Z 5) (answer true "a" 200);
   LReturn (float_of_Z 5) (answer true "b" 200);
   LReturn (float_of_Z 5) (answer false "c" 500)].

(** The server with one client admitted, sending its payload on
    request. *)
Definition one_waiting : St :=
  started (set_event_queue [client 1 0] plain_queue)
    {| now := float_of_Z 0; send_script := []; recv_script := [Some (payload "x")];
       close_script := []; reset_script := [] |}.

(** The same after the dispatcher has taken a turn. *)
Definition one_dispatched : St := fst (act ADispatch one_waiting).

(** The same, the task being cancelled while it awaits the close of
    the client's connection. *)
Definition cancelled_at_close : St :=
  set_world {| now := float_of_Z 0; send_script := [];
               recv_script := [Some (payload "x")];
               close_script := [Some CancelledError]; reset_script := [] |}
    one_dispatched.

(** The same after the batch has been processed. *)
Definition one_processed : St :=
  fst (process_events false [client 1 0] false three_legs one_dispatched).

Definition one_failed : St :=
  fst (process_events false [client 1 0] false failing_legs one_dispatched).

(** The estimator fed once with four seconds, then a second time. *)
Definition fed_once : Queue := fst (update_estimation (float_of_Z 4) plain_queue).

Definition fed_twice : Queue := fst (update_estimation (float_of_Z 4) fed_once).

(** The floats 0.1, 0.2, ... and 1.5, as Python reads the literals. *)
Definition tenths (n : Z) : float := float_div (float_of_Z n) (float_of_Z 10).

Definition one_and_a_half : float := float_div (float_of_Z 3) (float_of_Z 2).

(** A server on which nothing has been processed yet. *)
Definition never_processed : St :=
  run [APush (client 1 0); APush (client 2 0); ABroadcast]
    (started plain_queue calm_world).

(** One cycle of a second and a half completed while one client was
    waiting. *)
Definition half_seconds : St :=
  started (fst (update_estimation one_and_a_half
                  (set_event_queue [client 1 0] plain_queue))) calm_world.

(** Two more clients admitted after that cycle. *)
Definition late_arrivals : St :=
  run [APush (client 2 0); APush (client 3 0)] half_seconds.

(** What [broadcast_estimations] then sends to that client. *)
Definition half_snapshot : option Msg :=
  match last (trace (fst (broadcast_estimations half_seconds))) with
  | Some (ESend _ m _) => Some m
  | _ => None
  end.

(** An event that names no endpoint. *)
Definition unroutable : Event :=
  {| ev_id := 9; fn_index := None; session_hash := "foo"; token := None |}.

(** The one slot taken, one client still waiting. *)
Definition single_busy : Queue :=
  fst (start_processing_step (set_event_queue [client 1 0; client 2 0] single_queue)).

(** A queue created with [concurrency_count = 0]. *)
Definition no_thread_queue : Queue :=
  init false 0 1 1 None [ {| dep_batch := false; dep_max_batch_size := 4 |} ].

(** The dispatched client of [one_dispatched] on a connection that
    takes no message, and on one that delivers no payload. *)
Definition deaf_client : St :=
  started (queue one_dispatched)
    {| now := float_of_Z 0; send_script := [false]; recv_script := [];
       close_script := []; reset_script := [] |}.

Definition mute_client : St := started (queue one_dispatched) calm_world.

(** A prediction call that ends on an exception. *)
Definition upstream_failure : Response :=
  {| has_exception := true; exception := "boom"; json := None; status := None |}.

(** Two clients of endpoint 5 dispatched as one batch, and a result
    with one value for each. *)
Definition two_dispatched : St :=
  started (fst (start_processing_step batching_queue))
    {| now := float_of_Z 0; send_script := [];
       recv_script := [Some (payload "x"); Some (payload "y")];
       close_script := []; reset_script := [] |}.

Definition two_rows : Response :=
  {| has_exception := false; exception := "";
     json := Some {| j_is_generating := false;
                     j_data := Some (VList [VList [VStr "a"; VStr "b"]]) |};
     status := Some 200 |}.

(** A prediction that streams three times and then ends. *)
Definition four_legs : list Leg :=
  [LReturn (float_of_Z 1) (answer true "a" 200);
   LReturn (float_of_Z 1) (answer true "b" 200);
   LReturn (float_of_Z 1) (answer true "c" 200);
   LReturn (float_of_Z 1) (answer false "d" 200)].

(** Two clients waiting, the first of them gone. *)
Definition two_waiting : St :=
  started (set_event_queue [client 1 0; client 2 0] plain_queue)
    {| now := float_of_Z 0; send_script := [false; true]; recv_script := [];
       close_script := []; reset_script := [] |}.

(** Endpoint 0 batches with a maximum batch size of zero. *)
Definition greedy_queue : Queue :=
  set_event_queue [client 1 0; client 2 0; client 3 0; client 4 0]
    (init false 1 1 1 None [ {| dep_batch := true; dep_max_batch_size := 0 |} ]).

(** A client whose payload has arrived. *)
Definition one_loaded : St :=
  {| queue := queue one_dispatched; heap := [(1%nat, payload "x")];
     world := calm_world; trace := []; awake_events := [] |}.

(** * Proofs *)

(** Unfolding the monad. *)
Ltac step_monad :=
  unfold bind, gets, modify, ret, raise, or_raise, hang; simpl.

Lemma set_event_queue_id (q : Queue) : set_event_queue (event_queue q) q = q.
Proof. destruct q; reflexivity. Qed.

Lemma set_event_queue_twice (l l' : list Event) (q : Queue) :
  set_event_queue l (set_event_queue l' q) = set_event_queue l q.
Proof. reflexivity. Qed.

(** ** Admission *)

(** Claim C2. For every queue and event: when the queue is unbounded or
    its length is strictly below [max_size], [push] appends the event at
    the back and returns the length before the insertion as the rank;
    when the length is at or above [max_size], [push] returns [None] and
    the queue is unchanged. *)
Theorem push_rank_or_full (q : Queue) (event : Event) :
  let n := Z.of_nat (length (event_queue q)) in
  ((max_size q = None \/ exists m, max_size q = Some m /\ n < m) ->
   push event q = (set_event_queue (event_queue q ++ [event]) q, Done (Some n)))
  /\ (forall m, max_size q = Some m -> m <= n -> push event q = (q, Done None)).
Proof.
  intros n. unfold push. step_monad. split.
  - intros [Hnone | (m & Hm & Hlt)].
    + rewrite Hnone. reflexivity.
    + rewrite Hm. rewrite bool_decide_eq_false_2 by (subst n; lia). reflexivity.
  - intros m Hm Hle. rewrite Hm.
    rewrite bool_decide_eq_true_2 by (subst n; lia). reflexivity.
Qed.

(** ** Batch formation *)

Section Removal.
Context {A : Type} `{EqDecision A}.
Variable P : A -> Prop.
Context `{forall x, Decision (P x)}.

Lemma remove_all_skip (picks : list A) (x : A) (l : list A) :
  Forall P picks -> ~ P x ->
  remove_all picks (x :: l) = cons x <$> remove_all picks l.
Proof.
  intros Hall Hx. revert l. induction Hall as [|p picks Hp _ IH]; intros l.
  - reflexivity.
  - simpl. destruct (decide (x = p)) as [->|Hne]; [contradiction|].
    destruct (py_remove p l) as [l'|]; simpl; [apply IH | reflexivity].
Qed.

Lemma remove_all_take_filter (n : nat) (l : list A) :
  remove_all (take n (filter P l)) l = Some (drop_matching P n l).
Proof.
  revert n. induction l as [|x l IH]; intros n.
  - destruct n; reflexivity.
  - simpl. rewrite filter_cons. destruct (decide (P x)) as [Hx|Hx].
    + destruct n as [|n]; simpl; [reflexivity|].
      rewrite decide_True by reflexivity. apply IH.
    + rewrite remove_all_skip; [rewrite IH; reflexivity | | assumption].
      apply Forall_take, list.Forall_forall. intros y Hy.
      apply list_elem_of_filter in Hy. tauto.
Qed.

Lemma drop_matching_sublist (n : nat) (l : list A) :
  sublist (drop_matching P n l) l.
Proof.
  revert n. induction l as [|x l IH]; intros n; simpl; [constructor|].
  destruct (decide (P x)).
  - destruct n; [reflexivity | apply sublist_cons, IH].
  - apply sublist_skip, IH.
Qed.

Lemma drop_matching_perm (n : nat) (l : list A) :
  take n (filter P l) ++ drop_matching P n l ≡ₚ l.
Proof.
  revert n. induction l as [|x l IH]; intros n; simpl.
  - destruct n; reflexivity.
  - rewrite filter_cons. destruct (decide (P x)).
    + destruct n; simpl; [reflexivity|]. f_equiv. apply IH.
    + rewrite <- Permutation_middle. f_equiv. apply IH.
Qed.

Lemma take_filter_sublist (n : nat) (l : list A) :
  sublist (take n (filter P l)) l.
Proof.
  transitivity (filter P l); [apply sublist_take | apply sublist_filter].
Qed.
End Removal.

Lemma for_each_remove (picks : list Event) (q : Queue) (l' : list Event) :
  remove_all picks (event_queue q) = Some l' ->
  for_each picks event_queue_remove q = (set_event_queue l' q, Done tt).
Proof.
  revert q. induction picks as [|x picks IH]; intros q; simpl.
  - intros [= <-]. rewrite set_event_queue_id. reflexivity.
  - destruct (py_remove x (event_queue q)) as [l1|] eqn:E; [|discriminate].
    intros Hrest. unfold event_queue_remove at 1. step_monad. rewrite E. simpl.
    rewrite (IH (set_event_queue l1 q) Hrest). reflexivity.
Qed.

(** Claim C3. On a non-empty queue whose front event targets an endpoint
    with batching enabled and maximum batch size [k] (at least one, the
    batch always holds the front event), [get_events_in_batch] returns a
    batch of at most [k] events that starts with the former front event,
    whose members all have the front event's endpoint index and are the
    first matching events in queue order; exactly these leave the queue
    and the events that stay keep their relative order. On an empty
    queue it returns [None] and raises nothing. *)
Theorem get_events_in_batch_batched (q : Queue) :
  (forall (front : Event) (rest : list Event) (i k : Z) (dep : Dependency),
     event_queue q = front :: rest ->
     fn_index front = Some i ->
     py_getitem (blocks_dependencies q) i = Some dep ->
     dep_batch dep = true ->
     dep_max_batch_size dep = k ->
     1 <= k ->
     exists picked remaining : list Event,
       get_events_in_batch q
         = (set_event_queue remaining q, Done (Some (front :: picked), true))
       /\ picked = take (Z.to_nat (k - 1))
                        (filter (fun e => fn_index e = fn_index front) rest)
       /\ Z.of_nat (length (front :: picked)) <= k
       /\ Forall (fun e => fn_index e = fn_index front) (front :: picked)
       /\ sublist (front :: picked) (event_queue q)
       /\ sublist remaining rest
       /\ (front :: picked) ++ remaining ≡ₚ event_queue q)
  /\ (event_queue q = [] -> get_events_in_batch q = (q, Done (None, false))).
Proof.
  split.
  - intros front rest i k dep Hq Hfn Hdep Hbatch Hk Hpos.
    destruct front as [id fi sh tk]; simpl in Hfn; subst fi; simpl.
    set (front := {| ev_id := id; fn_index := Some i; session_hash := sh; token := tk |}) in *.
    set (P := fun e : Event => fn_index e = Some i).
    exists (take (Z.to_nat (k - 1)) (filter P rest)),
           (drop_matching P (Z.to_nat (k - 1)) rest).
    split; [|split; [reflexivity|split; [|split; [|split; [|split]]]]].
    + unfold get_events_in_batch. step_monad. rewrite Hq. simpl.
      rewrite Hdep. simpl. rewrite Hbatch, Hk.
      unfold py_slice_to. rewrite decide_True by lia.
      erewrite for_each_remove; [reflexivity|].
      simpl. apply remove_all_take_filter.
    + simpl. rewrite length_take. lia.
    + constructor; [reflexivity|].
      apply Forall_take, list.Forall_forall. intros y Hy.
      apply list_elem_of_filter in Hy. apply Hy.
    + rewrite Hq. apply sublist_skip, take_filter_sublist.
    + apply drop_matching_sublist.
    + rewrite Hq. simpl. f_equiv. apply drop_matching_perm.
  - intros Hq. unfold get_events_in_batch. step_monad. rewrite Hq. reflexivity.
Qed.

(** ** Binary64 arithmetic *)

(** *** Digits *)
Lemma digits2_pos_size (p : positive) : digits2_pos p = Pos.size p.
Proof. induction p; simpl; congruence. Qed.

Lemma digits2_log2 (p : positive) : Z.pos (digits2_pos p) = Z.log2 (Z.pos p) + 1.
Proof.
  rewrite digits2_pos_size. destruct p; simpl; try reflexivity; lia.
Qed.

Lemma digits2_bounds (p : positive) :
  2 ^ (Z.pos (digits2_pos p) - 1) <= Z.pos p < 2 ^ Z.pos (digits2_pos p).
Proof.
  rewrite digits2_log2. replace (Z.log2 (Z.pos p) + 1 - 1) with (Z.log2 (Z.pos p)) by lia.
  apply Z.log2_spec. lia.
Qed.

Lemma digits2_unique (p : positive) (d : Z) :
  2 ^ (d - 1) <= Z.pos p < 2 ^ d -> Z.pos (digits2_pos p) = d.
Proof.
  intros H. rewrite digits2_log2.
  assert (Z.log2 (Z.pos p) = d - 1); [|lia].
  assert (0 < d).
  { destruct (Z.ltb_spec 0 d) as [Hd|Hd]; [exact Hd|].
    exfalso. destruct H as [_ H].
    assert (2 ^ d <= 1).
    { destruct (Z.eqb_spec d 0) as [->|Hne]; [simpl; lia|].
      rewrite Z.pow_neg_r by lia. lia. }
    lia. }
  apply Z.log2_unique; [lia|]. replace (Z.succ (d - 1)) with d by lia. exact H.
Qed.

(** *** Shifting to the right *)
Lemma shr_1_m (mrs : shr_record) :
  0 <= shr_m mrs -> shr_m (shr_1 mrs) = shr_m mrs / 2.
Proof.
  destruct mrs as [m r s]. simpl. intros Hm.
  destruct m as [|[p|p|]|p]; simpl; try reflexivity; try lia.
  - rewrite Pos2Z.inj_xI. apply Z.div_unique with 1; lia.
  - rewrite Pos2Z.inj_xO. apply Z.div_unique with 0; lia.
Qed.

Lemma iter_shr_1_m (p : positive) (mrs : shr_record) :
  0 <= shr_m mrs -> shr_m (SpecFloat.iter_pos shr_1 p mrs) = shr_m mrs / 2 ^ Z.pos p.
Proof.
  revert mrs. induction p as [p IH|p IH|]; intros mrs Hm; simpl SpecFloat.iter_pos.
  - assert (H1 : 0 <= shr_m (shr_1 mrs))
      by (rewrite shr_1_m by exact Hm; apply Z.div_pos; lia).
    assert (H2 : 0 <= shr_m (SpecFloat.iter_pos shr_1 p (shr_1 mrs)))
      by (rewrite IH by exact H1; apply Z.div_pos; [exact H1|]; apply Z.pow_pos_nonneg; lia).
    rewrite IH by exact H2. rewrite IH by exact H1. rewrite shr_1_m by exact Hm.
    rewrite !Z.div_div by (try apply Z.pow_pos_nonneg; lia).
    f_equal. replace (Z.pos p~1) with (1 + Z.pos p + Z.pos p) by lia.
    rewrite !Z.pow_add_r by lia. rewrite Z.pow_1_r. ring.
  - assert (H2 : 0 <= shr_m (SpecFloat.iter_pos shr_1 p mrs))
      by (rewrite IH by exact Hm; apply Z.div_pos; [exact Hm|]; apply Z.pow_pos_nonneg; lia).
    rewrite IH by exact H2. rewrite IH by exact Hm.
    rewrite !Z.div_div by (try apply Z.pow_pos_nonneg; lia).
    f_equal. replace (Z.pos p~0) with (Z.pos p + Z.pos p) by lia.
    rewrite !Z.pow_add_r by lia. ring.
  - rewrite shr_1_m by exact Hm. reflexivity.
Qed.

Lemma shr_1_exact (z : Z) :
  shr_1 {| shr_m := 2 * z; shr_r := false; shr_s := false |}
  = {| shr_m := z; shr_r := false; shr_s := false |}.
Proof. destruct z; reflexivity. Qed.

Lemma iter_shr_1_exact (p : positive) (z : Z) :
  SpecFloat.iter_pos shr_1 p {| shr_m := z * 2 ^ Z.pos p; shr_r := false; shr_s := false |}
  = {| shr_m := z; shr_r := false; shr_s := false |}.
Proof.
  revert z. induction p as [p IH|p IH|]; intros z; cbn [SpecFloat.iter_pos].
  - replace (z * 2 ^ Z.pos p~1) with (2 * ((z * 2 ^ Z.pos p) * 2 ^ Z.pos p)).
    + rewrite shr_1_exact, IH, IH. reflexivity.
    + replace (Z.pos p~1) with (1 + Z.pos p + Z.pos p) by lia.
      rewrite !Z.pow_add_r by lia. rewrite Z.pow_1_r. ring.
  - replace (z * 2 ^ Z.pos p~0) with ((z * 2 ^ Z.pos p) * 2 ^ Z.pos p).
    + rewrite IH, IH. reflexivity.
    + replace (Z.pos p~0) with (Z.pos p + Z.pos p) by lia.
      rewrite !Z.pow_add_r by lia. ring.
  - replace (z * 2 ^ 1) with (2 * z) by (rewrite Z.pow_1_r; ring). apply shr_1_exact.
Qed.

Lemma div_eucl_div_mod (a b : Z) : Z.div_eucl a b = (a / b, a mod b).
Proof. unfold Z.div, Z.modulo. destruct (Z.div_eucl a b). reflexivity. Qed.

(** *** The floats of the format *)
Lemma Zdigits2_shift (m : positive) (j : Z) :
  0 <= j -> Zdigits2 (Z.pos m * 2 ^ j) = Z.pos (digits2_pos m) + j.
Proof.
  intros Hj. pose proof (digits2_bounds m) as [Hlo Hhi].
  assert (Hpow : 0 < 2 ^ j) by (apply Z.pow_pos_nonneg; lia).
  destruct (Z.pos m * 2 ^ j) as [|p|p] eqn:E; try lia.
  cbn [Zdigits2]. apply digits2_unique. rewrite <- E.
  assert (Hd : 0 < Z.pos (digits2_pos m)) by lia.
  split.
  - replace (Z.pos (digits2_pos m) + j - 1) with (Z.pos (digits2_pos m) - 1 + j) by lia.
    rewrite Z.pow_add_r by lia. apply Z.mul_le_mono_nonneg_r; lia.
  - rewrite Z.pow_add_r by lia. apply Z.mul_lt_mono_pos_r; lia.
Qed.

Lemma bounded_spec (m : positive) (e : Z) :
  bounded prec emax m e = true <->
  Z.max (Z.pos (digits2_pos m) + e - 53) (-1074) = e /\ e <= 971.
Proof.
  unfold bounded, canonical_mantissa, fexp, emin, prec, emax.
  rewrite andb_true_iff, Z.eqb_eq, Z.leb_le. simpl. reflexivity.
Qed.

Lemma canonical_spec (m : positive) (e : Z) :
  canonical_mantissa prec emax m e = true <->
  Z.max (Z.pos (digits2_pos m) + e - 53) (-1074) = e.
Proof.
  unfold canonical_mantissa, fexp, emin, prec, emax. rewrite Z.eqb_eq. simpl. reflexivity.
Qed.

(** Rounding a canonical mantissa, scaled by a power of two, gives it
    back, or overflows. *)
Lemma binary_round_aux_canonical (s : bool) (m : positive) (e j : Z) :
  canonical_mantissa prec emax m e = true -> 0 <= j ->
  binary_round_aux prec emax s (Z.pos m * 2 ^ j) (e - j) loc_Exact
  = if e <=? 971 then S754_finite s m e else S754_infinity s.
Proof.
  intros Hcan%canonical_spec Hj.
  unfold binary_round_aux, shr_fexp.
  rewrite Zdigits2_shift by exact Hj.
  replace (Z.pos (digits2_pos m) + j + (e - j)) with (Z.pos (digits2_pos m) + e) by lia.
  change (fexp prec emax (Z.pos (digits2_pos m) + e))
    with (Z.max (Z.pos (digits2_pos m) + e - 53) (-1074)).
  rewrite Hcan. replace (e - (e - j)) with j by lia.
  assert (Hshift : shr (shr_record_of_loc (Z.pos m * 2 ^ j) loc_Exact) (e - j) j
                   = ({| shr_m := Z.pos m; shr_r := false; shr_s := false |}, e)).
  { destruct j as [|p|p]; try lia.
    - rewrite Z.pow_0_r, Z.mul_1_r, Z.sub_0_r. reflexivity.
    - unfold shr, shr_record_of_loc. rewrite iter_shr_1_exact. f_equal. lia. }
  rewrite Hshift. cbn [shr_m loc_of_shr_record round_nearest_even].
  cbn [Zdigits2].
  change (fexp prec emax (Z.pos (digits2_pos m) + e))
    with (Z.max (Z.pos (digits2_pos m) + e - 53) (-1074)).
  rewrite Hcan, Z.sub_diag. cbn [shr shr_record_of_loc shr_m].
  reflexivity.
Qed.

Lemma binary_round_aux_exact (s : bool) (m : positive) (e j : Z) :
  bounded prec emax m e = true -> 0 <= j ->
  binary_round_aux prec emax s (Z.pos m * 2 ^ j) (e - j) loc_Exact = S754_finite s m e.
Proof.
  intros Hb Hj. pose proof Hb as [Hcan Hle]%bounded_spec.
  rewrite binary_round_aux_canonical by (try apply canonical_spec; assumption).
  destruct (Z.leb_spec e 971); [reflexivity | lia].
Qed.

(** *** Division by a power of two *)

(** Dividing by [2^(52 + e2)] a float whose quotient [m * 2^e] fits. *)
Lemma float_div_pow2 (s : bool) (m : positive) (e a e2 : Z) (m1 : positive) :
  bounded prec emax m e = true ->
  0 <= a <= 1 ->
  Z.pos m1 = Z.pos m * 2 ^ a ->
  float_div (S754_finite s m1 (e + 52 + e2 - a)) (S754_finite false 4503599627370496 e2)
  = S754_finite s m e.
Proof.
  intros Hb Ha Hm1. pose proof Hb as [Hcan Hle]%bounded_spec.
  unfold float_div, SFdiv, SFdiv_core_binary.
  rewrite Hm1. rewrite Zdigits2_shift by lia.
  change (Zdigits2 4503599627370496) with 53.
  replace (Z.pos (digits2_pos m) + a + (e + 52 + e2 - a) - (53 + e2))
    with (Z.pos (digits2_pos m) + e - 1) by lia.
  replace (e + 52 + e2 - a - e2) with (e + 52 - a) by lia.
  change (fexp prec emax (Z.pos (digits2_pos m) + e - 1))
    with (Z.max (Z.pos (digits2_pos m) + e - 1 - 53) (-1074)).
  set (e' := Z.min (Z.max (Z.pos (digits2_pos m) + e - 1 - 53) (-1074)) (e + 52 - a)).
  assert (He' : e' <= e /\ e - 1 <= e') by (unfold e'; lia).
  destruct (e + 52 - a - e') as [|p|p] eqn:Es; try lia.
  rewrite Z.shiftl_mul_pow2 by lia.
  rewrite div_eucl_div_mod.
  assert (Hq : Z.pos m * 2 ^ a * 2 ^ Z.pos p
               = (Z.pos m * 2 ^ (e - e')) * 4503599627370496).
  { change 4503599627370496 with (2 ^ 52).
    rewrite <- !Z.mul_assoc, <- !Z.pow_add_r by lia. f_equal. f_equal. lia. }
  rewrite Hq. rewrite Z.div_mul by lia. rewrite Z.mod_mul by lia.
  change (new_location 4503599627370496 0) with loc_Exact.
  rewrite xorb_false_r.
  replace e' with (e - (e - e')) at 2 by lia.
  apply binary_round_aux_exact; [exact Hb | lia].
Qed.

(** *** The operations that are exact *)

Lemma float_div_one (x : float) :
  valid x = true -> is_finite x = true -> float_div x (float_of_Z 1) = x.
Proof.
  destruct x as [s|s| |s m e]; try discriminate; intros Hv _.
  - simpl. rewrite xorb_false_r. reflexivity.
  - change (float_of_Z 1) with (S754_finite false 4503599627370496 (-52)).
    replace e with (e + 52 + -52 - 0) at 1 by lia.
    apply float_div_pow2; [exact Hv | lia | rewrite Z.pow_0_r; lia].
Qed.

(** [x + x] for a finite [x]: the mantissa doubles, or the exponent
    moves up by one, or the sum overflows. *)
Lemma float_add_self (s : bool) (m : positive) (e : Z) :
  bounded prec emax m e = true ->
  float_add (S754_finite s m e) (S754_finite s m e)
  = if Z.max (Z.pos (digits2_pos m) + e - 52) (-1074) =? e
    then S754_finite s m~0 e
    else if e + 1 <=? 971 then S754_finite s m (e + 1) else S754_infinity s.
Proof.
  intros Hb. pose proof Hb as [Hcan Hle]%bounded_spec.
  unfold float_add, SFadd. rewrite Z.min_id.
  unfold shl_align at 1 2. rewrite Z.sub_diag. cbn [fst].
  assert (Hsum : cond_Zopp s (Z.pos m) + cond_Zopp s (Z.pos m)
                 = cond_Zopp s (Z.pos m~0)) by (destruct s; simpl; lia).
  rewrite Hsum.
  assert (Hround : binary_normalize prec emax (cond_Zopp s (Z.pos m~0)) e false
                   = binary_round prec emax s m~0 e) by (destruct s; reflexivity).
  rewrite Hround. unfold binary_round.
  change (digits2_pos m~0) with (Pos.succ (digits2_pos m)).
  change (fexp prec emax (Z.pos (Pos.succ (digits2_pos m)) + e))
    with (Z.max (Z.pos (Pos.succ (digits2_pos m)) + e - 53) (-1074)).
  replace (Z.pos (Pos.succ (digits2_pos m)) + e - 53)
    with (Z.pos (digits2_pos m) + e - 52) by lia.
  remember (Z.max (Z.pos (digits2_pos m) + e - 52) (-1074)) as e1 eqn:Hdef.
  assert (He1 : e1 = e \/ e1 = e + 1) by lia.
  unfold shl_align. destruct (e1 - e) as [|p|p] eqn:Ed; try lia.
  - assert (He : e1 = e) by lia. rewrite He, Z.eqb_refl.
    replace (Z.pos m~0) with (Z.pos m~0 * 2 ^ 0) by (rewrite Z.pow_0_r; lia).
    replace e with (e - 0) at 1 by lia.
    apply binary_round_aux_exact; [|lia].
    apply bounded_spec. split; [|exact Hle].
    change (digits2_pos m~0) with (Pos.succ (digits2_pos m)). lia.
  - assert (He : e1 = e + 1) by lia. rewrite He.
    destruct (Z.eqb_spec (e + 1) e) as [Habs|_]; [lia|].
    replace (Z.pos m~0) with (Z.pos m * 2 ^ 1) by (rewrite Z.pow_1_r; lia).
    replace e with (e + 1 - 1) at 1 by lia.
    apply binary_round_aux_canonical; [|lia].
    apply canonical_spec. lia.
Qed.

Lemma float_double_half (x : float) :
  valid x = true -> is_finite x = true -> is_finite (float_add x x) = true ->
  x <> S754_zero true ->
  float_div (float_add x x) (float_of_Z 2) = x.
Proof.
  destruct x as [s|s| |s m e]; try discriminate; intros Hv _ Hfin Hneg.
  - destruct s; [contradiction | reflexivity].
  - pose proof Hv as [Hcan Hle]%bounded_spec.
    rewrite float_add_self in * by exact Hv.
    change (float_of_Z 2) with (S754_finite false 4503599627370496 (-51)).
    destruct (Z.eqb_spec (Z.max (Z.pos (digits2_pos m) + e - 52) (-1074)) e) as [He|He].
    + replace e with (e + 52 + -51 - 1) at 1 by lia.
      apply float_div_pow2; [exact Hv | lia | rewrite Z.pow_1_r; lia].
    + destruct (Z.leb_spec (e + 1) 971); [|discriminate].
      replace (e + 1) with (e + 52 + -51 - 0) by lia.
      apply float_div_pow2; [exact Hv | lia | rewrite Z.pow_0_r; lia].
Qed.

(** *** Integers as floats *)

Lemma round_nearest_even_bounds (m : Z) (l : location) :
  m <= round_nearest_even m l <= m + 1.
Proof.
  destruct l as [|[]]; simpl; try lia. destruct (Z.even m); lia.
Qed.

Lemma shift_pos_pow (q p : positive) : Z.pos (Pos.iter xO p q) = Z.pos p * 2 ^ Z.pos q.
Proof.
  change (Pos.iter xO p q) with (shift_pos q p).
  rewrite shift_pos_correct, Z.pow_pos_fold. lia.
Qed.

(** An integer rounds to a float with the integer's sign: a finite one
    that is not zero, or an infinity; it is finite when the integer has
    at most 1023 bits. *)
Lemma binary_round_int (s : bool) (p : positive) :
  exists m e,
    e <= Z.pos (digits2_pos p) - 52
    /\ binary_round prec emax s p 0
       = if e <=? 971 then S754_finite s m e else S754_infinity s.
Proof.
  pose proof (digits2_bounds p) as [Hlo Hhi].
  set (d := Z.pos (digits2_pos p)) in *.
  assert (Hd : 1 <= d) by (unfold d; lia).
  unfold binary_round. rewrite Z.add_0_r. fold d.
  change (fexp prec emax d) with (Z.max (d - 53) (-1074)).
  rewrite Z.max_l by lia.
  unfold shl_align. rewrite Z.sub_0_r.
  destruct (d - 53) as [|k|q] eqn:Ek.
  - exists p, 0. split; [lia|].
    replace (Z.pos p) with (Z.pos p * 2 ^ 0) by (rewrite Z.pow_0_r; lia).
    change 0 with (0 - 0) at 2.
    apply binary_round_aux_exact; [|lia].
    apply bounded_spec. fold d. lia.
  - unfold binary_round_aux, shr_fexp. cbn [Zdigits2]. fold d.
    rewrite Z.add_0_r.
    change (fexp prec emax d) with (Z.max (d - 53) (-1074)).
    rewrite Z.max_l by lia. rewrite Z.sub_0_r, Ek.
    unfold shr at 1. cbn [shr_record_of_loc].
    set (mrs := SpecFloat.iter_pos shr_1 k {| shr_m := Z.pos p; shr_r := false; shr_s := false |}).
    assert (Hm1 : shr_m mrs = Z.pos p / 2 ^ Z.pos k)
      by (unfold mrs; rewrite iter_shr_1_m by (simpl; lia); reflexivity).
    assert (Hk : Z.pos k = d - 53) by lia.
    assert (Hpow : 0 < 2 ^ Z.pos k) by (apply Z.pow_pos_nonneg; lia).
    assert (Hb1 : 2 ^ 52 <= shr_m mrs < 2 ^ 53).
    { rewrite Hm1. split.
      - apply Z.div_le_lower_bound; [exact Hpow|].
        rewrite <- Z.pow_add_r by lia. replace (Z.pos k + 52) with (d - 1) by lia.
        exact Hlo.
      - apply Z.div_lt_upper_bound; [exact Hpow|].
        rewrite <- Z.pow_add_r by lia. replace (Z.pos k + 53) with d by lia.
        exact Hhi. }
    pose proof (round_nearest_even_bounds (shr_m mrs) (loc_of_shr_record mrs)) as Hr.
    set (m2 := round_nearest_even (shr_m mrs) (loc_of_shr_record mrs)) in *.
    assert (Hb2 : 2 ^ 52 <= m2 <= 2 ^ 53) by lia.
    destruct m2 as [|p2|p2] eqn:Em2; try lia.
    cbn [Zdigits2].
    pose proof (digits2_bounds p2) as [Hlo2 Hhi2].
    set (d2 := Z.pos (digits2_pos p2)) in *.
    assert (Hd2 : d2 = 53 \/ d2 = 54).
    { destruct (Z.ltb_spec d2 53) as [H|H].
      - exfalso. assert (2 ^ d2 <= 2 ^ 52) by (apply Z.pow_le_mono_r; lia). lia.
      - destruct (Z.ltb_spec 54 d2) as [H'|H']; [|lia].
        exfalso. assert (2 ^ 54 <= 2 ^ (d2 - 1)) by (apply Z.pow_le_mono_r; lia).
        assert (2 ^ 53 < 2 ^ 54) by (apply Z.pow_lt_mono_r; lia). lia. }
    change (fexp prec emax (d2 + (0 + Z.pos k)))
      with (Z.max (d2 + (0 + Z.pos k) - 53) (-1074)).
    rewrite Z.max_l by lia.
    destruct Hd2 as [Hd2|Hd2]; rewrite Hd2.
    + replace (53 + (0 + Z.pos k) - 53 - (0 + Z.pos k)) with 0 by lia.
      cbn [shr shr_record_of_loc shr_m].
      change (emax - prec) with 971.
      exists p2, (0 + Z.pos k). split; [lia | reflexivity].
    + replace (54 + (0 + Z.pos k) - 53 - (0 + Z.pos k)) with 1 by lia.
      unfold shr. cbn [shr_record_of_loc SpecFloat.iter_pos].
      assert (Hm3 : shr_m (shr_1 {| shr_m := Z.pos p2; shr_r := false; shr_s := false |})
                    = Z.pos p2 / 2) by (apply shr_1_m; simpl; lia).
      assert (Hpos : 2 ^ 52 <= Z.pos p2 / 2).
      { apply Z.div_le_lower_bound; [lia|].
        change (2 * 2 ^ 52) with (2 ^ 53).
        assert (2 ^ 53 <= 2 ^ (d2 - 1)) by (apply Z.pow_le_mono_r; lia). lia. }
      destruct (shr_m (shr_1 {| shr_m := Z.pos p2; shr_r := false; shr_s := false |}))
        as [|p3|p3]; try lia.
      change (emax - prec) with 971.
      exists p3, (0 + Z.pos k + 1). split; [lia | reflexivity].
  - exists (Pos.iter xO p q), (Z.neg q). split; [lia|].
    replace (Z.pos (Pos.iter xO p q)) with (Z.pos (Pos.iter xO p q) * 2 ^ 0)
      by (rewrite Z.pow_0_r; lia).
    replace (Z.neg q) with (Z.neg q - 0) at 1 by lia.
    rewrite binary_round_aux_exact.
    + destruct (Z.leb_spec (Z.neg q) 971); [reflexivity | lia].
    + apply bounded_spec.
      assert (Hdig : Z.pos (digits2_pos (Pos.iter xO p q)) = d + Z.pos q).
      { pose proof (Zdigits2_shift p (Z.pos q)) as H. rewrite <- shift_pos_pow in H.
        apply H. lia. }
      rewrite Hdig. lia.
    + lia.
Qed.

(** The float of an integer other than zero is not a zero. *)
Lemma float_of_Z_is_zero (z : Z) : z <> 0 -> is_zero (float_of_Z z) = false.
Proof.
  intros Hz.
  assert (H : forall s p, is_zero (binary_round prec emax s p 0) = false).
  { intros s p. destruct (binary_round_int s p) as (m & e & _ & ->).
    destruct (e <=? 971); reflexivity. }
  destruct z as [|p|p]; [contradiction| |]; apply H.
Qed.

(** The float of an integer of at most 1023 bits is finite. *)
Lemma float_of_Z_is_finite (z : Z) :
  Z.abs z < 2 ^ 1023 -> is_finite (float_of_Z z) = true.
Proof.
  intros Hb.
  assert (H : forall s p, Z.pos p < 2 ^ 1023 ->
                          is_finite (binary_round prec emax s p 0) = true).
  { intros s p Hp. destruct (binary_round_int s p) as (m & e & He & ->).
    pose proof (digits2_bounds p) as [Hlo _].
    assert (Z.pos (digits2_pos p) <= 1023).
    { destruct (Z.leb_spec (Z.pos (digits2_pos p)) 1023) as [H|H]; [exact H|]. exfalso.
      assert (2 ^ 1023 <= 2 ^ (Z.pos (digits2_pos p) - 1))
        by (apply Z.pow_le_mono_r; lia).
      lia. }
    destruct (Z.leb_spec e 971); [reflexivity | lia]. }
  destruct z as [|p|p]; [reflexivity| |]; apply H; simpl in Hb; lia.
Qed.

Arguments float_add : simpl never.
Arguments float_sub : simpl never.
Arguments float_mul : simpl never.
Arguments float_div : simpl never.
Arguments float_of_Z : simpl never.

(** ** Estimator *)

Lemma py_float_in_range {S} (z : Z) (s : S) :
  in_float_range z -> py_float z s = (s, Done (float_of_Z z)).
Proof.
  intros H. unfold py_float. rewrite float_of_Z_is_finite by exact H. reflexivity.
Qed.

Lemma py_truediv_by {S} (x : float) (z : Z) (s : S) :
  z <> 0 -> py_truediv x (float_of_Z z) s = (s, Done (float_div x (float_of_Z z))).
Proof.
  intros Hz. unfold py_truediv. rewrite float_of_Z_is_zero by assumption.
  reflexivity.
Qed.

Lemma in_float_range_min (limit count : Z) :
  in_float_range limit -> in_float_range count -> in_float_range (Z.min limit count).
Proof. unfold in_float_range. lia. Qed.

Lemma update_estimation_fed (duration : float) (q : Queue) :
  0 <= duration_history_count q ->
  in_float_range (duration_history_count q + 1) ->
  max_thread_count q <> 0 ->
  in_float_range (max_thread_count q) ->
  in_float_range (Z.of_nat (length (event_queue q))) ->
  update_estimation duration q = (fed duration q, Done tt).
Proof.
  intros Hcount Hrange Hlimit Hlrange Hlen.
  unfold update_estimation, bind, modify, gets. simpl.
  rewrite py_float_in_range by exact Hrange.
  rewrite py_truediv_by by lia. simpl.
  rewrite py_float_in_range by (apply in_float_range_min; assumption).
  rewrite py_truediv_by by lia. simpl.
  rewrite py_float_in_range by exact Hlen.
  reflexivity.
Qed.

Lemma feed_all (ds : list float) (q : Queue) :
  0 <= duration_history_count q ->
  in_float_range (duration_history_count q + Z.of_nat (length ds)) ->
  max_thread_count q <> 0 ->
  in_float_range (max_thread_count q) ->
  in_float_range (Z.of_nat (length (event_queue q))) ->
  exists q',
    for_each ds update_estimation q = (q', Done tt)
    /\ duration_history_total q' = fold_left float_add ds (duration_history_total q)
    /\ duration_history_count q' = duration_history_count q + Z.of_nat (length ds)
    /\ max_thread_count q' = max_thread_count q
    /\ (ds <> [] ->
        avg_process_time q'
          = Some (float_div (duration_history_total q')
                            (float_of_Z (duration_history_count q')))
        /\ avg_concurrent_process_time q'
          = Some (float_div
                    (float_div (duration_history_total q')
                               (float_of_Z (duration_history_count q')))
                    (float_of_Z (Z.min (max_thread_count q')
                                       (duration_history_count q'))))).
Proof.
  revert q. induction ds as [|d ds IH]; intros q Hcount Hrange Hlimit Hlrange Hlen.
  - exists q. simpl. split; [reflexivity|]. split; [reflexivity|]. split; [lia|].
    split; [reflexivity|]. intros []. reflexivity.
  - assert (Hone : in_float_range (duration_history_count q + 1))
      by (unfold in_float_range in *; simpl length in Hrange; lia).
    destruct (IH (fed d q)) as (q' & Hrun & Htotal & Hn & Hlim & Havg);
      [simpl; lia
      | unfold in_float_range in *; simpl length in *; simpl duration_history_count; lia
      | exact Hlimit | exact Hlrange | exact Hlen |].
    exists q'. simpl for_each. unfold bind at 1.
    rewrite update_estimation_fed by assumption.
    rewrite Hrun. split; [reflexivity|].
    split; [rewrite Htotal; reflexivity|].
    split; [rewrite Hn; simpl; lia|].
    split; [exact Hlim|].
    intros _. destruct ds as [|d' ds].
    + simpl in Hrun. injection Hrun as <-. simpl. split; reflexivity.
    + apply Havg. discriminate.
Qed.

(** Claim C6. Starting with no sample, after [update_estimation] has
    been called with the durations [d1..dn] ([n >= 1]),
    [avg_process_time] is [(d1 + ... + dn) / n] and
    [avg_concurrent_process_time] is [avg_process_time] divided by
    [min(max_thread_count, n)], in the arithmetic of the code: the sum
    is the one that [+=] has accumulated from 0, each addition and each
    division rounded to the nearest float. The limit is not zero, so
    that [min(limit, n)] can be divided by, and the integers converted
    to floats are within the range of a float. *)
Theorem update_estimation_averages (q : Queue) (ds : list float) :
  duration_history_total q = float_of_Z 0 ->
  duration_history_count q = 0 ->
  max_thread_count q <> 0 ->
  in_float_range (max_thread_count q) ->
  in_float_range (Z.of_nat (length (event_queue q))) ->
  ds <> [] ->
  in_float_range (Z.of_nat (length ds)) ->
  let n := Z.of_nat (length ds) in
  exists q' avg,
    for_each ds update_estimation q = (q', Done tt)
    /\ avg = float_div (float_sum ds) (float_of_Z n)
    /\ avg_process_time q' = Some avg
    /\ avg_concurrent_process_time q'
       = Some (float_div avg (float_of_Z (Z.min (max_thread_count q) n))).
Proof.
  intros Htotal Hcount Hlimit Hlrange Hlen Hds Hrange n.
  destruct (feed_all ds q) as (q' & Hrun & Ht & Hn & Hlim & Havg);
    [lia | rewrite Hcount; exact Hrange | exact Hlimit | exact Hlrange | exact Hlen |].
  destruct (Havg Hds) as [Ha Hc].
  rewrite Htotal in Ht. rewrite Hcount in Hn. simpl in Hn.
  fold (float_sum ds) in Ht.
  exists q', (float_div (float_sum ds) (float_of_Z n)).
  split; [exact Hrun|]. split; [reflexivity|].
  rewrite Ha, Hc, Ht, Hn, Hlim. split; reflexivity.
Qed.

Lemma float_add_zero_l (x : float) :
  is_finite x = true -> x <> S754_zero true -> float_add (float_of_Z 0) x = x.
Proof.
  intros Hfin Hneg. destruct x as [[]| | |]; try discriminate; try reflexivity.
  contradiction.
Qed.

Lemma fed_averages (q : Queue) (d : float) :
  let avg := float_div (float_add (duration_history_total q) d)
                       (float_of_Z (duration_history_count q + 1)) in
  avg_process_time (fed d q) = Some avg
  /\ avg_concurrent_process_time (fed d q)
     = Some (float_div avg (float_of_Z (Z.min (max_thread_count q)
                                              (duration_history_count q + 1)))).
Proof. split; reflexivity. Qed.

Lemma fed_first_sample (q : Queue) (d : float) :
  duration_history_total q = float_of_Z 0 ->
  duration_history_count q = 0 ->
  valid d = true -> is_finite d = true -> d <> S754_zero true ->
  duration_history_total (fed d q) = d
  /\ duration_history_count (fed d q) = 1
  /\ avg_process_time (fed d q) = Some d
  /\ avg_concurrent_process_time (fed d q)
     = Some (float_div d (float_of_Z (Z.min (max_thread_count q) 1))).
Proof.
  intros Htotal Hcount Hvalid Hfin Hneg. unfold fed. simpl.
  rewrite Htotal, Hcount, float_add_zero_l by assumption.
  change (0 + 1) with 1. rewrite float_div_one by assumption.
  repeat split; reflexivity.
Qed.

(** Claim C7, amended. For every concurrency limit of at least one and
    every duration [d] (a finite float other than the negative zero,
    whose double is still finite): feeding [d] once as the only sample
    gives [avg_process_time = d] and [avg_concurrent_process_time = d];
    feeding [d] a second time leaves [avg_process_time] at [d] and sets
    [avg_concurrent_process_time] to [d / min(limit, 2)]: to [d] again
    when the limit is one, to [d / 2] when the limit is two or more. *)
Theorem update_estimation_same_sample (q : Queue) (d : float) :
  duration_history_total q = float_of_Z 0 ->
  duration_history_count q = 0 ->
  1 <= max_thread_count q ->
  in_float_range (max_thread_count q) ->
  in_float_range (Z.of_nat (length (event_queue q))) ->
  valid d = true ->
  is_finite d = true ->
  is_finite (float_add d d) = true ->
  d <> S754_zero true ->
  exists q1 q2,
    update_estimation d q = (q1, Done tt)
    /\ avg_process_time q1 = Some d
    /\ avg_concurrent_process_time q1 = Some d
    /\ update_estimation d q1 = (q2, Done tt)
    /\ avg_process_time q2 = Some d
    /\ avg_concurrent_process_time q2
       = Some (float_div d (float_of_Z (Z.min (max_thread_count q) 2)))
    /\ (max_thread_count q = 1 -> avg_concurrent_process_time q2 = Some d)
    /\ (2 <= max_thread_count q ->
        avg_concurrent_process_time q2 = Some (float_div d (float_of_Z 2))).
Proof.
  intros Htotal Hcount Hlimit Hlrange Hlen Hvalid Hfin Hdouble Hneg.
  destruct (fed_first_sample q d Htotal Hcount Hvalid Hfin Hneg)
    as (Ht1 & Hc1 & Ha1 & Hconc1).
  assert (Hsmall : forall z, 0 <= z <= 2 -> in_float_range z)
    by (unfold in_float_range; intros z Hz; lia).
  assert (Hrun1 : update_estimation d q = (fed d q, Done tt))
    by (apply update_estimation_fed; try assumption; try lia; apply Hsmall; lia).
  assert (Hrun2 : update_estimation d (fed d q) = (fed d (fed d q), Done tt)).
  { apply update_estimation_fed.
    - rewrite Hc1. lia.
    - rewrite Hc1. apply Hsmall. lia.
    - change (max_thread_count q <> 0). lia.
    - exact Hlrange.
    - exact Hlen. }
  destruct (fed_averages (fed d q) d) as [Ha2 Hconc2].
  rewrite Ht1, Hc1 in Ha2, Hconc2. change (1 + 1) with 2 in Ha2, Hconc2.
  rewrite float_double_half in Ha2, Hconc2 by assumption.
  change (max_thread_count (fed d q)) with (max_thread_count q) in Hconc2.
  exists (fed d q), (fed d (fed d q)).
  split; [exact Hrun1|]. split; [exact Ha1|].
  split. { rewrite Hconc1, Z.min_r by lia. rewrite float_div_one by assumption. reflexivity. }
  split; [exact Hrun2|]. split; [exact Ha2|]. split; [exact Hconc2|].
  split.
  - intros Hone. rewrite Hconc2, Hone. change (Z.min 1 2) with 1.
    rewrite float_div_one by assumption. reflexivity.
  - intros Htwo. rewrite Hconc2, Z.min_r by lia. reflexivity.
Qed.

(** [get_estimation] only reads the queue: it answers with the snapshot
    made of the stored figures, or raises when [queue_duration] has no
    integer part. *)
Lemma get_estimation_eq (q : Queue) :
  get_estimation q
  = (q, match py_int_of_float (queue_duration q) with
        | Some eta =>
            Done {| rank := None;
                    queue_size := Z.of_nat (length (event_queue q));
                    avg_event_process_time := avg_process_time q;
                    avg_event_concurrent_process_time := avg_concurrent_process_time q;
                    rank_eta := None;
                    queue_eta := eta |}
        | None => Raised ValueError
        end).
Proof.
  unfold get_estimation, Estimation_new. step_monad.
  destruct (py_int_of_float (queue_duration q)); reflexivity.
Qed.

Lemma set_queue_id (s : St) : set_queue (queue s) s = s.
Proof. destruct s; reflexivity. Qed.

Lemma on_queue_get_estimation (s : St) :
  on_queue get_estimation s = (s, snd (get_estimation (queue s))).
Proof.
  unfold on_queue. rewrite get_estimation_eq. simpl. rewrite set_queue_id. reflexivity.
Qed.

(** ** What a run leaves alone *)

Section Keeps.
Variable R : St -> St -> Prop.
Hypothesis R_refl : forall s, R s s.
Hypothesis R_trans : forall s1 s2 s3, R s1 s2 -> R s2 s3 -> R s1 s3.

Lemma keeps_get_estimation : keeps R (on_queue get_estimation).
Proof. intros s. rewrite on_queue_get_estimation. apply R_refl. Qed.

Lemma keeps_ret {A} (a : A) : keeps R (ret a).
Proof. intros s. apply R_refl. Qed.

Lemma keeps_raise {A} (e : exn) : keeps R (@raise St A e).
Proof. intros s. apply R_refl. Qed.

Lemma keeps_hang {A} : keeps R (@hang St A).
Proof. intros s. apply R_refl. Qed.

Lemma keeps_gets {A} (f : St -> A) : keeps R (gets f).
Proof. intros s. apply R_refl. Qed.

Lemma keeps_or_raise {A} (e : exn) (o : option A) : keeps R (or_raise e o).
Proof. destruct o; [apply keeps_ret | apply keeps_raise]. Qed.

Lemma keeps_py_float (z : Z) : keeps R (py_float z).
Proof.
  unfold py_float. destruct (is_finite (float_of_Z z)); [apply keeps_ret | apply keeps_raise].
Qed.

Lemma keeps_bind {A B} (m : M St A) (k : A -> M St B) :
  keeps R m -> (forall a, keeps R (k a)) -> keeps R (bind m k).
Proof.
  intros Hm Hk s. unfold bind. specialize (Hm s).
  destruct (m s) as [s1 [a| |]]; simpl in *; try assumption.
  eapply R_trans; [exact Hm | apply Hk].
Qed.

Lemma keeps_for_each {A} (l : list A) (body : A -> M St unit) :
  (forall x, keeps R (body x)) -> keeps R (for_each l body).
Proof.
  intros Hbody. induction l as [|x l IH]; simpl.
  - apply keeps_ret.
  - apply keeps_bind; [apply Hbody | intros _; exact IH].
Qed.

Lemma keeps_try_finally {A} (body : M St A) (cleanup : M St unit) :
  keeps R body -> keeps R cleanup -> keeps R (try_finally body cleanup).
Proof.
  intros Hb Hc s. unfold try_finally. specialize (Hb s).
  destruct (body s) as [s1 r]; simpl in *.
  specialize (Hc s1).
  destruct r; destruct (cleanup s1) as [s2 [[]| |]]; simpl in *;
    try assumption; eapply R_trans; eassumption.
Qed.

(** The effects and the steps that [R] tolerates. *)
Variable ok : effect -> bool.
Hypothesis keeps_emit : forall e, ok e = true -> keeps R (emit e).
Hypothesis keeps_next_send : keeps R next_send.
Hypothesis keeps_next_recv : keeps R next_recv.
Hypothesis keeps_next_close : keeps R next_close.
Hypothesis keeps_next_reset : keeps R next_reset.
Hypothesis keeps_set_data : forall event d, keeps R (set_data event d).
Hypothesis keeps_remove :
  forall event, keeps R (on_queue (event_queue_remove event)).
Hypothesis keeps_await_answer : forall answer, keeps R (await_answer answer).

Ltac keeps_steps :=
  repeat first
    [ apply keeps_ret | apply keeps_raise | apply keeps_hang
    | apply keeps_gets | apply keeps_or_raise | apply keeps_py_float
    | apply keeps_next_send | apply keeps_next_recv
    | apply keeps_next_close | apply keeps_next_reset
    | apply keeps_set_data | apply keeps_remove | apply keeps_await_answer
    | apply keeps_emit; solve [auto]
    | apply keeps_bind; [|intros ?]
    | apply keeps_for_each; intros ?
    | match goal with
      | |- keeps _ (if ?b then _ else _) => destruct b
      | |- keeps _ (match ?x with _ => _ end) => destruct x
      end ].

Lemma keeps_clean_event (event : Event) : keeps R (clean_event event).
Proof. unfold clean_event. keeps_steps. Qed.

Lemma keeps_send_message (event : Event) (data : Msg) :
  (forall delivered, ok (ESend event data delivered) = true) ->
  keeps R (send_message event data).
Proof.
  intros Hok. unfold send_message, ws_send_json. keeps_steps.
Qed.

Lemma keeps_get_message (event : Event) :
  (forall r, ok (ERecv event r) = true) -> keeps R (get_message event).
Proof.
  intros Hok. unfold get_message, ws_receive_json. keeps_steps.
Qed.

Lemma keeps_gather_event_data (event : Event) :
  (forall delivered, ok (ESend event MsgSendData delivered) = true) ->
  (forall r, ok (ERecv event r) = true) ->
  keeps R (gather_event_data event).
Proof.
  intros Hsend Hrecv. unfold gather_event_data, get_data. keeps_steps.
Qed.

Lemma keeps_disconnect (event : Event) :
  (forall r, ok (EClose event r) = true) -> keeps R (disconnect event).
Proof. intros Hok. unfold disconnect. keeps_steps. Qed.

Lemma keeps_except_Exception (legacy_python : bool) (body : M St unit) :
  keeps R body -> keeps R (except_Exception legacy_python body).
Proof.
  intros K s. specialize (K s). unfold except_Exception.
  destruct (body s) as [s1 [[]|e|]]; [exact K | | exact K].
  destruct (is_Exception legacy_python e); exact K.
Qed.

Lemma keeps_reset_iterators (session : string) (fn : option Z) :
  ok (EReset session fn) = true -> keeps R (reset_iterators session fn).
Proof. intros Hok. unfold reset_iterators. keeps_steps. Qed.

Lemma keeps_relay (awake : list Event) (data : Msg) :
  (forall event delivered, ok (ESend event data delivered) = true) ->
  keeps R (relay awake data).
Proof.
  intros Hok. unfold relay. keeps_steps.
Qed.

Lemma keeps_request_body (events : list Event) (batch : bool) :
  keeps R (request_body events batch).
Proof. unfold request_body, get_data. keeps_steps. Qed.

Lemma keeps_call_prediction (events : list Event) (batch : bool) (answer : option Leg) :
  (forall body tok t, ok (EPredict body tok t) = true) ->
  keeps R (call_prediction events batch answer).
Proof.
  intros Hok. unfold call_prediction, time.
  apply keeps_bind; [apply keeps_request_body | intros request].
  keeps_steps.
Qed.

Lemma keeps_is_generating (response : Response) : keeps R (is_generating response).
Proof. unfold is_generating. keeps_steps. Qed.

(** Runs during which [R] tolerates every control message, payload,
    request, close and reset. *)
Hypothesis ok_control :
  forall event data delivered,
    control data = true -> ok (ESend event data delivered) = true.
Hypothesis ok_recv : forall event r, ok (ERecv event r) = true.
Hypothesis ok_close : forall event r, ok (EClose event r) = true.
Hypothesis ok_predict : forall body tok t, ok (EPredict body tok t) = true.
Hypothesis ok_reset : forall session fn, ok (EReset session fn) = true.

Hypothesis keeps_awake :
  forall g, keeps R (modify (fun s => set_awake_events (g s) s)).

Variable legacy_python : bool.
Variable events : list Event.
Variable batch : bool.

Lemma keeps_gather_awake : keeps R (gather_awake events).
Proof.
  unfold gather_awake. apply keeps_for_each. intros event.
  apply keeps_bind; [apply keeps_gather_event_data; auto | intros awake1].
  apply keeps_bind.
  - destruct awake1; [apply keeps_send_message; auto | apply keeps_ret].
  - intros []; [apply keeps_awake | apply keeps_ret].
Qed.

Lemma keeps_send_estimation (event : Event) (estimation : Estimation) (rank : Z) :
  keeps R (send_estimation event estimation rank).
Proof.
  unfold send_estimation.
  apply keeps_bind; [apply keeps_gets | intros conc].
  apply keeps_bind; [keeps_steps | intros estimation'].
  apply keeps_bind; [apply keeps_send_message; auto | intros client_awake].
  apply keeps_bind; [|intros; apply keeps_ret].
  destruct (negb client_awake); [apply keeps_clean_event | apply keeps_ret].
Qed.

Lemma keeps_broadcast_estimations : keeps R broadcast_estimations.
Proof.
  unfold broadcast_estimations.
  apply keeps_bind; [apply keeps_get_estimation | intros estimation].
  apply keeps_bind; [apply keeps_gets | intros l].
  generalize 0. revert estimation.
  induction l as [|event l IH]; intros estimation rank; simpl; [apply keeps_ret|].
  apply keeps_bind; [apply keeps_send_estimation | intros estimation'; apply IH].
Qed.

(** Runs during which [R] tolerates every message. *)
Hypothesis ok_send : forall event data delivered, ok (ESend event data delivered) = true.

Lemma keeps_generating_loop (awake : list Event) (legs : list Leg)
    (response : Response) (event : option Event) :
  keeps R (generating_loop legacy_python batch awake legs response event).
Proof.
  revert response event. induction legs as [|leg legs IH]; intros response event; simpl.
  - apply keeps_bind.
    { destruct legacy_python; [|apply keeps_ret].
      apply keeps_bind; [apply keeps_or_raise | intros; apply keeps_send_message; auto]. }
    intros []; simpl; [|apply keeps_ret].
    apply keeps_bind; [apply keeps_relay; auto | intros _].
    apply keeps_bind; [apply keeps_call_prediction; auto | intros; apply keeps_hang].
  - apply keeps_bind.
    { destruct legacy_python; [|apply keeps_ret].
      apply keeps_bind; [apply keeps_or_raise | intros; apply keeps_send_message; auto]. }
    intros []; simpl; [|apply keeps_ret].
    apply keeps_bind; [apply keeps_relay; auto | intros _].
    apply keeps_bind; [apply keeps_call_prediction; auto | intros response'].
    apply keeps_bind; [apply keeps_is_generating | intros []]; [apply IH | apply keeps_ret].
Qed.

Lemma keeps_relay_single (response : Response) (output : option Json) (e : nat)
    (awake : list Event) :
  keeps R (relay_single batch response output e awake).
Proof.
  revert output e. induction awake as [|event awake IH]; intros output e; simpl.
  - apply keeps_ret.
  - apply keeps_bind.
    + keeps_steps.
    + intros output'. apply keeps_bind; [apply keeps_send_message; auto | intros _; apply IH].
Qed.

Lemma keeps_handle_response (awake : list Event) (response : Response) (legs : list Leg) :
  keeps R (handle_response legacy_python events batch awake response legs).
Proof.
  unfold handle_response. destruct (has_exception response).
  - apply keeps_bind; [apply keeps_relay; auto | intros; apply keeps_ret].
  - apply keeps_bind; [apply keeps_is_generating | intros []].
    + apply keeps_bind; [apply keeps_generating_loop | intros [[r old]|]].
      * apply keeps_bind; [apply keeps_relay; auto | intros; apply keeps_ret].
      * apply keeps_ret.
    + apply keeps_bind; [apply keeps_relay_single | intros; apply keeps_ret].
Qed.

Lemma keeps_record_duration (begin_time : float) (final : option Response) :
  (forall d, ok (EUpdate d) = true) ->
  (forall d, keeps R (on_queue (update_estimation d))) ->
  keeps R (record_duration begin_time final).
Proof.
  intros ok_update keeps_update. unfold record_duration.
  destruct final as [final|]; [|apply keeps_ret].
  apply keeps_bind; [apply keeps_gets | intros end_time].
  destruct (status_ok final); [|apply keeps_ret].
  apply keeps_bind; [apply keeps_emit; auto | intros _; apply keeps_update].
Qed.

Lemma keeps_process_events_body (legs : list Leg) :
  (forall d, ok (EUpdate d) = true) ->
  (forall d, keeps R (on_queue (update_estimation d))) ->
  keeps R (process_events_body legacy_python events batch legs).
Proof.
  intros ok_update keeps_update. unfold process_events_body.
  apply keeps_bind; [apply keeps_gather_awake | intros _].
  apply keeps_bind; [apply keeps_gets | intros [|e awake]]; [apply keeps_ret|].
  apply keeps_bind; [apply keeps_gets | intros begin_time].
  apply keeps_bind; [apply keeps_call_prediction; auto | intros response].
  apply keeps_bind; [apply keeps_handle_response | intros [final|]]; simpl.
  - apply keeps_bind; [apply keeps_gets | intros end_time].
    destruct (status_ok final); [|apply keeps_ret].
    apply keeps_bind; [apply keeps_emit; auto | intros _; apply keeps_update].
  - apply keeps_ret.
Qed.

Lemma keeps_process_events_cleanup :
  (forall i, ok (ERelease i) = true) ->
  (forall jobs, keeps R (on_queue (modify (set_active_jobs jobs)))) ->
  keeps R (process_events_cleanup legacy_python events).
Proof.
  intros ok_release keeps_release. unfold process_events_cleanup, disconnect_all.
  apply keeps_bind; [apply keeps_gets | intros awake].
  apply keeps_bind.
  { apply keeps_for_each. intros event.
    apply keeps_except_Exception, keeps_disconnect. auto. }
  intros _. apply keeps_bind; [apply keeps_gets | intros jobs].
  apply keeps_bind; [apply keeps_or_raise | intros i].
  apply keeps_bind; [apply keeps_release | intros _].
  apply keeps_bind; [apply keeps_emit; auto | intros _].
  apply keeps_for_each. intros event.
  apply keeps_bind; [apply keeps_clean_event | intros _].
  apply keeps_reset_iterators. auto.
Qed.
End Keeps.

(** ** Observations on a log *)

Lemma releases_none (t : list effect) : forallb not_release t = true -> releases t = [].
Proof.
  induction t as [|e t IH]; simpl; [reflexivity|].
  intros [He Ht]%andb_prop. destruct e; try discriminate; apply IH, Ht.
Qed.

Lemma feeds_none (t : list effect) : forallb not_update t = true -> feeds t = [].
Proof.
  induction t as [|e t IH]; simpl; [reflexivity|].
  intros [He Ht]%andb_prop. destruct e; try discriminate; apply IH, Ht.
Qed.

Lemma answers_none (t : list effect) : forallb not_answer t = true -> answers t = [].
Proof.
  induction t as [|e t IH]; simpl; [reflexivity|].
  intros [He Ht]%andb_prop. destruct e; try discriminate; apply IH, Ht.
Qed.

Lemma relayed_none (t : list effect) : forallb not_relayed t = true -> relayed t = [].
Proof.
  induction t as [|e t IH]; simpl; [reflexivity|].
  intros [He Ht]%andb_prop.
  destruct e as [ev [] b| | | | | | |]; try discriminate; apply IH, Ht.
Qed.

Lemma clock_after_app (begin : float) (t1 t2 : list effect) :
  clock_after begin (t1 ++ t2) = clock_after (clock_after begin t1) t2.
Proof.
  unfold clock_after, answers. rewrite omap_app, fmap_app. apply fold_left_app.
Qed.

Lemma clock_after_quiet (begin : float) (t : list effect) :
  answers t = [] -> clock_after begin t = begin.
Proof. intros H. unfold clock_after. rewrite H. reflexivity. Qed.

(** ** The relations a run keeps *)

Lemma logs_only_refl ok s : logs_only ok s s.
Proof. exists []. split; [symmetry; apply app_nil_r | reflexivity]. Qed.

Lemma logs_only_trans ok s1 s2 s3 :
  logs_only ok s1 s2 -> logs_only ok s2 s3 -> logs_only ok s1 s3.
Proof.
  intros (t1 & E1 & H1) (t2 & E2 & H2). exists (t1 ++ t2). split.
  - rewrite E2, E1. symmetry. apply app_assoc.
  - rewrite forallb_app, H1, H2. reflexivity.
Qed.

Lemma logs_only_quiet ok s s' : trace s' = trace s -> logs_only ok s s'.
Proof. intros E. exists []. split; [rewrite E; symmetry; apply app_nil_r | reflexivity]. Qed.

(** The clock. *)
Lemma clock_refl (s : St) : clock_kept s s.
Proof. exists []. split; [symmetry; apply app_nil_r | reflexivity]. Qed.

Lemma clock_trans (s1 s2 s3 : St) :
  clock_kept s1 s2 -> clock_kept s2 s3 -> clock_kept s1 s3.
Proof.
  intros (t1 & E1 & H1) (t2 & E2 & H2). exists (t1 ++ t2). split.
  - rewrite E2, E1. symmetry. apply app_assoc.
  - rewrite clock_after_app, <- H1. exact H2.
Qed.

Lemma clock_still (s s' : St) :
  trace s' = trace s -> now (world s') = now (world s) -> clock_kept s s'.
Proof.
  intros Et Hnow. exists []. split; [rewrite Et; symmetry; apply app_nil_r | exact Hnow].
Qed.

Lemma clock_emit (e : effect) : not_answer e = true -> keeps clock_kept (emit e).
Proof.
  intros He s. exists [e]. split; [reflexivity|]. simpl.
  rewrite clock_after_quiet; [reflexivity|].
  destruct e; try discriminate; reflexivity.
Qed.

Lemma clock_await_answer (answer : option Leg) : keeps clock_kept (await_answer answer).
Proof.
  intros s. destruct answer as [[e|latency r]|]; try apply clock_refl.
  exists [EAnswer latency r]. split; reflexivity.
Qed.

Lemma clock_on_queue {A} (m : M Queue A) : keeps clock_kept (on_queue m).
Proof.
  intros s. unfold on_queue. destruct (m (queue s)) as [q' r].
  apply clock_still; reflexivity.
Qed.

Section Calm.
(** [okl]: the effects the log may grow by; [f]: the observation that
    stays; [okf]: the effects whose logging leaves [f] alone. *)
Variable okl okf : effect -> bool.
Context {X : Type} (f : St -> X).

Lemma calm_refl s : calm okl f s s.
Proof. split; [apply logs_only_refl | reflexivity]. Qed.

Lemma calm_trans s1 s2 s3 :
  calm okl f s1 s2 -> calm okl f s2 s3 -> calm okl f s1 s3.
Proof.
  intros [L1 F1] [L2 F2]. split; [eapply logs_only_trans; eassumption|].
  unfold same in *. congruence.
Qed.

Hypothesis f_emit :
  forall e s, okf e = true -> f (set_trace (trace s ++ [e]) s) = f s.
Hypothesis f_scripts :
  forall w s, now w = now (world s) -> f (set_world w s) = f s.
Hypothesis f_heap : forall h s, f (set_heap h s) = f s.
Hypothesis f_events :
  forall l s, f (set_queue (set_event_queue l (queue s)) s) = f s.

Lemma calm_emit (e : effect) : ok_both okl okf e = true -> keeps (calm okl f) (emit e).
Proof.
  intros [Hl Hf]%andb_prop s. split; simpl.
  - exists [e]. simpl. rewrite Hl. auto.
  - apply f_emit, Hf.
Qed.

Lemma calm_next_send : keeps (calm okl f) next_send.
Proof.
  intros s. split; [apply logs_only_quiet | apply f_scripts]; reflexivity.
Qed.

Lemma calm_next_recv : keeps (calm okl f) next_recv.
Proof.
  intros s. split; [apply logs_only_quiet | apply f_scripts]; reflexivity.
Qed.

Lemma calm_next_close : keeps (calm okl f) next_close.
Proof.
  intros s. split; [apply logs_only_quiet | apply f_scripts]; reflexivity.
Qed.

Lemma calm_next_reset : keeps (calm okl f) next_reset.
Proof.
  intros s. split; [apply logs_only_quiet | apply f_scripts]; reflexivity.
Qed.

Lemma calm_set_data (event : Event) (d : option PredictBody) :
  keeps (calm okl f) (set_data event d).
Proof. intros s. split; [apply logs_only_quiet; reflexivity | apply f_heap]. Qed.

Lemma calm_remove (event : Event) : keeps (calm okl f) (on_queue (event_queue_remove event)).
Proof.
  intros s. unfold on_queue, event_queue_remove. step_monad.
  destruct (py_remove event (event_queue (queue s))) as [l|]; simpl.
  - split; [apply logs_only_quiet; reflexivity | apply f_events].
  - split; [apply logs_only_quiet; reflexivity|].
    unfold same. simpl. rewrite <- (set_event_queue_id (queue s)) at 1.
    apply f_events.
Qed.

Lemma calm_await_answer (answer : option Leg) :
  (forall latency r s,
      f (set_trace (trace s ++ [EAnswer latency r])
           (set_world {| now := float_add (now (world s)) latency;
                         send_script := send_script (world s);
                         recv_script := recv_script (world s);
                         close_script := close_script (world s);
                         reset_script := reset_script (world s) |} s)) = f s) ->
  (forall latency r, okl (EAnswer latency r) = true) ->
  keeps (calm okl f) (await_answer answer).
Proof.
  intros Hf Hl s. destruct answer as [[e|latency r]|]; try apply calm_refl.
  split; simpl.
  - exists [EAnswer latency r]. simpl. rewrite Hl. auto.
  - apply Hf.
Qed.

Lemma calm_awake (g : St -> list Event) :
  (forall l s, f (set_awake_events l s) = f s) ->
  keeps (calm okl f) (modify (fun s => set_awake_events (g s) s)).
Proof. intros Hf s. split; [apply logs_only_quiet; reflexivity | apply Hf]. Qed.

Lemma calm_on_queue {A} (m : M Queue A) :
  (forall s, f (set_queue (fst (m (queue s))) s) = f s) ->
  keeps (calm okl f) (on_queue m).
Proof.
  intros Hf s. unfold on_queue. specialize (Hf s).
  destruct (m (queue s)) as [q' r].
  split; [apply logs_only_quiet; reflexivity | exact Hf].
Qed.
End Calm.

(** ** Calls that come back *)

Section Lively.
Context {S : Type}.

Lemma lively_ret {A} (a : A) : lively (@ret S A a).
Proof. intros s. discriminate. Qed.

Lemma lively_raise {A} (e : exn) : lively (@raise S A e).
Proof. intros s. discriminate. Qed.

Lemma lively_gets {A} (f : S -> A) : lively (gets f).
Proof. intros s. discriminate. Qed.

Lemma lively_modify (f : S -> S) : lively (modify f).
Proof. intros s. discriminate. Qed.

Lemma lively_or_raise {A} (e : exn) (o : option A) : lively (@or_raise S A e o).
Proof. destruct o; [apply lively_ret | apply lively_raise]. Qed.

(** The continuation only has to come back on what [m] can return. *)
Lemma lively_bind_post {A B} (m : M S A) (k : A -> M S B) :
  lively m ->
  (forall s s' a, m s = (s', Done a) -> snd (k a s') <> Hung) ->
  lively (bind m k).
Proof.
  intros Hm Hk s. unfold bind. specialize (Hm s). specialize (Hk s).
  destruct (m s) as [s1 [a| |]]; simpl in *;
    [eapply Hk; reflexivity | discriminate | contradiction].
Qed.

Lemma lively_bind {A B} (m : M S A) (k : A -> M S B) :
  lively m -> (forall a, lively (k a)) -> lively (bind m k).
Proof. intros Hm Hk. apply lively_bind_post; [exact Hm | intros; apply Hk]. Qed.

Lemma lively_for_each {A} (l : list A) (body : A -> M S unit) :
  (forall x, lively (body x)) -> lively (for_each l body).
Proof.
  intros Hbody. induction l as [|x l IH]; simpl.
  - apply lively_ret.
  - apply lively_bind; [apply Hbody | intros _; exact IH].
Qed.


Lemma lively_except_Exception (legacy_python : bool) (body : M S unit) :
  lively body -> lively (except_Exception legacy_python body).
Proof.
  intros Hb s. unfold except_Exception. specialize (Hb s).
  destruct (body s) as [s1 [[]|e|]]; simpl in *;
    [discriminate | destruct (is_Exception legacy_python e); discriminate | contradiction].
Qed.
End Lively.

Lemma lively_on_queue {A} (m : M Queue A) : lively m -> lively (on_queue m).
Proof.
  intros Hm s. unfold on_queue. specialize (Hm (queue s)).
  destruct (m (queue s)) as [q' r]. exact Hm.
Qed.

Ltac lively_steps :=
  repeat first
    [ apply lively_ret | apply lively_raise | apply lively_gets
    | apply lively_modify | apply lively_or_raise
    | apply lively_on_queue
    | apply lively_bind; [|intros ?]
    | apply lively_for_each; intros ?
    | match goal with
      | |- lively (if ?b then _ else _) => destruct b
      | |- lively (match ?x with _ => _ end) => destruct x
      end ].

Lemma lively_event_queue_remove (event : Event) : lively (event_queue_remove event).
Proof. unfold event_queue_remove. lively_steps. Qed.


Lemma lively_clean_event (event : Event) : lively (clean_event event).
Proof. unfold clean_event, event_queue_remove. lively_steps. Qed.


Lemma lively_gather_event_data (event : Event) : lively (gather_event_data event).
Proof.
  unfold gather_event_data, get_data, set_data, get_message, ws_receive_json,
    next_recv, emit.
  lively_steps.
Qed.

Lemma lively_disconnect (event : Event) : lively (disconnect event).
Proof. unfold disconnect, next_close, emit. lively_steps. Qed.

Lemma lively_reset_iterators (session : string) (fn : option Z) :
  lively (reset_iterators session fn).
Proof. unfold reset_iterators, next_reset, emit. lively_steps. Qed.





Lemma lively_cleanup (legacy_python : bool) (events : list Event) :
  lively (process_events_cleanup legacy_python events).
Proof.
  unfold process_events_cleanup, disconnect_all, emit.
  apply lively_bind; [apply lively_gets | intros awake].
  apply lively_bind.
  { apply lively_for_each. intros event.
    apply lively_except_Exception, lively_disconnect. }
  intros _. lively_steps.
Qed.

(** Discharging the side conditions of the lemmas of [Keeps] for a
    relation [calm okl f]; [tac] proves that a step leaves [f] alone. *)
Ltac calm_side tac :=
  intros;
  first
    [ apply calm_refl
    | eapply calm_trans; eassumption
    | eapply calm_emit; [| eassumption]; solve [tac]
    | apply calm_next_send; solve [tac]
    | apply calm_next_recv; solve [tac]
    | apply calm_next_close; solve [tac]
    | apply calm_next_reset; solve [tac]
    | apply calm_set_data; solve [tac]
    | apply calm_remove; solve [tac]
    | apply calm_awake; solve [tac]
    | apply calm_await_answer; solve [tac]
    | apply calm_on_queue; solve [tac]
    | reflexivity ].

(** *** What [update_estimation] does not write *)

Ltac update_cases :=
  unfold update_estimation, py_truediv, py_float; step_monad;
  repeat (match goal with |- context [if ?b then _ else _] => destruct b end; simpl).

Lemma update_estimation_frame (d : float) (q : Queue) :
  let q' := fst (update_estimation d q) in
  event_queue q' = event_queue q
  /\ active_jobs q' = active_jobs q
  /\ max_thread_count q' = max_thread_count q
  /\ stopped q' = stopped q
  /\ max_size q' = max_size q
  /\ blocks_dependencies q' = blocks_dependencies q.
Proof.
  update_cases; repeat split; reflexivity.
Qed.

(** *** The slot table *)

Lemma body_keeps_slots legacy events batch legs :
  keeps slots_kept (process_events_body legacy events batch legs).
Proof.
  apply keeps_process_events_body with (ok := ok_both not_release any_effect);
    calm_side ltac:(intros; first [reflexivity | apply update_estimation_frame]).
Qed.

Lemma disconnect_eq (event : Event) (s : St) :
  disconnect event s
  = let r := default None (head (close_script (world s))) in
    (closed event r s,
     match r with
     | Some e => Raised e
     | None => Done tt
     end).
Proof.
  unfold disconnect, next_close, emit, closed. step_monad.
  destruct (default None (head (close_script (world s)))); reflexivity.
Qed.

Lemma guarded_disconnect_eq (legacy : bool) (event : Event) (s : St) :
  except_Exception legacy (disconnect event) s
  = let r := default None (head (close_script (world s))) in
    (closed event r s, close_outcome legacy r).
Proof.
  unfold except_Exception. rewrite disconnect_eq. cbv zeta.
  destruct (default None (head (close_script (world s)))) as [e|]; simpl;
    [destruct (is_Exception legacy e)|]; reflexivity.
Qed.

(** A close leaves the [finally] block only by a [CancelledError] that
    is no [Exception]. *)
Lemma close_outcome_cases (legacy : bool) (r : option exn) :
  close_outcome legacy r = Done tt
  \/ (legacy = false /\ r = Some CancelledError
      /\ close_outcome legacy r = Raised CancelledError).
Proof.
  destruct r as [e|]; simpl; [|auto].
  destruct e; simpl; auto. destruct legacy; simpl; auto.
Qed.

Lemma close_outcome_guarded (legacy : bool) (r : option exn) :
  legacy = true \/ r <> Some CancelledError -> close_outcome legacy r = Done tt.
Proof.
  intros H. destruct (close_outcome_cases legacy r) as [E|(Hl & Hr & _)]; [exact E|].
  destruct H; congruence.
Qed.

Lemma closes_guarded_head (legacy : bool) (s : St) :
  closes_guarded legacy s ->
  legacy = true \/ default None (head (close_script (world s))) <> Some CancelledError.
Proof.
  intros [H|H]; [auto|]. right. intros E. apply H.
  destruct (close_script (world s)) as [|r l]; [discriminate|].
  simpl in E. subst r. apply elem_of_cons. auto.
Qed.

Lemma closes_guarded_closed (legacy : bool) (event : Event) (r : option exn) (s : St) :
  closes_guarded legacy s -> closes_guarded legacy (closed event r s).
Proof.
  intros [H|H]; [left; exact H|]. right. simpl. intros E. apply H.
  destruct (close_script (world s)) as [|r0 l]; [exact E|].
  apply elem_of_cons. right. exact E.
Qed.

Lemma disconnect_all_keeps_slots (legacy : bool) (awake : list Event) :
  keeps slots_kept (disconnect_all legacy awake).
Proof.
  unfold disconnect_all.
  apply keeps_for_each; try solve [calm_side idtac].
  intros event. apply keeps_except_Exception.
  apply keeps_disconnect with (ok := ok_both not_release any_effect);
    calm_side ltac:(intros; reflexivity).
Qed.

(** The first loop of the [finally] block comes to its end, or the
    task is cancelled at one of its closes. *)
Lemma disconnect_all_cons (legacy : bool) (event : Event) (awake : list Event) (s : St) :
  disconnect_all legacy (event :: awake) s
  = let r := default None (head (close_script (world s))) in
    match close_outcome legacy r with
    | Done _ => disconnect_all legacy awake (closed event r s)
    | Raised e => (closed event r s, Raised e)
    | Hung => (closed event r s, Hung)
    end.
Proof.
  unfold disconnect_all. simpl. unfold bind. rewrite guarded_disconnect_eq. reflexivity.
Qed.

Lemma disconnect_all_outcome (legacy : bool) (awake : list Event) (s : St) :
  snd (disconnect_all legacy awake s) = Done tt
  \/ (legacy = false /\ snd (disconnect_all legacy awake s) = Raised CancelledError).
Proof.
  revert s. induction awake as [|event awake IH]; intros s; [left; reflexivity|].
  rewrite disconnect_all_cons. cbv zeta.
  destruct (close_outcome_cases legacy (default None (head (close_script (world s)))))
    as [E|(Hl & _ & E)]; rewrite E; [apply IH | right; auto].
Qed.

Lemma disconnect_all_done (legacy : bool) (awake : list Event) (s : St) :
  closes_guarded legacy s -> snd (disconnect_all legacy awake s) = Done tt.
Proof.
  revert s. induction awake as [|event awake IH]; intros s Hg; [reflexivity|].
  rewrite disconnect_all_cons. cbv zeta.
  rewrite (close_outcome_guarded _ _ (closes_guarded_head _ _ Hg)).
  apply IH, closes_guarded_closed, Hg.
Qed.

Lemma reset_all_keeps_slots (awake : list Event) :
  keeps slots_kept
    (for_each awake (fun event =>
       clean_event event ;; reset_iterators (session_hash event) (fn_index event))).
Proof.
  apply keeps_for_each; try solve [calm_side idtac].
  intros event. apply keeps_bind; try solve [calm_side idtac].
  - apply keeps_clean_event; calm_side ltac:(intros; reflexivity).
  - intros _.
    apply keeps_reset_iterators with (ok := ok_both not_release any_effect);
      calm_side ltac:(intros; reflexivity).
Qed.

(** How a sequence ended. *)
Lemma bind_inv {S A B} (m : M S A) (k : A -> M S B) (s s' : S) (r : outcome B) :
  bind m k s = (s', r) ->
  (exists s1 a, m s = (s1, Done a) /\ k a s1 = (s', r))
  \/ (exists e, m s = (s', Raised e) /\ r = Raised e)
  \/ (m s = (s', Hung) /\ r = Hung).
Proof.
  unfold bind. destruct (m s) as [s1 [a|e|]]; intros H.
  - left. eauto.
  - injection H as <- <-. right. left. eauto.
  - injection H as <- <-. right. right. auto.
Qed.

Lemma bind_done {S A B} (m : M S A) (k : A -> M S B) (s s1 : S) (a : A) :
  m s = (s1, Done a) -> bind m k s = k a s1.
Proof. unfold bind. intros ->. reflexivity. Qed.

(** The [finally] block frees the first cell that holds the batch, and
    writes the table only there, unless the task is cancelled at a
    close: then it writes nothing. *)
Lemma cleanup_releases (legacy : bool) (events : list Event) (i : nat) (s s' : St)
    (r : outcome unit) :
  py_index (Some events) (active_jobs (queue s)) = Some i ->
  process_events_cleanup legacy events s = (s', r) ->
  r <> Hung
  /\ ((active_jobs (queue s') = <[i := None]> (active_jobs (queue s))
       /\ exists t, trace s' = trace s ++ t /\ releases t = [i])
      \/ (legacy = false /\ r = Raised CancelledError
          /\ active_jobs (queue s') = active_jobs (queue s)
          /\ exists t, trace s' = trace s ++ t /\ releases t = []))
  /\ (closes_guarded legacy s ->
      active_jobs (queue s') = <[i := None]> (active_jobs (queue s))
      /\ exists t, trace s' = trace s ++ t /\ releases t = [i]).
Proof.
  intros Hidx Hrun.
  split; [pose proof (lively_cleanup legacy events s) as L; rewrite Hrun in L; exact L|].
  revert Hrun. unfold process_events_cleanup.
  unfold bind at 1. simpl.
  pose proof (disconnect_all_outcome legacy (awake_events s) s) as Hout.
  pose proof (disconnect_all_done legacy (awake_events s) s) as Hdone.
  pose proof (disconnect_all_keeps_slots legacy (awake_events s) s)
    as [(t1 & Et1 & Ht1) Hjobs].
  destruct (disconnect_all legacy (awake_events s) s) as [s1 r1] eqn:Edisc.
  simpl in Hout, Hdone, Et1, Hjobs. unfold same in Hjobs.
  assert (Hfreed :
            (jobs <- gets (fun s => active_jobs (queue s)) ;;
             i <- or_raise ValueError (py_index (Some events) jobs) ;;
             on_queue (modify (set_active_jobs (<[i := None]> jobs))) ;;
             emit (ERelease i) ;;
             for_each (awake_events s) (fun event =>
               clean_event event ;;
               reset_iterators (session_hash event) (fn_index event))) s1 = (s', r) ->
            active_jobs (queue s') = <[i := None]> (active_jobs (queue s))
            /\ exists t, trace s' = trace s ++ t /\ releases t = [i]).
  { unfold bind at 1. simpl. rewrite Hjobs, Hidx.
    unfold bind at 1. simpl. unfold bind at 1. simpl. unfold bind at 1. simpl.
    set (s2 := set_trace (trace s1 ++ [ERelease i])
                 (set_queue (set_active_jobs (<[i:=None]> (active_jobs (queue s)))
                                             (queue s1)) s1)).
    intros Hrest.
    pose proof (reset_all_keeps_slots (awake_events s) s2) as [(t3 & Et3 & Ht3) Hjobs3].
    rewrite Hrest in Et3, Hjobs3. unfold same in Hjobs3. simpl in Et3, Hjobs3.
    split; [exact Hjobs3|].
    exists (t1 ++ [ERelease i] ++ t3). split.
    - rewrite Et3, Et1. rewrite <- !app_assoc. reflexivity.
    - unfold releases. rewrite !omap_app. fold (releases t1). fold (releases t3).
      rewrite (releases_none _ Ht1), (releases_none _ Ht3). reflexivity. }
  unfold bind at 1. rewrite Edisc.
  destruct Hout as [-> | [Hl ->]].
  - intros Hrest. split; [left|intros _]; apply Hfreed, Hrest.
  - intros [= <- <-]. split.
    + right. split; [exact Hl|]. split; [reflexivity|]. split; [exact Hjobs|].
      exists t1. split; [exact Et1 | apply releases_none, Ht1].
    + intros Hg. specialize (Hdone Hg). discriminate.
Qed.

Lemma bind_inv_done {S A B} (m : M S A) (k : A -> M S B) (s s' : S) (b : B) :
  bind m k s = (s', Done b) ->
  exists s1 a, m s = (s1, Done a) /\ k a s1 = (s', Done b).
Proof.
  intros H. apply bind_inv in H as [H | [(e & _ & H) | [_ H]]];
    [exact H | discriminate | discriminate].
Qed.


Lemma is_generating_done response s s' b :
  is_generating response s = (s', Done b) ->
  exists j, json response = Some j /\ j_is_generating j = b /\ s' = s.
Proof.
  unfold is_generating. destruct (json response) as [j|]; step_monad; [|discriminate].
  intros [= <- <-]. eauto.
Qed.


Section Liveness.
Variable legacy_python : bool.
Variable events : list Event.
Variable batch : bool.





End Liveness.

(** ** Dispatch and release *)

Lemma for_each_remove_frame (picks : list Event) (q : Queue) :
  exists l, fst (for_each picks event_queue_remove q) = set_event_queue l q.
Proof.
  revert q. induction picks as [|x picks IH]; intros q; simpl.
  - exists (event_queue q). symmetry. apply set_event_queue_id.
  - unfold bind, event_queue_remove at 1. step_monad.
    destruct (py_remove x (event_queue q)) as [l1|]; simpl.
    + destruct (IH (set_event_queue l1 q)) as [l Hl].
      destruct (for_each picks event_queue_remove (set_event_queue l1 q)) as [q' [[]| |]];
        simpl in *; exists l; exact Hl.
    + exists (event_queue q). symmetry. apply set_event_queue_id.
Qed.

(** Batch formation writes the queue of events and nothing else. *)
Lemma get_events_in_batch_frame (q : Queue) :
  exists l, fst (get_events_in_batch q) = set_event_queue l q.
Proof.
  unfold get_events_in_batch. step_monad.
  destruct (event_queue q) as [|front rest] eqn:Hq; simpl.
  { exists []. rewrite <- Hq. symmetry. apply set_event_queue_id. }
  destruct (fn_index front) as [i|]; simpl; [|exists rest; reflexivity].
  destruct (py_getitem (blocks_dependencies q) i) as [dep|]; simpl;
    [|exists rest; reflexivity].
  destruct (dep_batch dep); simpl; [|exists rest; reflexivity].
  match goal with
  | |- context [for_each ?picks event_queue_remove ?q0] =>
      destruct (for_each_remove_frame picks q0) as [l Hl];
      destruct (for_each picks event_queue_remove q0) as [q' [[]| |]]
  end; simpl in *; exists l; exact Hl.
Qed.

Section Index.
Context {A : Type} `{EqDecision A}.

Lemma py_index_lookup (x : A) (l : list A) (i : nat) :
  py_index x l = Some i -> l !! i = Some x.
Proof.
  revert i. induction l as [|y l IH]; intros i; simpl; [discriminate|].
  destruct (decide (y = x)) as [->|_].
  - intros [= <-]. reflexivity.
  - destruct (py_index x l) as [j|]; simpl; [|discriminate].
    intros [= <-]. simpl. apply IH. reflexivity.
Qed.

Lemma py_index_first (x : A) (l : list A) (i j : nat) :
  py_index x l = Some i -> (j < i)%nat -> l !! j <> Some x.
Proof.
  revert i j. induction l as [|y l IH]; intros i j; simpl; [discriminate|].
  destruct (decide (y = x)) as [->|Hne].
  - intros [= <-]. lia.
  - destruct (py_index x l) as [i'|]; simpl; [|discriminate].
    intros [= <-] Hlt. destruct j as [|j]; simpl; [congruence|].
    eapply IH; [reflexivity | lia].
Qed.

End Index.

(** A turn of the dispatcher that launches a batch has stored it in the
    first free cell, and has written no other cell. *)
Lemma start_processing_step_launch (q q1 : Queue) (events : list Event) (batch : bool) :
  start_processing_step q = (q1, Done (Launch events batch)) ->
  exists i,
    py_index None (active_jobs q) = Some i
    /\ active_jobs q1 = <[i := Some events]> (active_jobs q).
Proof.
  unfold start_processing_step. step_monad.
  destruct (stopped q); [discriminate|].
  destruct (event_queue q) as [|front rest] eqn:Hq; [discriminate|].
  destruct (negb (py_in None (active_jobs q))); [discriminate|].
  destruct (get_events_in_batch_frame q) as [l Hl].
  destruct (get_events_in_batch q) as [q' [[[[|e es]|] b]|e|]]; simpl in *;
    try discriminate.
  subst q'. simpl.
  destruct (py_index None (active_jobs q)) as [i|]; simpl; [|discriminate].
  intros [= <- <- <-]. exists i. split; reflexivity.
Qed.

(** The [try] block closes no connection: the close script is as it
    was. *)
Lemma body_keeps_close_script legacy events batch legs :
  keeps (fun s s' => close_script (world s') = close_script (world s))
    (process_events_body legacy events batch legs).
Proof.
  apply keeps_process_events_body with (ok := any_effect);
    try solve [intros; reflexivity | intros; intros ?; reflexivity].
  - intros s1 s2 s3 H1 H2. congruence.
  - intros event s. unfold on_queue.
    destruct (event_queue_remove event (queue s)). reflexivity.
  - intros [[e|latency r]|] s; reflexivity.
  - intros d s. unfold on_queue. destruct (update_estimation d (queue s)). reflexivity.
Qed.


(** ** The estimator and the processing of a batch *)

Lemma latency_of_quiet (begin : float) (t1 t2 : list effect) :
  answers t2 = [] -> latency_of begin (t1 ++ t2) = latency_of begin t1.
Proof.
  intros H. unfold latency_of. rewrite clock_after_app, (clock_after_quiet _ t2 H).
  reflexivity.
Qed.

Ltac estimator_side :=
  calm_side ltac:(intros; first [reflexivity
                         | unfold estimator, estimation; simpl;
                           repeat f_equal; apply update_estimation_frame]).

Ltac hushed_side :=
  calm_side ltac:(intros; first [reflexivity | assumption | simpl; congruence]).

Ltac clock_side :=
  intros;
  first
    [ apply clock_refl
    | eapply clock_trans; eassumption
    | apply clock_emit; assumption
    | apply clock_await_answer
    | apply clock_on_queue
    | intros ?; apply clock_still; reflexivity
    | reflexivity ].

Section Cycle.
Variable legacy_python : bool.
Variable events : list Event.
Variable batch : bool.

Lemma gather_keeps_estimator : keeps estimator_kept (gather_awake events).
Proof.
  apply keeps_gather_awake with (ok := ok_both not_update any_effect); estimator_side.
Qed.

Lemma gather_hushed : keeps hushed (gather_awake events).
Proof.
  apply keeps_gather_awake with (ok := ok_both not_answer any_effect); hushed_side.
Qed.

Lemma call_keeps_estimator awake answer :
  keeps estimator_kept (call_prediction awake batch answer).
Proof.
  apply keeps_call_prediction with (ok := ok_both not_update any_effect); estimator_side.
Qed.

Lemma call_keeps_clock awake answer :
  keeps clock_kept (call_prediction awake batch answer).
Proof.
  apply keeps_call_prediction with (ok := not_answer); clock_side.
Qed.

Lemma handle_keeps_estimator awake response legs :
  keeps estimator_kept (handle_response legacy_python events batch awake response legs).
Proof.
  apply keeps_handle_response with (ok := ok_both not_update any_effect); estimator_side.
Qed.

Lemma handle_keeps_clock awake response legs :
  keeps clock_kept (handle_response legacy_python events batch awake response legs).
Proof.
  apply keeps_handle_response with (ok := not_answer); clock_side.
Qed.

Lemma cleanup_keeps_estimator : keeps estimator_kept (process_events_cleanup legacy_python events).
Proof.
  apply keeps_process_events_cleanup with (ok := ok_both not_update any_effect);
    estimator_side.
Qed.

Lemma cleanup_hushed : keeps hushed (process_events_cleanup legacy_python events).
Proof.
  apply keeps_process_events_cleanup with (ok := ok_both not_answer any_effect);
    hushed_side.
Qed.
End Cycle.

Lemma keeps_run (R : St -> St -> Prop) {A} (m : M St A) (s s' : St) (r : outcome A) :
  keeps R m -> m s = (s', r) -> R s s'.
Proof. intros Hm E. specialize (Hm s). rewrite E in Hm. exact Hm. Qed.

Lemma hushed_answers (s s' : St) :
  hushed s s' ->
  exists t, trace s' = trace s ++ t /\ answers t = [] /\ now (world s') = now (world s).
Proof.
  intros [(t & Et & Ht) Hnow]. exists t. split; [exact Et|].
  split; [apply answers_none, Ht | exact Hnow].
Qed.

Lemma last_app_cons {A} (l1 l2 : list A) (x : A) :
  last l2 = Some x -> last (l1 ++ l2) = Some x.
Proof.
  intros H. destruct l2 as [|y l2]; [discriminate|].
  rewrite last_app. rewrite H. reflexivity.
Qed.

Section Answers.
Variable legacy_python : bool.
Variable events : list Event.
Variable batch : bool.

Lemma request_hushed awake : keeps hushed (request_body awake batch).
Proof. apply keeps_request_body; hushed_side. Qed.

Lemma relay_hushed awake data : keeps hushed (relay awake data).
Proof. apply keeps_relay with (ok := ok_both not_answer any_effect); hushed_side. Qed.

Lemma ping_hushed (event : option Event) :
  keeps hushed (if legacy_python
                then target <- or_raise UnboundLocalError event ;; send_message target MsgAlive
                else ret true).
Proof.
  destruct legacy_python; [|apply keeps_ret; hushed_side].
  apply keeps_bind; try solve [hushed_side].
  - apply keeps_or_raise; hushed_side.
  - intros target.
    apply keeps_send_message with (ok := ok_both not_answer any_effect); hushed_side.
Qed.

Lemma relay_single_hushed response output e awake :
  keeps hushed (relay_single batch response output e awake).
Proof.
  apply keeps_relay_single with (ok := ok_both not_answer any_effect); hushed_side.
Qed.

(** A prediction call that returns has logged one answer, the one it
    returns. *)
Lemma call_prediction_answer awake answer s s' r :
  call_prediction awake batch answer s = (s', Done r) ->
  exists latency t,
    answer = Some (LReturn latency r)
    /\ trace s' = trace s ++ t
    /\ answers t = [(latency, r)].
Proof.
  unfold call_prediction. intros H.
  apply bind_inv_done in H as (s1 & request & Hreq & H).
  apply (keeps_run _ _ _ _ _ (request_hushed awake)) in Hreq.
  apply hushed_answers in Hreq as (t1 & Et1 & Ht1 & _).
  revert H. unfold time, emit. step_monad.
  destruct answer as [[e|latency r']|]; simpl; try discriminate.
  step_monad. intros [= <- <-].
  exists latency, (t1 ++ [EPredict (fst request) (snd request) (now (world s1));
                          EAnswer latency r']).
  split; [reflexivity|]. split.
  - simpl. rewrite Et1. rewrite <- !app_assoc. reflexivity.
  - unfold answers in *. rewrite omap_app, Ht1. reflexivity.
Qed.

(** The streaming loop ends on the last answer it received. *)
Lemma generating_loop_last awake legs :
  forall response event s s' final old,
    generating_loop legacy_python batch awake legs response event s
      = (s', Done (Some (final, old))) ->
    exists t latency,
      trace s' = trace s ++ t /\ last (answers t) = Some (latency, final).
Proof.
  induction legs as [|leg legs IH]; intros response event s s' final old H; simpl in H.
  - apply bind_inv_done in H as (s1 & is_alive & _ & H).
    destruct is_alive; simpl in H; [|discriminate].
    apply bind_inv_done in H as (s2 & ? & _ & H).
    apply bind_inv_done in H as (s3 & ? & _ & H). discriminate.
  - apply bind_inv_done in H as (s1 & is_alive & Hping & H).
    destruct is_alive; simpl in H; [|discriminate].
    apply bind_inv_done in H as (s2 & [] & Hrelay & H).
    apply bind_inv_done in H as (s3 & response' & Hcall & H).
    apply bind_inv_done in H as (s4 & more & Hmore & H).
    apply (keeps_run _ _ _ _ _ (ping_hushed event)) in Hping.
    apply hushed_answers in Hping as (t1 & Et1 & Ht1 & _).
    apply (keeps_run _ _ _ _ _ (relay_hushed _ _)) in Hrelay.
    apply hushed_answers in Hrelay as (t2 & Et2 & Ht2 & _).
    apply call_prediction_answer in Hcall as (latency & t3 & _ & Et3 & Ht3).
    apply is_generating_done in Hmore as (j & _ & _ & ->).
    destruct more.
    + apply IH in H as (t4 & latency' & Et4 & Ht4).
      exists (t1 ++ t2 ++ t3 ++ t4), latency'. split.
      * rewrite Et4, Et3, Et2, Et1. rewrite <- !app_assoc. reflexivity.
      * unfold answers in *. rewrite !omap_app.
        rewrite !app_assoc. apply last_app_cons. exact Ht4.
    + injection H as <- <- <-.
      exists (t1 ++ t2 ++ t3), latency. split.
      * rewrite Et3, Et2, Et1. rewrite <- !app_assoc. reflexivity.
      * unfold answers in *. rewrite !omap_app, Ht1, Ht2, Ht3. reflexivity.
Qed.

(** The response a cycle ends on is the one the first call returned
    when no further call was made, and the last answer otherwise. *)
Lemma handle_response_last awake response legs s s' final :
  handle_response legacy_python events batch awake response legs s
    = (s', Done (Some final)) ->
  exists t,
    trace s' = trace s ++ t
    /\ ((answers t = [] /\ final = response)
        \/ exists latency, last (answers t) = Some (latency, final)).
Proof.
  unfold handle_response. destruct (has_exception response).
  - intros H. apply bind_inv_done in H as (s1 & [] & Hrelay & H).
    injection H as <- <-.
    apply (keeps_run _ _ _ _ _ (relay_hushed _ _)) in Hrelay.
    apply hushed_answers in Hrelay as (t & Et & Ht & _). eauto.
  - intros H. apply bind_inv_done in H as (s1 & more & Hmore & H).
    apply is_generating_done in Hmore as (j & _ & _ & ->).
    destruct more.
    + apply bind_inv_done in H as (s2 & [[final' old]|] & Hloop & H); [|discriminate].
      apply bind_inv_done in H as (s3 & [] & Hrelay & H).
      injection H as <- <-.
      apply generating_loop_last in Hloop as (t1 & latency & Et1 & Ht1).
      apply (keeps_run _ _ _ _ _ (relay_hushed _ _)) in Hrelay.
      apply hushed_answers in Hrelay as (t2 & Et2 & Ht2 & _).
      exists (t1 ++ t2). split; [rewrite Et2, Et1; symmetry; apply app_assoc|].
      right. exists latency. unfold answers in *.
      rewrite omap_app, Ht2, app_nil_r. exact Ht1.
    + apply bind_inv_done in H as (s2 & [] & Hrelay & H).
      injection H as <- <-.
      apply (keeps_run _ _ _ _ _ (relay_single_hushed _ _ _ _)) in Hrelay.
      apply hushed_answers in Hrelay as (t & Et & Ht & _). eauto.
Qed.
End Answers.

Lemma logs_only_ext ok s s' t :
  logs_only ok s s' -> trace s' = trace s ++ t -> forallb ok t = true.
Proof.
  intros (t' & E' & H') E. rewrite E' in E. apply app_inv_head in E. subst t'. exact H'.
Qed.

Lemma update_estimation_congr (d : float) (q1 q2 : Queue) :
  estimation q1 = estimation q2 ->
  max_thread_count q1 = max_thread_count q2 ->
  estimation (fst (update_estimation d q1)) = estimation (fst (update_estimation d q2)).
Proof.
  unfold estimation. destruct q1, q2. simpl. intros [= -> -> -> ->] ->.
  update_cases; reflexivity.
Qed.

Lemma estimator_kept_not_fed (s s' : St) :
  estimator_kept s s' ->
  exists t, trace s' = trace s ++ t /\ feeds t = []
            /\ estimator s' = estimator s.
Proof.
  intros [(t & Et & Ht) Hsame]. exists t.
  split; [exact Et|]. split; [apply feeds_none, Ht | exact Hsame].
Qed.

Lemma not_fed (s s' : St) :
  estimator_kept s s' -> exists t, trace s' = trace s ++ t /\ fed_or_not s s' t.
Proof.
  intros H. apply estimator_kept_not_fed in H as (t & Et & Ht & Hsame).
  exists t. split; [exact Et|]. left. split; [exact Ht|].
  unfold estimator in Hsame. congruence.
Qed.

Lemma fed_or_not_then (s s1 s2 : St) (t1 : list effect) :
  trace s1 = trace s ++ t1 ->
  fed_or_not s s1 t1 ->
  estimator_kept s1 s2 ->
  hushed s1 s2 ->
  exists t, trace s2 = trace s ++ t /\ fed_or_not s s2 t.
Proof.
  intros Et1 Hfed Hkept Hhush.
  apply estimator_kept_not_fed in Hkept as (t2 & Et2 & Hf2 & Hsame).
  pose proof (logs_only_ext _ _ _ _ (proj1 Hhush) Et2) as Hna.
  apply answers_none in Hna.
  assert (Hest : estimation (queue s2) = estimation (queue s1))
    by (unfold estimator in Hsame; congruence).
  exists (t1 ++ t2). split; [rewrite Et2, Et1; symmetry; apply app_assoc|].
  destruct Hfed as [[Hf1 He1] | (d & latency & final & Hf1 & Hlast & Hst & Hd & He1)].
  - left. split; [|congruence].
    unfold feeds in *. rewrite omap_app, Hf1, Hf2. reflexivity.
  - right. exists d, latency, final.
    split; [unfold feeds in *; rewrite omap_app, Hf1, Hf2; reflexivity|].
    split; [unfold answers in *; rewrite omap_app, Hna, app_nil_r; exact Hlast|].
    split; [exact Hst|].
    split; [|congruence].
    rewrite latency_of_quiet; [exact Hd | exact Hna].
Qed.

Section Feeding.
Variable legacy_python : bool.
Variable events : list Event.
Variable batch : bool.

Lemma body_fed_or_not (legs : list Leg) (s s1 : St) (rb : outcome unit) :
  process_events_body legacy_python events batch legs s = (s1, rb) ->
  estimator_kept s s1 \/
  exists d latency final t,
    trace s1 = trace s ++ t
    /\ feeds t = [d]
    /\ last (answers t) = Some (latency, final)
    /\ status final = Some 200
    /\ d = latency_of (now (world s)) t
    /\ estimation (queue s1) = estimation (fst (update_estimation d (queue s)))
    /\ max_thread_count (queue s1) = max_thread_count (queue s).
Proof.
  unfold process_events_body. intros H.
  apply bind_inv in H as [(sg & [] & Hg & H) | [(e & Hg & ->) | [Hg ->]]];
    try (left; eapply keeps_run; [apply gather_keeps_estimator | eassumption]).
  pose proof (keeps_run _ _ _ _ _ (gather_keeps_estimator events) Hg) as Kg.
  pose proof (keeps_run _ _ _ _ _ (gather_hushed events) Hg) as Ug.
  unfold bind at 1 in H. simpl in H.
  destruct (awake_events sg) as [|e awake].
  { injection H as <- <-. left. exact Kg. }
  unfold bind at 1 in H. simpl in H.
  apply bind_inv in H as [(sc & response & Hc & H) | [(e' & Hc & ->) | [Hc ->]]];
    try (left; eapply calm_trans; [exact Kg|];
         eapply keeps_run; [apply call_keeps_estimator | eassumption]).
  pose proof (keeps_run _ _ _ _ _ (call_keeps_estimator batch _ _) Hc) as Kc.
  pose proof (keeps_run _ _ _ _ _ (call_keeps_clock batch _ _) Hc) as Cc.
  assert (Kgc : estimator_kept s sc) by (eapply calm_trans; eassumption).
  apply bind_inv in H as [(sh & final & Hh & H) | [(e' & Hh & ->) | [Hh ->]]];
    try (left; eapply calm_trans; [exact Kgc|];
         eapply keeps_run; [apply handle_keeps_estimator | eassumption]).
  pose proof (keeps_run _ _ _ _ _
                (handle_keeps_estimator legacy_python events batch _ _ _) Hh) as Kh.
  pose proof (keeps_run _ _ _ _ _
                (handle_keeps_clock legacy_python events batch _ _ _) Hh) as Ch.
  assert (Kgh : estimator_kept s sh) by (eapply calm_trans; eassumption).
  destruct final as [final|]; simpl in H; [|injection H as <- <-; left; exact Kgh].
  unfold bind at 1 in H. simpl in H.
  destruct (status_ok final) eqn:Hok; [|injection H as <- <-; left; exact Kgh].
  right.
  apply hushed_answers in Ug as (tg & Etg & Hag & Hnow).
  apply call_prediction_answer in Hc as (latency & tc & _ & Etc & Hac).
  apply handle_response_last in Hh as (th & Eth & Hah).
  set (d := float_sub (now (world sh)) (now (world sg))) in *.
  assert (Htrace : trace sh = trace s ++ tg ++ tc ++ th).
  { rewrite Eth, Etc, Etg. rewrite <- !app_assoc. reflexivity. }
  assert (Hd : d = latency_of (now (world s)) (tg ++ tc ++ th)).
  { destruct Cc as (tc' & Etc' & Cc), Ch as (th' & Eth' & Ch).
    rewrite Etc in Etc'. apply app_inv_head in Etc'. subst tc'.
    rewrite Eth in Eth'. apply app_inv_head in Eth'. subst th'.
    unfold latency_of. rewrite !clock_after_app, (clock_after_quiet _ tg Hag).
    subst d. rewrite Ch, Cc, Hnow. reflexivity. }
  assert (Hfeeds : feeds (tg ++ tc ++ th) = []).
  { apply feeds_none. eapply logs_only_ext; [exact (proj1 Kgh) | exact Htrace]. }
  assert (Hlast : exists latency', last (answers (tg ++ tc ++ th)) = Some (latency', final)).
  { unfold answers in *. rewrite !omap_app, Hag, Hac. simpl.
    destruct Hah as [[-> ->] | [latency' Hl]]; [exists latency; reflexivity|].
    exists latency'. change (?x :: ?l) with ([x] ++ l). apply last_app_cons, Hl. }
  destruct Hlast as [latency' Hlast].
  revert H. unfold bind, emit, modify, on_queue. simpl.
  destruct (update_estimation d (queue sh)) as [q' ru] eqn:Eu. intros [= <- <-].
  exists d, latency', final, ((tg ++ tc ++ th) ++ [EUpdate d]).
  split; [simpl; rewrite Htrace; rewrite <- !app_assoc; reflexivity|].
  split; [unfold feeds in *; rewrite omap_app, Hfeeds; reflexivity|].
  split; [unfold answers in *; rewrite omap_app; simpl; rewrite app_nil_r; exact Hlast|].
  split; [apply bool_decide_eq_true in Hok; exact Hok|].
  split; [rewrite latency_of_quiet by reflexivity; exact Hd|].
  destruct Kgh as [_ Kgh]. unfold same, estimator in Kgh.
  assert (He : estimation (queue sh) = estimation (queue s)) by congruence.
  assert (Hl : max_thread_count (queue sh) = max_thread_count (queue s)) by congruence.
  simpl. split.
  - replace q' with (fst (update_estimation d (queue sh))) by (rewrite Eu; reflexivity).
    apply update_estimation_congr; assumption.
  - replace q' with (fst (update_estimation d (queue sh))) by (rewrite Eu; reflexivity).
    rewrite <- Hl. apply update_estimation_frame.
Qed.
End Feeding.

Lemma queue_rewritten (q : Queue) :
  q = set_active_jobs (active_jobs q) (set_event_queue (event_queue q) q).
Proof. destruct q; reflexivity. Qed.

Lemma start_processing_step_frame (q : Queue) :
  exists l jobs, fst (start_processing_step q) = set_active_jobs jobs (set_event_queue l q).
Proof.
  unfold start_processing_step. step_monad.
  destruct (stopped q);
    [exists (event_queue q), (active_jobs q); apply queue_rewritten|].
  destruct (event_queue q) as [|front rest] eqn:Hq;
    [exists (event_queue q), (active_jobs q); apply queue_rewritten|].
  destruct (negb (py_in None (active_jobs q)));
    [exists (event_queue q), (active_jobs q); apply queue_rewritten|].
  destruct (get_events_in_batch_frame q) as [l Hl].
  assert (Hkeep : set_event_queue l q
                  = set_active_jobs (active_jobs q) (set_event_queue l q))
    by reflexivity.
  destruct (get_events_in_batch q) as [q' [[[[|e es]|] b]|e|]]; simpl in *; subst q';
    try (exists l, (active_jobs q); exact Hkeep).
  simpl. destruct (py_index None (active_jobs q)) as [i|]; simpl.
  - exists l, (<[i:=Some (e :: es)]> (active_jobs q)). reflexivity.
  - exists l, (active_jobs q). exact Hkeep.
Qed.

(** Claim C5, amended. The estimation state is written only by a
    [process_events] call whose last prediction answer has status 200,
    and then by one [update_estimation] call, so that it accumulates
    and is never reset; the duration fed is the time that all the
    answered prediction calls of the cycle took together (for a
    streaming cycle every leg, not only the last one), as the clock
    measures it: its reading after all these answers minus its reading
    before the first call; a cycle that ends otherwise, and every other
    method of the queue, leaves the estimation state as it was. *)
Theorem estimation_fed_by_ok_cycle :
  (forall legacy_python events batch legs (s s' : St) (r : outcome unit),
     process_events legacy_python events batch legs s = (s', r) ->
     exists t,
       trace s' = trace s ++ t
       /\ ((feeds t = [] /\ estimation (queue s') = estimation (queue s))
           \/ exists d latency final,
                feeds t = [d]
                /\ last (answers t) = Some (latency, final)
                /\ status final = Some 200
                /\ d = latency_of (now (world s)) t
                /\ estimation (queue s')
                   = estimation (fst (update_estimation d (queue s)))))
  /\ (forall event q, estimation (fst (push event q)) = estimation q)
  /\ (forall q, estimation (fst (get_events_in_batch q)) = estimation q)
  /\ (forall q, estimation (fst (start_processing_step q)) = estimation q)
  /\ (forall q, estimation (fst (close q)) = estimation q)
  /\ (forall q, estimation (fst (resume q)) = estimation q)
  /\ (forall s, estimation (queue (fst (broadcast_estimations s))) = estimation (queue s)).
Proof.
  split; [|split; [|split; [|split; [|split; [|split]]]]].
  - intros legacy_python events batch legs s s' r H.
    change (exists t, trace s' = trace s ++ t /\ fed_or_not s s' t).
    unfold process_events in H. unfold bind at 1 in H. simpl in H.
    unfold try_finally in H.
    destruct (process_events_body legacy_python events batch legs
                (set_awake_events [] s)) as [s1 rb] eqn:Eb.
    apply body_fed_or_not in Eb.
    assert (Hbody : exists t1, trace s1 = trace s ++ t1 /\ fed_or_not s s1 t1).
    { destruct Eb as [K | (d & latency & final & t & Et & Hf & Hl & Hst & Hd & He & _)].
      - apply not_fed in K. exact K.
      - exists t. split; [exact Et|]. right. exists d, latency, final. auto. }
    destruct Hbody as (t1 & Et1 & Hfed).
    assert (Hclean : forall s2 rc, process_events_cleanup legacy_python events s1 = (s2, rc) ->
              exists t, trace s2 = trace s ++ t /\ fed_or_not s s2 t).
    { intros s2 rc Ec. eapply fed_or_not_then; [exact Et1 | exact Hfed | |].
      - eapply keeps_run; [apply cleanup_keeps_estimator | exact Ec].
      - eapply keeps_run; [apply cleanup_hushed | exact Ec]. }
    destruct rb as [[]|e|].
    + destruct (process_events_cleanup legacy_python events s1) as [s2 rc] eqn:Ec.
      specialize (Hclean s2 rc eq_refl).
      destruct rc as [[]|e|]; injection H as <- <-; exact Hclean.
    + destruct (process_events_cleanup legacy_python events s1) as [s2 rc] eqn:Ec.
      specialize (Hclean s2 rc eq_refl).
      destruct rc as [[]|e'|]; injection H as <- <-; exact Hclean.
    + injection H as <- <-. eauto.
  - intros event q. unfold push. step_monad.
    destruct (max_size q) as [m|]; [destruct (bool_decide _)|]; reflexivity.
  - intros q. destruct (get_events_in_batch_frame q) as [l ->]. reflexivity.
  - intros q. destruct (start_processing_step_frame q) as (l & jobs & ->). reflexivity.
  - reflexivity.
  - reflexivity.
  - intros s.
    assert (K : keeps estimator_kept broadcast_estimations)
      by (apply keeps_broadcast_estimations with (ok := ok_both not_update any_effect);
          estimator_side).
    destruct (K s) as [_ Hsame]. unfold same, estimator in Hsame. congruence.
Qed.

(** ** Relaying a streamed prediction *)

Ltac unsent_side := calm_side ltac:(intros; first [reflexivity | assumption]).

Lemma unsent_relayed (s s' : St) :
  unsent s s' ->
  exists t, trace s' = trace s ++ t /\ relayed t = []
            /\ awake_events s' = awake_events s.
Proof.
  intros [(t & Et & Ht) Hsame]. exists t. split; [exact Et|].
  split; [apply relayed_none, Ht | exact Hsame].
Qed.

Lemma trace_split (s s1 s' : St) (t t1 t2 : list effect) :
  trace s1 = trace s ++ t1 -> trace s' = trace s1 ++ t2 -> trace s' = trace s ++ t ->
  t = t1 ++ t2.
Proof.
  intros E1 E2 E. rewrite E2, E1, <- app_assoc in E. apply app_inv_head in E. auto.
Qed.

Lemma py_remove_elem {A} `{EqDecision A} (x : A) (l : list A) :
  x ∈ l -> is_Some (py_remove x l).
Proof.
  induction l as [|y l IH]; intros Hin; [inversion Hin|].
  simpl. destruct (decide (y = x)); [eauto|].
  apply elem_of_cons in Hin as [->|Hin]; [congruence|].
  destruct (IH Hin) as [l' ->]. simpl. eauto.
Qed.

(** [clean_event] always returns, and writes the queue only. *)
Lemma clean_event_done (event : Event) (s : St) :
  exists q', clean_event event s = (set_queue q' s, Done tt).
Proof.
  unfold clean_event, on_queue, event_queue_remove, py_in. step_monad.
  destruct (bool_decide (event ∈ event_queue (queue s))) eqn:Hin.
  - apply bool_decide_eq_true in Hin. apply py_remove_elem in Hin as [l' ->].
    simpl. eauto.
  - exists (queue s). destruct s; reflexivity.
Qed.

(** [send_message] always returns, having tried to send once. *)
Lemma send_message_spec (event : Event) (data : Msg) (s : St) :
  exists s' sent delivered,
    send_message event data s = (s', Done sent)
    /\ trace s' = trace s ++ [ESend event data delivered]
    /\ awake_events s' = awake_events s.
Proof.
  unfold send_message, ws_send_json, next_send, emit. step_monad.
  set (ok := default true (head (send_script (world s)))).
  destruct ok eqn:Hok.
  - eexists _, true, true. split; [reflexivity|]. split; reflexivity.
  - match goal with |- context [clean_event event ?s0] =>
      destruct (clean_event_done event s0) as [q' Hc]
    end.
    rewrite Hc. eexists _, false, false. split; [reflexivity|]. split; reflexivity.
Qed.

Lemma quiet_step (s s' : St) :
  hushed s s' -> unsent s s' ->
  exists t, trace s' = trace s ++ t /\ answers t = [] /\ relayed t = []
            /\ awake_events s' = awake_events s.
Proof.
  intros Hh Hu. apply unsent_relayed in Hu as (t & Et & Hr & Haw).
  exists t. split; [exact Et|]. split; [|auto].
  apply answers_none. eapply logs_only_ext; [exact (proj1 Hh) | exact Et].
Qed.

Lemma relayed_cons_send (event : Event) (data : Msg) (delivered : bool) (t : list effect) :
  control data = false ->
  relayed (ESend event data delivered :: t) = (event, data) :: relayed t.
Proof. destruct data; try discriminate; reflexivity. Qed.

(** [relay] always returns, having sent the message to every awake
    event in turn. *)
Lemma relay_spec (awake : list Event) (data : Msg) (s : St) :
  control data = false ->
  exists s' t,
    relay awake data s = (s', Done tt)
    /\ trace s' = trace s ++ t
    /\ relayed t = to_all awake data
    /\ answers t = []
    /\ awake_events s' = awake_events s.
Proof.
  intros Hdata. unfold relay. revert s.
  induction awake as [|event awake IH]; intros s; simpl.
  - exists s, []. rewrite app_nil_r. auto.
  - destruct (send_message_spec event data s) as (s1 & sent & delivered & Hs & Et1 & Ha1).
    unfold bind at 1. unfold bind at 1. rewrite Hs. simpl.
    destruct (IH s1) as (s' & t & Hrun & Et & Hr & Hans & Ha).
    exists s', (ESend event data delivered :: t).
    split; [exact Hrun|].
    split; [rewrite Et, Et1, <- app_assoc; reflexivity|].
    split; [|split; [exact Hans | congruence]].
    rewrite relayed_cons_send by exact Hdata. rewrite Hr. reflexivity.
Qed.

Section Streaming.
Variable legacy_python : bool.
Variable events : list Event.
Variable batch : bool.

Lemma request_unsent awake : keeps unsent (request_body awake batch).
Proof. apply keeps_request_body; unsent_side. Qed.

Lemma ping_spec (event : option Event) (s s1 : St) (r : outcome bool) :
  (if legacy_python
   then target <- or_raise UnboundLocalError event ;; send_message target MsgAlive
   else ret true) s = (s1, r) ->
  exists t, trace s1 = trace s ++ t /\ answers t = [] /\ relayed t = []
            /\ awake_events s1 = awake_events s.
Proof.
  intros H. apply quiet_step.
  - eapply keeps_run; [apply ping_hushed | exact H].
  - eapply keeps_run; [|exact H].
    destruct legacy_python; [|apply keeps_ret; unsent_side].
    apply keeps_bind; try solve [unsent_side].
    + apply keeps_or_raise; unsent_side.
    + intros target.
      apply keeps_send_message with (ok := ok_both not_relayed any_effect); unsent_side.
Qed.

(** A prediction call relays nothing and logs the answer it returns,
    if it returns. *)
Lemma call_prediction_spec awake answer s s' r :
  call_prediction awake batch answer s = (s', r) ->
  exists t,
    trace s' = trace s ++ t
    /\ relayed t = []
    /\ awake_events s' = awake_events s
    /\ answers t = match r, answer with
                   | Done response, Some (LReturn latency _) => [(latency, response)]
                   | _, _ => []
                   end.
Proof.
  unfold call_prediction. intros H.
  apply bind_inv in H as [(s1 & request & Hreq & H) | [(e & Hreq & ->) | [Hreq ->]]].
  - pose proof (quiet_step _ _ (keeps_run _ _ _ _ _ (request_hushed batch awake) Hreq)
                  (keeps_run _ _ _ _ _ (request_unsent awake) Hreq))
      as (t1 & Et1 & Ha1 & Hr1 & Haw1).
    revert H. unfold time, emit. step_monad.
    set (e0 := EPredict (fst request) (snd request) (now (world s1))).
    destruct answer as [[e|latency r']|]; simpl; step_monad; intros [= <- <-];
      [exists (t1 ++ [e0]) | exists (t1 ++ [e0; EAnswer latency r']) | exists (t1 ++ [e0])];
      simpl;
      (split; [rewrite Et1, <- ?app_assoc; reflexivity|]);
      (split; [unfold relayed in *; rewrite omap_app, Hr1; reflexivity|]);
      (split; [exact Haw1|]);
      unfold answers in *; rewrite omap_app, Ha1; reflexivity.
  - pose proof (quiet_step _ _ (keeps_run _ _ _ _ _ (request_hushed batch awake) Hreq)
                  (keeps_run _ _ _ _ _ (request_unsent awake) Hreq))
      as (t1 & Et1 & Ha1 & Hr1 & Haw1). exists t1. auto.
  - pose proof (quiet_step _ _ (keeps_run _ _ _ _ _ (request_hushed batch awake) Hreq)
                  (keeps_run _ _ _ _ _ (request_unsent awake) Hreq))
      as (t1 & Et1 & Ha1 & Hr1 & Haw1). exists t1. auto.
Qed.

Lemma generating_loop_grows awake legs response event :
  keeps grows (generating_loop legacy_python batch awake legs response event).
Proof.
  apply keeps_generating_loop with (ok := ok_both any_effect any_effect);
    calm_side ltac:(intros; reflexivity).
Qed.
End Streaming.

Lemma is_generating_cases (response : Response) (s s' : St) (o : outcome bool) :
  is_generating response s = (s', o) ->
  s' = s
  /\ ((exists j, json response = Some j /\ o = Done (j_is_generating j))
      \/ (json response = None /\ o = Raised AttributeError)).
Proof.
  unfold is_generating. destruct (json response) as [j|]; step_monad;
    intros [= <- <-]; eauto.
Qed.

Lemma removelast_cons {A} (x : A) (l : list A) :
  l <> [] -> removelast (x :: l) = x :: removelast l.
Proof. destruct l; [congruence | reflexivity]. Qed.

Section Relaying.
Variable legacy_python : bool.
Variable events : list Event.
Variable batch : bool.

(** The streaming loop, when the answers it received end on a
    response that is not generating: it has relayed one progress
    message per awake event for the response it was entered with and
    for every answer but the last, in this order, and it returns the
    last answer together with the response before it. *)
Lemma generating_loop_relays awake legs :
  forall response event s s' r t latency final j,
    generating_loop legacy_python batch awake legs response event s = (s', r) ->
    trace s' = trace s ++ t ->
    last (answers t) = Some (latency, final) ->
    json final = Some j ->
    j_is_generating j = false ->
    exists old,
      r = Done (Some (final, old))
      /\ last (response :: removelast (snd <$> answers t)) = Some old
      /\ relayed t = concat (map (fun resp => to_all awake (generating_msg resp))
                                 (response :: removelast (snd <$> answers t)))
      /\ awake_events s' = awake_events s.
Proof.
  induction legs as [|leg legs IH];
    intros response event s s' r t latency final j H Et Hlast Hj Hgen; simpl in H.
  - (* no answer is left: the call hangs *)
    exfalso.
    apply bind_inv in H as [(s1 & alive & Hp & H) | [(e & Hp & ->) | [Hp ->]]];
      apply ping_spec in Hp as (t1 & Et1 & Ha1 & Hr1 & Haw1);
      try (rewrite Et in Et1; apply app_inv_head in Et1; subst t;
           rewrite Ha1 in Hlast; discriminate).
    destruct alive; simpl in H.
    2:{ injection H as <- <-. rewrite Et in Et1; apply app_inv_head in Et1; subst t.
        rewrite Ha1 in Hlast; discriminate. }
    destruct (relay_spec awake (generating_msg response) s1 eq_refl)
      as (s2 & t2 & Hrelay & Et2 & Hr2 & Ha2 & Haw2).
    unfold generating_msg in Hrelay. rewrite (bind_done _ _ _ _ _ Hrelay) in H.
    assert (Hdead : forall s3 t3, trace s3 = trace s2 ++ t3 -> answers t3 = [] ->
                                  s' = s3 -> False).
    { intros s3 t3 Et3 Ha3 ->.
      rewrite (trace_split _ _ _ _ _ _ Et1
                 ltac:(rewrite Et3, Et2, <- app_assoc; reflexivity) Et) in Hlast.
      unfold answers in *. rewrite !omap_app, Ha1, Ha2, Ha3 in Hlast. discriminate. }
    apply bind_inv in H as [(s3 & resp & Hc & H) | [(e & Hc & ->) | [Hc ->]]];
      apply call_prediction_spec in Hc as (t3 & Et3 & Hr3 & Haw3 & Ha3);
      simpl in Ha3; [injection H as <- <- | |]; eapply Hdead; eauto.
  - apply bind_inv in H as [(s1 & alive & Hp & H) | [(e & Hp & ->) | [Hp ->]]];
      apply ping_spec in Hp as (t1 & Et1 & Ha1 & Hr1 & Haw1);
      try (exfalso; rewrite Et in Et1; apply app_inv_head in Et1; subst t;
           rewrite Ha1 in Hlast; discriminate).
    destruct alive; simpl in H.
    2:{ exfalso. injection H as <- <-.
        rewrite Et in Et1; apply app_inv_head in Et1; subst t.
        rewrite Ha1 in Hlast; discriminate. }
    destruct (relay_spec awake (generating_msg response) s1 eq_refl)
      as (s2 & t2 & Hrelay & Et2 & Hr2 & Ha2 & Haw2).
    unfold generating_msg in Hrelay. rewrite (bind_done _ _ _ _ _ Hrelay) in H.
    fold (generating_msg response) in Hrelay.
    assert (Hdead : forall s3 t3, trace s3 = trace s2 ++ t3 -> answers t3 = [] ->
                                  s' = s3 -> False).
    { intros s3 t3 Et3 Ha3 ->.
      rewrite (trace_split _ _ _ _ _ _ Et1
                 ltac:(rewrite Et3, Et2, <- app_assoc; reflexivity) Et) in Hlast.
      unfold answers in *. rewrite !omap_app, Ha1, Ha2, Ha3 in Hlast. discriminate. }
    apply bind_inv in H as [(s3 & response' & Hc & H) | [(e & Hc & ->) | [Hc ->]]];
      [|exfalso; apply call_prediction_spec in Hc as (t3 & Et3 & Hr3 & Haw3 & Ha3);
        eapply Hdead; eauto ..].
    clear Hdead.
    pose proof (call_prediction_answer _ _ _ _ _ _ Hc) as (latency' & _ & [= ->] & _).
    apply call_prediction_spec in Hc as (t3 & Et3 & Hr3 & Haw3 & Ha3). simpl in Ha3.
    assert (Et123 : trace s3 = trace s ++ t1 ++ t2 ++ t3)
      by (rewrite Et3, Et2, Et1, <- !app_assoc; reflexivity).
    assert (Ha123 : answers (t1 ++ t2 ++ t3) = [(latency', response')])
      by (unfold answers in *; rewrite !omap_app, Ha1, Ha2, Ha3; reflexivity).
    assert (Hr123 : relayed (t1 ++ t2 ++ t3) = to_all awake (generating_msg response))
      by (unfold relayed in *; rewrite !omap_app, Hr1, Hr2, Hr3;
          simpl; apply app_nil_r).
    apply bind_inv in H as [(s4 & more & Hm & H) | [(e & Hm & ->) | [Hm ->]]];
      apply is_generating_cases in Hm as [-> [(j' & Hj' & [= Hmore]) | [Hnone [= ]]]].
    + (* the answer has a JSON body *)
      subst more. destruct (j_is_generating j') eqn:Hgen'.
      * (* more is coming: around the loop again *)
        pose proof (keeps_run _ _ _ _ _
                      (generating_loop_grows legacy_python batch awake legs _ _) H)
          as [(t4 & Et4 & _) _].
        assert (Ht : t = (t1 ++ t2 ++ t3) ++ t4)
          by exact (trace_split _ _ _ _ _ _ Et123 Et4 Et).
        assert (Ha : answers t = (latency', response') :: answers t4)
          by (rewrite Ht; unfold answers in *; rewrite omap_app, Ha123; reflexivity).
        destruct (answers t4) as [|a4 l4] eqn:Ha4.
        { exfalso. rewrite Ha in Hlast. injection Hlast as -> ->. congruence. }
        assert (Hlast4 : last (answers t4) = Some (latency, final)).
        { rewrite Ha in Hlast. rewrite Ha4. exact Hlast. }
        destruct (IH _ _ _ _ _ _ _ _ _ H Et4 Hlast4 Hj Hgen)
          as (old & -> & Hold & Hrel & Haw4).
        exists old. split; [reflexivity|]. rewrite Ha. rewrite Ha4 in *.
        simpl fmap. rewrite removelast_cons by discriminate.
        split; [exact Hold|]. split; [|congruence].
        rewrite Ht. unfold relayed in *. rewrite omap_app, Hr123.
        simpl fmap in Hrel. rewrite Hrel. reflexivity.
      * (* the last answer *)
        injection H as <- <-.
        assert (Ht : t = t1 ++ t2 ++ t3)
          by (rewrite Et123 in Et; apply app_inv_head in Et; auto).
        subst t. rewrite Ha123 in *. injection Hlast as <- <-.
        exists response. split; [reflexivity|]. split; [reflexivity|].
        split; [|congruence]. rewrite Hr123. simpl. symmetry. apply app_nil_r.
    + (* the answer has no JSON body *)
      exfalso.
      assert (Ht : t = t1 ++ t2 ++ t3)
        by (rewrite Et123 in Et; apply app_inv_head in Et; auto).
      subst t. rewrite Ha123 in Hlast. injection Hlast as <- <-. congruence.
Qed.
End Relaying.

Lemma last_cons_cons {A} (x : A) (l : list A) :
  l <> [] -> last (x :: l) = last l.
Proof. destruct l; [congruence | reflexivity]. Qed.

Section Cycles.
Variable legacy_python : bool.
Variable events : list Event.
Variable batch : bool.

Lemma handle_grows awake response legs :
  keeps grows (handle_response legacy_python events batch awake response legs).
Proof.
  apply keeps_handle_response with (ok := ok_both any_effect any_effect);
    calm_side ltac:(intros; reflexivity).
Qed.

Lemma body_grows legs :
  keeps grows (process_events_body legacy_python events batch legs).
Proof.
  apply keeps_process_events_body with (ok := ok_both any_effect any_effect);
    calm_side ltac:(intros; reflexivity).
Qed.

Lemma record_quiet begin_time final s s' r :
  record_duration begin_time final s = (s', r) ->
  exists t, trace s' = trace s ++ t /\ answers t = [] /\ relayed t = []
            /\ awake_events s' = awake_events s.
Proof.
  intros H. apply quiet_step.
  - eapply keeps_run; [|exact H].
    apply keeps_record_duration with (ok := ok_both not_answer any_effect); hushed_side.
  - eapply keeps_run; [|exact H].
    apply keeps_record_duration with (ok := ok_both not_relayed any_effect); unsent_side.
Qed.

Lemma cleanup_quiet s s' r :
  process_events_cleanup legacy_python events s = (s', r) ->
  exists t, trace s' = trace s ++ t /\ answers t = [] /\ relayed t = []
            /\ awake_events s' = awake_events s.
Proof.
  intros H. apply quiet_step.
  - eapply keeps_run; [apply cleanup_hushed | exact H].
  - eapply keeps_run; [|exact H].
    apply keeps_process_events_cleanup with (ok := ok_both not_relayed any_effect);
      unsent_side.
Qed.

Lemma gather_quiet s s' r :
  gather_awake events s = (s', r) ->
  exists t, trace s' = trace s ++ t /\ answers t = [] /\ relayed t = [].
Proof.
  intros H.
  pose proof (keeps_run _ _ _ _ _ (gather_hushed events) H) as Hh.
  assert (Hu : unrelayed s s').
  { eapply keeps_run; [|exact H].
    apply keeps_gather_awake with (ok := ok_both not_relayed any_effect);
      try solve [calm_side ltac:(intros; first [reflexivity | assumption])].
    intros event [] delivered Hcontrol; try discriminate; reflexivity. }
  destruct Hu as [(t & Et & Ht) _]. exists t. split; [exact Et|].
  split; [|apply relayed_none, Ht].
  apply answers_none. eapply logs_only_ext; [exact (proj1 Hh) | exact Et].
Qed.

(** The branches on the first response, when further answers came
    and the last of them is not generating: the streaming branch was
    taken, and after the progress messages of the loop every awake
    event was sent a completion message made from the answer before
    the last. *)
Lemma handle_response_streams awake response legs s s' r t latency final j :
  handle_response legacy_python events batch awake response legs s = (s', r) ->
  trace s' = trace s ++ t ->
  last (answers t) = Some (latency, final) ->
  json final = Some j ->
  j_is_generating j = false ->
  exists old,
    r = Done (Some final)
    /\ last (response :: removelast (snd <$> answers t)) = Some old
    /\ relayed t
       = concat (map (fun resp => to_all awake (generating_msg resp))
                     (response :: removelast (snd <$> answers t)))
         ++ to_all awake (completed_msg old)
    /\ awake_events s' = awake_events s.
Proof.
  intros H Et Hlast Hj Hgen. unfold handle_response in H.
  destruct (has_exception response).
  { exfalso.
    destruct (relay_spec awake (MsgProcessCompleted (OError (exception response)) false)
                s eq_refl) as (s1 & t1 & Hrelay & Et1 & _ & Ha1 & _).
    rewrite (bind_done _ _ _ _ _ Hrelay) in H. injection H as <- <-.
    rewrite Et in Et1. apply app_inv_head in Et1. subst t.
    rewrite Ha1 in Hlast. discriminate. }
  apply bind_inv in H as [(s1 & more & Hm & H) | [(e & Hm & ->) | [Hm ->]]];
    apply is_generating_cases in Hm as [-> [(j' & Hj' & [= Hmore]) | [Hnone [= ]]]].
  2:{ exfalso. rewrite <- (app_nil_r (trace s)) in Et at 1.
      apply app_inv_head in Et. subst t. discriminate. }
  subst more. destruct (j_is_generating j').
  - apply bind_inv in H as [(s2 & res & Hloop & H) | [(e & Hloop & ->) | [Hloop ->]]].
    + pose proof (keeps_run _ _ _ _ _
                    (generating_loop_grows legacy_python batch awake legs _ _) Hloop)
        as [(t1 & Et1 & _) _].
      destruct res as [[final' old]|].
      * destruct (relay_spec awake (completed_msg old) s2 eq_refl)
          as (s3 & t2 & Hrelay & Et2 & Hr2 & Ha2 & Haw2).
        unfold completed_msg in Hrelay.
        rewrite (bind_done _ _ _ _ _ Hrelay) in H. injection H as <- <-.
        pose proof (trace_split _ _ _ _ _ _ Et1 Et2 Et) as ->.
        assert (Ha : answers (t1 ++ t2) = answers t1)
          by (unfold answers in *; rewrite omap_app, Ha2; apply app_nil_r).
        rewrite Ha in *.
        destruct (generating_loop_relays legacy_python batch awake legs
                    _ _ _ _ _ _ _ _ _ Hloop Et1 Hlast Hj Hgen)
          as (old' & [= -> ->] & Hold & Hrel & Haw).
        exists old'. split; [reflexivity|]. split; [exact Hold|].
        split; [|congruence].
        unfold relayed in *. rewrite omap_app, Hrel, Hr2. reflexivity.
      * exfalso. injection H as <- <-.
        rewrite Et in Et1. apply app_inv_head in Et1. subst t1.
        destruct (generating_loop_relays legacy_python batch awake legs
                    _ _ _ _ _ _ _ _ _ Hloop Et Hlast Hj Hgen)
          as (old' & [= ] & _).
    + exfalso.
      destruct (generating_loop_relays legacy_python batch awake legs
                  _ _ _ _ _ _ _ _ _ Hloop Et Hlast Hj Hgen) as (old' & [= ] & _).
    + exfalso.
      destruct (generating_loop_relays legacy_python batch awake legs
                  _ _ _ _ _ _ _ _ _ Hloop Et Hlast Hj Hgen) as (old' & [= ] & _).
  - exfalso.
    assert (Hh : hushed s s').
    { apply bind_inv in H as [(s2 & [] & Hrel & H) | [(e & Hrel & ->) | [Hrel ->]]];
        [injection H as <- <- | |];
        (eapply keeps_run; [apply relay_single_hushed | exact Hrel]). }
    apply hushed_answers in Hh as (t1 & Et1 & Ha1 & _).
    rewrite Et in Et1. apply app_inv_head in Et1. subst t.
    rewrite Ha1 in Hlast. discriminate.
Qed.
End Cycles.

Section Streamed.
Variable legacy_python : bool.
Variable events : list Event.
Variable batch : bool.

(** The [try] block, when at least two prediction calls were answered
    and the last answer is not generating. *)
Lemma body_streams legs s s1 rb t a1 rest latency final j :
  process_events_body legacy_python events batch legs s = (s1, rb) ->
  trace s1 = trace s ++ t ->
  answers t = a1 :: rest ->
  last rest = Some (latency, final) ->
  json final = Some j ->
  j_is_generating j = false ->
  exists old,
    last (removelast (snd <$> answers t)) = Some old
    /\ relayed t
       = concat (map (fun resp => to_all (awake_events s1) (generating_msg resp))
                     (removelast (snd <$> answers t)))
         ++ to_all (awake_events s1) (completed_msg old).
Proof.
  intros H Et Ha Hlast Hj Hgen. unfold process_events_body in H.
  apply bind_inv in H as [(sg & [] & Hg & H) | [(e & Hg & ->) | [Hg ->]]];
    apply gather_quiet in Hg as (tg & Etg & Hag & Hrg);
    try (exfalso; rewrite Et in Etg; apply app_inv_head in Etg; subst t;
         rewrite Hag in Ha; discriminate).
  unfold bind at 1 in H. simpl in H.
  destruct (awake_events sg) as [|e awake] eqn:Hawake.
  { exfalso. injection H as <- <-.
    rewrite Et in Etg; apply app_inv_head in Etg; subst t.
    rewrite Hag in Ha; discriminate. }
  unfold bind at 1 in H. simpl in H.
  assert (Hdead : forall sc tc, trace sc = trace sg ++ tc -> answers tc = [] ->
                                s1 = sc -> False).
  { intros sc tc Etc Hac ->.
    rewrite (trace_split _ _ _ _ _ _ Etg Etc Et) in Ha.
    unfold answers in *. rewrite omap_app, Hag, Hac in Ha. discriminate. }
  apply bind_inv in H as [(sc & response & Hc & H) | [(e' & Hc & ->) | [Hc ->]]];
    [|exfalso; apply call_prediction_spec in Hc as (tc & Etc & _ & _ & Hac);
      eapply Hdead; eauto ..].
  clear Hdead.
  pose proof (call_prediction_answer _ _ _ _ _ _ Hc) as (latency1 & _ & Hhead & _).
  apply call_prediction_spec in Hc as (tc & Etc & Hrc & Hawc & Hac).
  rewrite Hhead in Hac. simpl in Hac.
  assert (Hmain : forall sh rh th,
            handle_response legacy_python events batch (e :: awake) response
              (tail legs) sc = (sh, rh) ->
            trace sh = trace sc ++ th ->
            answers t = (latency1, response) :: answers th ->
            exists old,
              rh = Done (Some final)
              /\ last (removelast (snd <$> answers t)) = Some old
              /\ relayed th
                 = concat (map (fun resp => to_all (e :: awake) (generating_msg resp))
                               (removelast (snd <$> answers t)))
                   ++ to_all (e :: awake) (completed_msg old)
              /\ awake_events sh = e :: awake).
  { intros sh rh th Hh Eth Hat.
    rewrite Hat in Ha. injection Ha as <- <-.
    destruct (handle_response_streams legacy_python events batch _ _ _ _ _ _ _ _ _ _
                Hh Eth Hlast Hj Hgen) as (old & -> & Hold & Hrel & Haw).
    exists old. split; [reflexivity|]. rewrite Hat. simpl fmap.
    assert (Hne : snd <$> answers th <> []).
    { destruct (answers th); [discriminate Hlast | discriminate]. }
    rewrite removelast_cons by exact Hne.
    split; [exact Hold|]. split; [exact Hrel | congruence]. }
  apply bind_inv in H as [(sh & fin & Hh & H) | [(e' & Hh & ->) | [Hh ->]]];
    pose proof (keeps_run _ _ _ _ _
                  (handle_grows legacy_python events batch _ _ _) Hh)
      as [(th & Eth & _) _].
  - apply record_quiet in H as (tr & Etr & Har & Hrr & Hawr).
    assert (Ht : t = (tg ++ tc ++ th) ++ tr).
    { eapply trace_split; [|exact Etr | exact Et].
      rewrite Eth, Etc, Etg, <- !app_assoc. reflexivity. }
    destruct (Hmain sh _ th Hh Eth) as (old & _ & Hold & Hrel & Haw).
    { rewrite Ht. unfold answers in *. rewrite !omap_app, Hag, Hac, Har.
      simpl. rewrite app_nil_r. reflexivity. }
    exists old. split; [exact Hold|].
    rewrite Hawr, Haw. rewrite <- Hrel. rewrite Ht.
    unfold relayed in *. rewrite !omap_app, Hrg, Hrc, Hrr. simpl.
    apply app_nil_r.
  - exfalso.
    assert (Ht : t = tg ++ tc ++ th).
    { rewrite Eth, Etc, Etg, <- !app_assoc in Et. apply app_inv_head in Et. auto. }
    destruct (Hmain s1 _ th Hh Eth) as (old & [= ] & _).
    rewrite Ht. unfold answers in *. rewrite !omap_app, Hag, Hac. reflexivity.
  - exfalso.
    assert (Ht : t = tg ++ tc ++ th).
    { rewrite Eth, Etc, Etg, <- !app_assoc in Et. apply app_inv_head in Et. auto. }
    destruct (Hmain s1 _ th Hh Eth) as (old & [= ] & _).
    rewrite Ht. unfold answers in *. rewrite !omap_app, Hag, Hac. reflexivity.
Qed.

(** The same for the whole of [process_events]: the [finally] block
    relays nothing. *)
Lemma process_events_streams legs s s' r t a1 rest latency final j :
  process_events legacy_python events batch legs s = (s', r) ->
  trace s' = trace s ++ t ->
  answers t = a1 :: rest ->
  last rest = Some (latency, final) ->
  json final = Some j ->
  j_is_generating j = false ->
  exists old,
    last (removelast (snd <$> answers t)) = Some old
    /\ relayed t
       = concat (map (fun resp => to_all (awake_events s') (generating_msg resp))
                     (removelast (snd <$> answers t)))
         ++ to_all (awake_events s') (completed_msg old).
Proof.
  intros H Et Ha Hlast Hj Hgen. unfold process_events in H.
  unfold bind at 1 in H. simpl in H. unfold try_finally in H.
  destruct (process_events_body legacy_python events batch legs
              (set_awake_events [] s)) as [s1 rb] eqn:Eb.
  pose proof (keeps_run _ _ _ _ _ (body_grows legacy_python events batch legs) Eb)
    as [(tb & Etb & _) _]. simpl in Etb.
  assert (Hclean : forall s2 rc, process_events_cleanup legacy_python events s1 = (s2, rc) ->
            s' = s2 ->
            exists old,
              last (removelast (snd <$> answers t)) = Some old
              /\ relayed t
                 = concat (map (fun resp => to_all (awake_events s')
                                                   (generating_msg resp))
                               (removelast (snd <$> answers t)))
                   ++ to_all (awake_events s') (completed_msg old)).
  { intros s2 rc Ec ->.
    apply cleanup_quiet in Ec as (tc & Etc & Hac & Hrc & Hawc).
    pose proof (trace_split _ _ _ _ _ _ Etb Etc Et) as ->.
    assert (Hab : answers (tb ++ tc) = answers tb)
      by (unfold answers in *; rewrite omap_app, Hac; apply app_nil_r).
    assert (Hrb : relayed (tb ++ tc) = relayed tb)
      by (unfold relayed in *; rewrite omap_app, Hrc; apply app_nil_r).
    rewrite Hab in *. rewrite Hrb, Hawc.
    eapply body_streams; eauto. }
  destruct rb as [[]|e|].
  - destruct (process_events_cleanup legacy_python events s1) as [s2 rc] eqn:Ec.
    apply (Hclean s2 rc eq_refl). destruct rc as [[]| |]; congruence.
  - destruct (process_events_cleanup legacy_python events s1) as [s2 rc] eqn:Ec.
    apply (Hclean s2 rc eq_refl). destruct rc as [[]| |]; congruence.
  - injection H as <- <-.
    rewrite Et in Etb. apply app_inv_head in Etb. subst tb.
    eapply body_streams; eauto.
Qed.
End Streamed.

(** ** The awake events of a batch *)

Ltac awake_side := calm_side ltac:(intros; reflexivity).

Section Awake.
Variable legacy_python : bool.
Variable events : list Event.
Variable batch : bool.

Lemma gather_one_awake (event : Event) (s s' : St) (r : outcome unit) :
  (client_awake <- gather_event_data event ;;
   client_awake <- (if client_awake
                    then send_message event MsgProcessStarts
                    else ret false) ;;
   if client_awake
   then modify (fun s => set_awake_events (awake_events s ++ [event]) s)
   else ret tt) s = (s', r) ->
  awake_events s' = awake_events s \/ awake_events s' = awake_events s ++ [event].
Proof.
  intros H.
  assert (K1 : keeps awake_kept (gather_event_data event))
    by (apply keeps_gather_event_data with (ok := ok_both any_effect any_effect);
        awake_side).
  assert (K2 : forall b : bool,
             keeps awake_kept (if b then send_message event MsgProcessStarts
                               else ret false)).
  { intros []; [|apply keeps_ret; awake_side].
    apply keeps_send_message with (ok := ok_both any_effect any_effect); awake_side. }
  apply bind_inv in H as [(s1 & b1 & H1 & H) | [(e & H1 & ->) | [H1 ->]]];
    apply (keeps_run _ _ _ _ _ K1) in H1 as [_ E1]; unfold same in E1; auto.
  apply bind_inv in H as [(s2 & b2 & H2 & H) | [(e & H2 & ->) | [H2 ->]]];
    apply (keeps_run _ _ _ _ _ (K2 b1)) in H2 as [_ E2]; unfold same in E2;
    [|left; congruence ..].
  destruct b2; injection H as <- <-; simpl; [right | left]; congruence.
Qed.

(** The first loop appends to [awake_events] some of the events of the
    batch, in the order of the batch. *)
Lemma gather_awake_sublist (s : St) :
  exists l, awake_events (fst (gather_awake events s)) = awake_events s ++ l
            /\ sublist l events.
Proof.
  unfold gather_awake. revert s.
  induction events as [|event rest IH]; intros s; simpl.
  - exists []. rewrite app_nil_r. split; [reflexivity | constructor].
  - unfold bind at 1.
    match goal with |- context [let (_, _) := ?m s in _] =>
      destruct (m s) as [s1 r1] eqn:E1 end.
    apply gather_one_awake in E1.
    destruct r1 as [[]|e|]; simpl.
    + destruct (IH s1) as (l & El & Hl).
      destruct E1 as [E1|E1]; rewrite El, E1.
      * exists l. split; [reflexivity | apply sublist_cons, Hl].
      * exists (event :: l). rewrite <- app_assoc.
        split; [reflexivity | apply sublist_skip, Hl].
    + destruct E1 as [E1|E1]; rewrite E1.
      * exists []. rewrite app_nil_r. split; [reflexivity | apply sublist_nil_l].
      * exists [event]. split; [reflexivity|]. apply sublist_skip, sublist_nil_l.
    + destruct E1 as [E1|E1]; rewrite E1.
      * exists []. rewrite app_nil_r. split; [reflexivity | apply sublist_nil_l].
      * exists [event]. split; [reflexivity|]. apply sublist_skip, sublist_nil_l.
Qed.

(** The awake events a call ends with are events of the batch, in the
    order of the batch. *)
Lemma process_events_awake legs s s' r :
  process_events legacy_python events batch legs s = (s', r) ->
  sublist (awake_events s') events.
Proof.
  intros H. unfold process_events in H. unfold bind at 1 in H. simpl in H.
  unfold try_finally in H.
  assert (Kc : keeps awake_kept (process_events_cleanup legacy_python events))
    by (apply keeps_process_events_cleanup with (ok := ok_both any_effect any_effect);
        awake_side).
  assert (Hbody : forall s1 rb,
            process_events_body legacy_python events batch legs
              (set_awake_events [] s) = (s1, rb) ->
            sublist (awake_events s1) events).
  { intros s1 rb Hb. unfold process_events_body in Hb.
    destruct (gather_awake_sublist (set_awake_events [] s)) as (l & El & Hl).
    simpl in El.
    apply bind_inv in Hb as [(sg & [] & Hg & Hb) | [(e & Hg & ->) | [Hg ->]]];
      rewrite Hg in El; simpl in El; try (rewrite El; exact Hl).
    enough (K : awake_kept sg s1) by (destruct K as [_ K]; rewrite K, El; exact Hl).
    eapply keeps_run; [|exact Hb].
    apply keeps_bind; try solve [awake_side].
    { apply keeps_gets; awake_side. }
    intros [|e awake]; [apply keeps_ret; awake_side|].
    apply keeps_bind; try solve [awake_side].
    { apply keeps_gets; awake_side. }
    intros begin_time. apply keeps_bind; try solve [awake_side].
    { apply keeps_call_prediction with (ok := ok_both any_effect any_effect);
        awake_side. }
    intros response. apply keeps_bind; try solve [awake_side].
    { apply keeps_handle_response with (ok := ok_both any_effect any_effect);
        awake_side. }
    intros final.
    apply keeps_record_duration with (ok := ok_both any_effect any_effect);
      awake_side. }
  destruct (process_events_body legacy_python events batch legs
              (set_awake_events [] s)) as [s1 rb] eqn:Eb.
  specialize (Hbody s1 rb eq_refl).
  destruct rb as [[]|e|].
  - destruct (process_events_cleanup legacy_python events s1) as [s2 rc] eqn:Ec.
    apply (keeps_run _ _ _ _ _ Kc) in Ec as [_ Ec]. unfold same in Ec.
    destruct rc as [[]| |]; injection H as <- <-; rewrite Ec; exact Hbody.
  - destruct (process_events_cleanup legacy_python events s1) as [s2 rc] eqn:Ec.
    apply (keeps_run _ _ _ _ _ Kc) in Ec as [_ Ec]. unfold same in Ec.
    destruct rc as [[]| |]; injection H as <- <-; rewrite Ec; exact Hbody.
  - injection H as <- <-. exact Hbody.
Qed.
End Awake.

Lemma filter_to_all_other (awake : list Event) (event : Event) (m : Msg) :
  event ∉ awake -> filter (fun p => fst p = event) (to_all awake m) = [].
Proof.
  induction awake as [|e awake IH]; intros Hnotin; [reflexivity|].
  apply not_elem_of_cons in Hnotin as [Hne Hnotin].
  unfold to_all in *. simpl. rewrite filter_cons. simpl.
  rewrite decide_False by congruence. apply IH, Hnotin.
Qed.

Lemma filter_to_all (awake : list Event) (event : Event) (m : Msg) :
  NoDup awake -> event ∈ awake ->
  filter (fun p => fst p = event) (to_all awake m) = [(event, m)].
Proof.
  induction awake as [|e awake IH]; intros Hnd Hin; [inversion Hin|].
  apply NoDup_cons in Hnd as [Hfresh Hnd].
  unfold to_all in *. simpl. rewrite filter_cons. simpl.
  destruct (decide (e = event)) as [->|Hne].
  - f_equal. apply (filter_to_all_other awake event m Hfresh).
  - apply elem_of_cons in Hin as [->|Hin]; [congruence|]. apply IH; assumption.
Qed.

(** Claim C4, amended. When the prediction calls of a batch were
    answered three times and the third response is not generating, the
    progress and completion messages of the run are: the first response
    as a [process_generating] message to every awake event, then the
    second response as a [process_generating] message to every awake
    event, then one [process_completed] message to every awake event;
    each carries the payload and the status-derived success flag of the
    response it is made from, and the completion message is made from
    the second response (the last one that was generating), not from
    the third. Every awake event of a batch of distinct events is so
    sent exactly these three messages in this order. *)
Theorem streamed_prediction_messages (legacy_python : bool) (events : list Event)
    (batch : bool) (legs : list Leg) (s s' : St) (r : outcome unit)
    (t : list effect) (l1 l2 l3 : float) (r1 r2 r3 : Response) (j3 : Json) :
  process_events legacy_python events batch legs s = (s', r) ->
  trace s' = trace s ++ t ->
  answers t = [(l1, r1); (l2, r2); (l3, r3)] ->
  json r3 = Some j3 ->
  j_is_generating j3 = false ->
  NoDup events ->
  let awake := awake_events s' in
  relayed t
  = to_all awake (MsgProcessGenerating (json r1) (status_ok r1))
    ++ to_all awake (MsgProcessGenerating (json r2) (status_ok r2))
    ++ to_all awake (MsgProcessCompleted (OJson (json r2)) (status_ok r2))
  /\ forall event,
       event ∈ awake ->
       sent_to event t
       = [MsgProcessGenerating (json r1) (status_ok r1);
          MsgProcessGenerating (json r2) (status_ok r2);
          MsgProcessCompleted (OJson (json r2)) (status_ok r2)].
Proof.
  intros H Et Ha Hj Hgen Hnd awake.
  destruct (process_events_streams legacy_python events batch legs s s' r t
              (l1, r1) [(l2, r2); (l3, r3)] l3 r3 j3 H Et Ha eq_refl Hj Hgen)
    as (old & Hold & Hrel).
  rewrite Ha in Hold, Hrel. simpl in Hold, Hrel. injection Hold as <-.
  fold awake in Hrel. rewrite app_nil_r in Hrel.
  assert (Hrelayed : relayed t
            = to_all awake (generating_msg r1)
              ++ to_all awake (generating_msg r2)
              ++ to_all awake (completed_msg r2))
    by (rewrite Hrel, <- app_assoc; reflexivity).
  split; [exact Hrelayed|].
  intros event Hin.
  assert (Hnd' : NoDup awake).
  { pose proof (process_events_awake _ _ _ _ _ _ _ H) as Hsub.
    exact (sublist_NoDup _ _ Hnd Hsub). }
  unfold sent_to. rewrite Hrelayed. rewrite !filter_app.
  rewrite !filter_to_all by assumption. reflexivity.
Qed.

(** ** The queue at work *)

Lemma estimator_kept_fed_only (s s' : St) : estimator_kept s s' -> fed_only_by_log s s'.
Proof.
  intros H. apply estimator_kept_not_fed in H as (t & Et & _ & Hsame).
  exists t. auto.
Qed.

Lemma fed_only_by_log_trans (s1 s2 s3 : St) :
  fed_only_by_log s1 s2 -> fed_only_by_log s2 s3 -> fed_only_by_log s1 s3.
Proof.
  intros (t1 & E1 & H1) (t2 & E2 & H2). exists (t1 ++ t2).
  split; [rewrite E2, E1; symmetry; apply app_assoc|].
  unfold feeds. rewrite omap_app. intros [Hf1 Hf2]%app_eq_nil.
  rewrite (H2 Hf2). apply H1, Hf1.
Qed.

Lemma process_events_fed_only legacy_python events batch legs (s : St) :
  fed_only_by_log s (fst (process_events legacy_python events batch legs s)).
Proof.
  unfold process_events. unfold bind at 1. simpl. unfold try_finally.
  destruct (process_events_body legacy_python events batch legs
              (set_awake_events [] s)) as [s1 rb] eqn:Eb.
  assert (Hbody : fed_only_by_log s s1).
  { apply body_fed_or_not in Eb as [K | (d & latency & final & t & Et & Hf & _)].
    - apply estimator_kept_fed_only in K. exact K.
    - exists t. split; [exact Et|]. rewrite Hf. discriminate. }
  assert (Hclean : forall s2 rc, process_events_cleanup legacy_python events s1 = (s2, rc) ->
                                 fed_only_by_log s s2).
  { intros s2 rc Ec. eapply fed_only_by_log_trans; [exact Hbody|].
    apply estimator_kept_fed_only.
    eapply keeps_run; [apply cleanup_keeps_estimator | exact Ec]. }
  destruct rb as [[]|e|]; simpl; [| |exact Hbody];
    destruct (process_events_cleanup legacy_python events s1) as [s2 rc] eqn:Ec;
    specialize (Hclean s2 rc eq_refl); destruct rc as [[]| |]; exact Hclean.
Qed.

Lemma act_fed_only (a : Action) (s : St) : fed_only_by_log s (fst (act a s)).
Proof.
  assert (Hq : forall q' : Queue,
             estimation q' = estimation (queue s) ->
             queue_duration q' = queue_duration (queue s) ->
             max_thread_count q' = max_thread_count (queue s) ->
             fed_only_by_log s (set_queue q' s)).
  { intros q' He Hd Hl. exists []. simpl. rewrite app_nil_r. split; [reflexivity|].
    intros _. unfold estimator. simpl. congruence. }
  destruct a as [event| |legacy_python events batch legs| | |]; simpl.
  - unfold bind, on_queue. destruct (push event (queue s)) as [q' r] eqn:E.
    assert (q' = fst (push event (queue s))) as -> by (rewrite E; reflexivity).
    assert (Hp : exists l, fst (push event (queue s)) = set_event_queue l (queue s)).
    { unfold push. step_monad.
      destruct (max_size (queue s)) as [m|]; [destruct (bool_decide _)|]; simpl;
        first [exists (event_queue (queue s)); symmetry; apply set_event_queue_id
              | eexists; reflexivity]. }
    destruct Hp as [l ->]. destruct r; apply Hq; reflexivity.
  - unfold bind, on_queue.
    destruct (start_processing_step (queue s)) as [q' r] eqn:E.
    assert (q' = fst (start_processing_step (queue s))) as -> by (rewrite E; reflexivity).
    destruct (start_processing_step_frame (queue s)) as (l & jobs & ->).
    destruct r; apply Hq; reflexivity.
  - apply process_events_fed_only.
  - apply estimator_kept_fed_only.
    apply (keeps_broadcast_estimations estimator_kept) with
      (ok := ok_both not_update any_effect); estimator_side.
  - apply Hq; reflexivity.
  - apply Hq; reflexivity.
Qed.

Lemma run_fed_only (actions : list Action) (s : St) : fed_only_by_log s (run actions s).
Proof.
  revert s. induction actions as [|a rest IH]; intros s; simpl.
  - exists []. rewrite app_nil_r. auto.
  - eapply fed_only_by_log_trans; [apply act_fed_only | apply IH].
Qed.

(** ** Estimation snapshots *)

(** [send_estimation] returns, having sent once, and what it sent is
    the snapshot it returns. *)
Lemma send_estimation_sends (event : Event) (est : Estimation) (rank : Z) (s : St) :
  avg_concurrent_process_time (queue s) = None
  \/ (is_Some (avg_process_time (queue s)) /\ in_float_range rank) ->
  exists s' est' delivered,
    send_estimation event est rank s = (s', Done est')
    /\ trace s' = trace s ++ [ESend event (MsgEstimation est') delivered]
    /\ queue_eta est' = queue_eta est
    /\ avg_event_process_time est' = avg_event_process_time est
    /\ avg_event_concurrent_process_time est'
       = avg_event_concurrent_process_time est
    /\ rank_eta est'
       = match avg_concurrent_process_time (queue s), avg_process_time (queue s) with
         | Some c, Some a =>
             Some (PyFloat
                     (if py_in None (active_jobs (queue s))
                      then float_add (float_mul (float_of_Z rank) c) a
                      else float_add (float_add (float_mul (float_of_Z rank) c) a) c))
         | _, _ => rank_eta est
         end.
Proof.
  intros Hok.
  assert (Hsend : forall est0 : Estimation,
            exists s' delivered,
              (client_awake <- send_message event (MsgEstimation est0) ;;
               (if negb client_awake then clean_event event else ret tt) ;;
               ret est0) s = (s', Done est0)
              /\ trace s' = trace s ++ [ESend event (MsgEstimation est0) delivered]).
  { intros est0.
    destruct (send_message_spec event (MsgEstimation est0) s)
      as (s1 & sent & delivered & Hs & Et & _).
    rewrite (bind_done _ _ _ _ _ Hs).
    destruct sent; simpl.
    - exists s1, delivered. split; [reflexivity | exact Et].
    - destruct (clean_event_done event s1) as [q' Hc].
      unfold bind at 1. rewrite Hc. exists (set_queue q' s1), delivered.
      split; [reflexivity | exact Et]. }
  unfold send_estimation.
  remember (fun est0 : Estimation =>
              client_awake <- send_message event (MsgEstimation est0) ;;
              (if negb client_awake then clean_event event else ret tt) ;;
              ret est0) as K eqn:HK.
  assert (HsendK : forall est0, exists s' delivered,
             K est0 s = (s', Done est0)
             /\ trace s' = trace s ++ [ESend event (MsgEstimation est0) delivered])
    by (subst K; exact Hsend).
  clear Hsend HK. unfold bind, gets, or_raise, ret. simpl.
  destruct (avg_concurrent_process_time (queue s)) as [c|] eqn:Hc.
  - destruct Hok as [Hok | [[a Ha] Hrank]]; [discriminate|].
    rewrite (py_float_in_range rank s Hrank), Ha.
    destruct (py_in None (active_jobs (queue s))); simpl;
      match goal with |- context [K ?e s] =>
        destruct (HsendK e) as (s' & delivered & Hrun & Et)
      end;
      rewrite Hrun; eexists _, _, delivered; (split; [reflexivity|]);
      (split; [exact Et|]); repeat split; reflexivity.
  - destruct (HsendK (set_rank (Some rank) est)) as (s' & delivered & Hrun & Et).
    rewrite Hrun. eexists _, _, delivered. split; [reflexivity|].
    split; [exact Et|]. repeat split; reflexivity.
Qed.

(** Claim C9, amended. As long as no cycle has fed the estimator, the
    snapshot that [get_estimation] produces, and that [send_estimation]
    sends to a client, has [avg_event_process_time],
    [avg_event_concurrent_process_time] and [rank_eta] absent ([None]),
    while [queue_eta], which is not optional, is the number 1 that
    [queue_duration] is initialised to. *)
Theorem estimation_before_first_cycle (live_updates : bool)
    (concurrency_count data_gathering_start update_intervals : Z)
    (max_size : option Z) (blocks_dependencies : list Dependency)
    (w : World) (actions : list Action) :
  let s := run actions
             (started (init live_updates concurrency_count data_gathering_start
                            update_intervals max_size blocks_dependencies) w) in
  feeds (trace s) = [] ->
  exists e,
    get_estimation (queue s) = (queue s, Done e)
    /\ avg_event_process_time e = None
    /\ avg_event_concurrent_process_time e = None
    /\ rank_eta e = None
    /\ queue_eta e = 1
    /\ forall event rank,
         exists s' e' delivered,
           send_estimation event e rank s = (s', Done e')
           /\ trace s' = trace s ++ [ESend event (MsgEstimation e') delivered]
           /\ avg_event_process_time e' = None
           /\ avg_event_concurrent_process_time e' = None
           /\ rank_eta e' = None
           /\ queue_eta e' = 1.
Proof.
  intros s Hfeeds.
  destruct (run_fed_only actions
              (started (init live_updates concurrency_count data_gathering_start
                             update_intervals max_size blocks_dependencies) w))
    as (t & Et & Hsame).
  fold s in Et, Hsame. simpl in Et. rewrite Et in Hfeeds.
  specialize (Hsame Hfeeds). unfold estimator, estimation in Hsame. simpl in Hsame.
  injection Hsame as Htotal Hcount Havg Hconc Hduration Hlimit.
  rewrite get_estimation_eq, Hduration, Havg, Hconc.
  change (py_int_of_float (float_of_Z 1)) with (Some 1).
  eexists. split; [reflexivity|].
  split; [reflexivity|]. split; [reflexivity|]. split; [reflexivity|].
  split; [reflexivity|].
  intros event rank.
  match goal with |- context [send_estimation event ?e0 rank s] =>
    destruct (send_estimation_sends event e0 rank s (or_introl Hconc))
      as (s' & e' & delivered & Hrun & Es & Hq & Ha & Hc & Hr)
  end.
  exists s', e', delivered. split; [exact Hrun|]. split; [exact Es|].
  rewrite Hconc in Hr. simpl in *. rewrite Ha, Hc, Hr, Hq. auto.
Qed.

Lemma update_estimation_done (d : float) (q0 q1 : Queue) :
  update_estimation d q0 = (q1, Done tt) ->
  exists c,
    avg_concurrent_process_time q1 = Some c
    /\ queue_duration q1 = float_mul c (float_of_Z (Z.of_nat (length (event_queue q0)))).
Proof.
  update_cases; try discriminate.
  intros [= <-]. simpl. eauto.
Qed.

(** Claim C8, amended. After [update_estimation] has returned, at the
    end of a cycle whose last answer had status 200, and until it is
    called again, the [queue_eta] of every snapshot that
    [get_estimation] produces is the integer part of the float product
    of [avg_concurrent_process_time] and the length the queue had when
    [update_estimation] ran (the stored [queue_duration]), whatever its
    length when the snapshot is produced; when that product is an
    infinity or a NaN, [get_estimation] raises instead. *)
Theorem queue_eta_of_last_update (d : float) (q0 q1 : Queue) (s : St)
    (actions : list Action) (t : list effect) :
  update_estimation d q0 = (q1, Done tt) ->
  estimation (queue s) = estimation q1 ->
  queue_duration (queue s) = queue_duration q1 ->
  trace (run actions s) = trace s ++ t ->
  feeds t = [] ->
  exists c,
    avg_concurrent_process_time (queue (run actions s)) = Some c
    /\ match py_int_of_float
               (float_mul c (float_of_Z (Z.of_nat (length (event_queue q0))))) with
       | Some eta =>
           exists e,
             get_estimation (queue (run actions s)) = (queue (run actions s), Done e)
             /\ queue_eta e = eta
       | None =>
           get_estimation (queue (run actions s))
           = (queue (run actions s), Raised ValueError)
       end.
Proof.
  intros Hupdate Hest Hduration Et Hfeeds.
  destruct (update_estimation_done d q0 q1 Hupdate) as (c & Hc & Hd).
  destruct (run_fed_only actions s) as (t' & Et' & Hsame).
  rewrite Et in Et'. apply app_inv_head in Et'. subst t'.
  specialize (Hsame Hfeeds). unfold estimator, estimation in Hsame, Hest.
  injection Hsame as _ _ _ Hconc Hdur _. injection Hest as _ _ _ Hconc1.
  exists c. split; [congruence|].
  rewrite get_estimation_eq, Hdur, Hduration, Hd.
  destruct (py_int_of_float _); [eexists; split; reflexivity | reflexivity].
Qed.

(** * The scenarios, checked *)

(** ** Admission *)

Lemma push_rank_or_full_witness :
  push (client 3 0) (set_event_queue [client 1 0; client 2 0] plain_queue)
  = (set_event_queue [client 1 0; client 2 0; client 3 0] plain_queue, Done (Some 2))
  /\ push (client 3 0) (set_event_queue [client 1 0; client 2 0] small_queue)
     = (set_event_queue [client 1 0; client 2 0] small_queue, Done None).
Proof.
  split.
  - apply (proj1 (push_rank_or_full
                    (set_event_queue [client 1 0; client 2 0] plain_queue)
                    (client 3 0))).
    left. reflexivity.
  - apply (proj2 (push_rank_or_full
                    (set_event_queue [client 1 0; client 2 0] small_queue)
                    (client 3 0)) 2); [reflexivity | simpl; lia].
Defined.

(** ** Batch formation *)

Lemma get_events_in_batch_batched_witness :
  (exists picked remaining,
     get_events_in_batch batching_queue
     = (set_event_queue remaining batching_queue,
        Done (Some (client 1 5 :: picked), true))
     /\ picked = [client 2 5]
     /\ sublist remaining [client 2 5; client 3 5])
  /\ get_events_in_batch plain_queue = (plain_queue, Done (None, false)).
Proof.
  split.
  - destruct (proj1 (get_events_in_batch_batched batching_queue)
                (client 1 5) [client 2 5; client 3 5] 5 2
                {| dep_batch := true; dep_max_batch_size := 2 |})
      as (picked & remaining & Hrun & Hpicked & _ & _ & _ & Hrem & _);
      [reflexivity | reflexivity | reflexivity | reflexivity | reflexivity | lia |].
    exists picked, remaining. split; [exact Hrun|]. split; [exact Hpicked | exact Hrem].
  - apply (proj2 (get_events_in_batch_batched plain_queue)). reflexivity.
Defined.

(** ** Slots *)

(** Claim C1. A batch dispatched into the first slot, whose task is
    cancelled while [process_events] awaits [event.disconnect()] in its
    [finally] block, on Python 3.8 or later: the [CancelledError] is no
    [Exception], so it passes the [except Exception] around the close
    and ends the call before the slot table is written; the prediction
    has been relayed and the estimator fed, but the cell still holds
    the batch, and no iterator is reset. On Python 3.7, where the error
    is an [Exception], the same run frees the cell. *)
Lemma cancelled_close_keeps_slot :
  let cancelled := process_events false [client 1 0] false three_legs cancelled_at_close in
  let legacy := process_events true [client 1 0] false three_legs cancelled_at_close in
  active_jobs (queue cancelled_at_close) = [Some [client 1 0]; None]
  /\ snd cancelled = Raised CancelledError
  /\ cancelled_closes (trace (fst cancelled)) = [client 1 0]
  /\ length (feeds (trace (fst cancelled))) = 1%nat
  /\ active_jobs (queue (fst cancelled)) = [Some [client 1 0]; None]
  /\ releases (trace (fst cancelled)) = []
  /\ resets (trace (fst cancelled)) = []
  /\ snd legacy = Done tt
  /\ active_jobs (queue (fst legacy)) = [None; None]
  /\ releases (trace (fst legacy)) = [0%nat].
Proof.
  cbv zeta. repeat split; vm_compute; reflexivity.
Qed.


(** ** Streaming *)

Lemma streamed_prediction_messages_witness :
  sent_to (client 1 0) (trace one_processed)
  = [MsgProcessGenerating (json (answer true "a" 200)) true;
     MsgProcessGenerating (json (answer true "b" 200)) true;
     MsgProcessCompleted (OJson (json (answer true "b" 200))) true].
Proof.
  refine (proj2 (streamed_prediction_messages false [client 1 0] false three_legs
                   one_dispatched one_processed
                   (snd (process_events false [client 1 0] false three_legs
                           one_dispatched))
                   (trace one_processed)
                   (float_of_Z 5) (float_of_Z 5) (float_of_Z 5)
                   (answer true "a" 200) (answer true "b" 200) (answer false "c" 200)
                   {| j_is_generating := false; j_data := Some (VList [VStr "c"]) |}
                   _ _ _ _ _ _) (client 1 0) _).
  - vm_compute. reflexivity.
  - vm_compute. reflexivity.
  - vm_compute. reflexivity.
  - reflexivity.
  - reflexivity.
  - apply (bool_decide_unpack _). vm_compute. exact I.
  - apply (bool_decide_unpack _). vm_compute. exact I.
Defined.

(** The completion message of a streamed prediction is not made from
    the last response: here the third response has payload ["c"] and
    status 500, and the client is told ["b"] and success. *)
Lemma completion_not_from_last_response :
  snd <$> answers (trace one_failed)
  = [answer true "a" 200; answer true "b" 200; answer false "c" 500]
  /\ last (sent_to (client 1 0) (trace one_failed))
     = Some (MsgProcessCompleted (OJson (json (answer true "b" 200))) true)
  /\ last (sent_to (client 1 0) (trace one_failed))
     <> Some (MsgProcessCompleted (OJson (json (answer false "c" 500)))
                                  (status_ok (answer false "c" 500))).
Proof.
  split; [vm_compute; reflexivity|]. split; [vm_compute; reflexivity|].
  vm_compute. discriminate.
Qed.

(** ** Estimation *)

Lemma estimation_fed_by_ok_cycle_witness :
  exists t,
    trace one_processed = trace one_dispatched ++ t
    /\ ((feeds t = [] /\ estimation (queue one_processed)
                         = estimation (queue one_dispatched))
        \/ exists d latency final,
             feeds t = [d]
             /\ last (answers t) = Some (latency, final)
             /\ status final = Some 200
             /\ d = latency_of (now (world one_dispatched)) t
             /\ estimation (queue one_processed)
                = estimation (fst (update_estimation d (queue one_dispatched)))).
Proof.
  apply (proj1 estimation_fed_by_ok_cycle false [client 1 0] false three_legs
           one_dispatched one_processed
           (snd (process_events false [client 1 0] false three_legs one_dispatched))).
  vm_compute. reflexivity.
Defined.

(** A streaming cycle of three legs of five seconds each feeds the
    estimator with fifteen seconds, not with the five of its last leg. *)
Lemma duration_spans_all_legs :
  feeds (trace one_processed) = [float_of_Z 15]
  /\ last (answers (trace one_processed)) = Some (float_of_Z 5, answer false "c" 200)
  /\ float_of_Z 15 <> float_of_Z 5.
Proof.
  split; [vm_compute; reflexivity|]. split; [vm_compute; reflexivity|].
  vm_compute. discriminate.
Qed.

(** Durations of 0.1, 0.2 and 0.3 seconds on two slots: the total is
    0.6000000000000001, the average 0.20000000000000004 and the
    concurrent average 0.10000000000000002. *)
Lemma update_estimation_averages_witness :
  tenths 1 = S754_finite false 7205759403792794 (-56)
  /\ tenths 2 = S754_finite false 7205759403792794 (-55)
  /\ tenths 3 = S754_finite false 5404319552844595 (-54)
  /\ float_sum [tenths 1; tenths 2; tenths 3] = S754_finite false 5404319552844596 (-53)
  /\ exists q',
       for_each [tenths 1; tenths 2; tenths 3] update_estimation plain_queue
       = (q', Done tt)
       /\ avg_process_time q' = Some (S754_finite false 7205759403792795 (-55))
       /\ avg_concurrent_process_time q'
          = Some (S754_finite false 7205759403792795 (-56)).
Proof.
  split; [vm_compute; reflexivity|]. split; [vm_compute; reflexivity|].
  split; [vm_compute; reflexivity|]. split; [vm_compute; reflexivity|].
  destruct (update_estimation_averages plain_queue [tenths 1; tenths 2; tenths 3])
    as (q' & avg & Hrun & Havg & Ha & Hc).
  - reflexivity.
  - reflexivity.
  - simpl. lia.
  - vm_compute. reflexivity.
  - vm_compute. reflexivity.
  - discriminate.
  - vm_compute. reflexivity.
  - exists q'. split; [exact Hrun|]. subst avg.
    split; [rewrite Ha | rewrite Hc]; vm_compute; reflexivity.
Defined.

Lemma update_estimation_same_sample_witness :
  exists q1 q2,
    update_estimation (float_of_Z 4) plain_queue = (q1, Done tt)
    /\ avg_process_time q1 = Some (float_of_Z 4)
    /\ avg_concurrent_process_time q1 = Some (float_of_Z 4)
    /\ update_estimation (float_of_Z 4) q1 = (q2, Done tt)
    /\ avg_process_time q2 = Some (float_of_Z 4)
    /\ avg_concurrent_process_time q2 = Some (float_of_Z 2).
Proof.
  destruct (update_estimation_same_sample plain_queue (float_of_Z 4))
    as (q1 & q2 & H1 & Ha1 & Hc1 & H2 & Ha2 & _ & _ & Hc2).
  - reflexivity.
  - reflexivity.
  - simpl. lia.
  - vm_compute. reflexivity.
  - vm_compute. reflexivity.
  - vm_compute. reflexivity.
  - vm_compute. reflexivity.
  - vm_compute. reflexivity.
  - vm_compute. discriminate.
  - exists q1, q2. repeat split; try assumption.
    rewrite Hc2 by (simpl; lia). vm_compute. reflexivity.
Defined.

(** With two slots, feeding four seconds a second time halves
    [avg_concurrent_process_time]. (And a duration whose double is
    beyond the floats, fed twice, leaves an infinite average.) *)
Lemma second_sample_changes_concurrent_average :
  max_thread_count plain_queue = 2
  /\ avg_process_time fed_once = Some (float_of_Z 4)
  /\ avg_process_time fed_twice = Some (float_of_Z 4)
  /\ avg_concurrent_process_time fed_once = Some (float_of_Z 4)
  /\ avg_concurrent_process_time fed_twice = Some (float_of_Z 2)
  /\ avg_concurrent_process_time fed_twice <> avg_concurrent_process_time fed_once
  /\ (let huge := float_of_Z (2 ^ 1023) in
      is_finite huge = true
      /\ avg_process_time
           (fst (update_estimation huge (fst (update_estimation huge plain_queue))))
         = Some (S754_infinity false)).
Proof.
  split; [reflexivity|].
  split; [vm_compute; reflexivity|]. split; [vm_compute; reflexivity|].
  split; [vm_compute; reflexivity|]. split; [vm_compute; reflexivity|].
  split; [vm_compute; discriminate|].
  split; vm_compute; reflexivity.
Qed.

(** ** Snapshots *)

Lemma queue_eta_of_last_update_witness :
  exists c,
    avg_concurrent_process_time (queue late_arrivals) = Some c
    /\ match py_int_of_float
               (float_mul c (float_of_Z
                               (Z.of_nat (length (event_queue
                                                    (set_event_queue [client 1 0]
                                                       plain_queue)))))) with
       | Some eta =>
           exists e,
             get_estimation (queue late_arrivals) = (queue late_arrivals, Done e)
             /\ queue_eta e = eta
       | None =>
           get_estimation (queue late_arrivals)
           = (queue late_arrivals, Raised ValueError)
       end.
Proof.
  apply (queue_eta_of_last_update one_and_a_half
           (set_event_queue [client 1 0] plain_queue)
           (queue half_seconds) half_seconds
           [APush (client 2 0); APush (client 3 0)] []).
  - vm_compute. reflexivity.
  - reflexivity.
  - reflexivity.
  - vm_compute. reflexivity.
  - reflexivity.
Defined.

(** A cycle of a second and a half completed while one client was
    waiting, then two more were admitted: the snapshot tells the three
    of them a [queue_eta] of 1, the integer part of 1.5 times the one
    client of then, not 1.5 times the three of now, which is 4.5. *)
Lemma queue_eta_is_stale :
  length (event_queue (queue late_arrivals)) = 3%nat
  /\ avg_concurrent_process_time (queue late_arrivals) = Some one_and_a_half
  /\ (exists e,
        get_estimation (queue late_arrivals) = (queue late_arrivals, Done e)
        /\ queue_size e = 3
        /\ queue_eta e = 1)
  /\ py_int_of_float (float_mul one_and_a_half (float_of_Z 1)) = Some 1
  /\ float_mul one_and_a_half (float_of_Z 3) = S754_finite false 5066549580791808 (-50)
  /\ py_int_of_float (float_mul one_and_a_half (float_of_Z 3)) = Some 4.
Proof.
  split; [vm_compute; reflexivity|].
  split; [vm_compute; reflexivity|].
  split; [eexists; split; [vm_compute; reflexivity | split; reflexivity]|].
  split; [vm_compute; reflexivity|].
  split; vm_compute; reflexivity.
Qed.

Lemma estimation_before_first_cycle_witness :
  exists e,
    get_estimation (queue never_processed) = (queue never_processed, Done e)
    /\ avg_event_process_time e = None
    /\ avg_event_concurrent_process_time e = None
    /\ rank_eta e = None
    /\ queue_eta e = 1.
Proof.
  destruct (estimation_before_first_cycle false 2 1 1 None
              [ {| dep_batch := false; dep_max_batch_size := 4 |} ] calm_world
              [APush (client 1 0); APush (client 2 0); ABroadcast])
    as (e & Hrun & Havg & Hconc & Hrank & Heta & _).
  - vm_compute. reflexivity.
  - exists e. repeat split; assumption.
Defined.

(** Before any cycle has completed, [queue_eta] is reported as the
    number 1: in the snapshot that [get_estimation] produces and in
    the two estimation messages of the broadcast. *)
Lemma queue_eta_reported_before_first_cycle :
  feeds (trace never_processed) = []
  /\ (exists e, get_estimation (queue never_processed) = (queue never_processed, Done e)
                /\ queue_eta e = 1)
  /\ omap (fun e => match e with
                    | ESend _ (MsgEstimation est) _ => Some (queue_eta est, rank_eta est)
                    | _ => None
                    end) (trace never_processed)
     = [(1, None); (1, None)].
Proof.
  split; [vm_compute; reflexivity|].
  split; [eexists; split; [vm_compute; reflexivity | reflexivity]|].
  vm_compute. reflexivity.
Qed.

(** Claim C10. After one cycle of a second and a half, with a free
    slot, the estimation that a broadcast sends to the client at rank 0
    carries [queue_eta = 1], the integer part of the 1.5 seconds that
    were computed, and [rank_eta = 1.5]: the float itself, fraction
    included, in the field that the model declares as an optional
    [int]. *)
Lemma rank_eta_sent_as_float :
  one_and_a_half = S754_finite false 6755399441055744 (-52)
  /\ queue_duration (queue half_seconds) = one_and_a_half
  /\ py_in None (active_jobs (queue half_seconds)) = true
  /\ half_snapshot
     = Some (MsgEstimation
               {| rank := Some 0;
                  queue_size := 1;
                  avg_event_process_time := Some one_and_a_half;
                  avg_event_concurrent_process_time := Some one_and_a_half;
                  rank_eta := Some (PyFloat one_and_a_half);
                  queue_eta := 1 |})
  /\ py_int (PyFloat one_and_a_half) = Some 1
  /\ PyFloat one_and_a_half <> PyInt 1.
Proof.
  split; [vm_compute; reflexivity|]. split; [vm_compute; reflexivity|].
  split; [vm_compute; reflexivity|]. split; [vm_compute; reflexivity|].
  split; [vm_compute; reflexivity | discriminate].
Qed.

(** * Dispatch, slots and the estimator at their edges *)

Lemma worker_count_from (jobs : list (option (list Event))) (n : Z) :
  fold_left (fun count worker =>
               match worker with
               | Some _ => count + 1
               | None => count
               end) jobs n
  = n + Z.of_nat (length (busy jobs)).
Proof.
  revert n. induction jobs as [|[w|] jobs IH]; intros n; simpl.
  - lia.
  - rewrite IH. unfold busy. simpl. lia.
  - rewrite IH. unfold busy. simpl. lia.
Qed.

Lemma worker_count_busy (q : Queue) :
  get_active_worker_count q = Z.of_nat (length (busy (active_jobs q))).
Proof. unfold get_active_worker_count. rewrite worker_count_from. lia. Qed.

Lemma busy_cons (w : option (list Event)) (jobs : list (option (list Event))) :
  busy (w :: jobs) = match w with
                     | Some events => events :: busy jobs
                     | None => busy jobs
                     end.
Proof. destruct w; reflexivity. Qed.

Lemma busy_length (jobs : list (option (list Event))) :
  (length (busy jobs) <= length jobs)%nat.
Proof.
  induction jobs as [|[w|] jobs IH]; [reflexivity | rewrite busy_cons ..]; simpl; lia.
Qed.

Lemma free_cell_busy (jobs : list (option (list Event))) :
  py_in None jobs = bool_decide (length (busy jobs) < length jobs)%nat.
Proof.
  unfold py_in. induction jobs as [|[w|] jobs IH].
  - rewrite bool_decide_false by (intros H; inversion H).
    rewrite bool_decide_false by (simpl; lia). reflexivity.
  - transitivity (bool_decide (None ∈ jobs)).
    + apply bool_decide_ext. rewrite elem_of_cons.
      split; [intros [|]; [discriminate | assumption] | auto].
    + rewrite IH. apply bool_decide_ext. rewrite busy_cons. simpl. lia.
  - rewrite bool_decide_true by (apply elem_of_cons; auto).
    pose proof (busy_length jobs) as Hle.
    rewrite bool_decide_true; [reflexivity|]. rewrite busy_cons. simpl. lia.
Qed.

Lemma busy_claim (jobs : list (option (list Event))) (i : nat) (evs : list Event) :
  jobs !! i = Some None ->
  length (busy (<[i := Some evs]> jobs)) = S (length (busy jobs)).
Proof.
  revert i. induction jobs as [|w jobs IH]; intros i H; [destruct i; discriminate|].
  destruct i as [|i]; simpl in H.
  - injection H as ->. reflexivity.
  - specialize (IH i H).
    change (<[S i := Some evs]> (w :: jobs)) with (w :: <[i := Some evs]> jobs).
    rewrite !busy_cons. destruct w; simpl; lia.
Qed.

Lemma busy_release (jobs : list (option (list Event))) (i : nat) (evs : list Event) :
  jobs !! i = Some (Some evs) ->
  S (length (busy (<[i := None]> jobs))) = length (busy jobs).
Proof.
  revert i. induction jobs as [|w jobs IH]; intros i H; [destruct i; discriminate|].
  destruct i as [|i]; simpl in H.
  - injection H as ->. reflexivity.
  - specialize (IH i H).
    change (<[S i := None]> (w :: jobs)) with (w :: <[i := None]> jobs).
    rewrite !busy_cons. destruct w; simpl; lia.
Qed.

(** Property X1. [get_active_worker_count] is the number of cells of
    the slot table that hold a batch: it lies between zero and the size
    of the table, and it is below that size exactly when
    [None in self.active_jobs], the test that the dispatcher and
    [send_estimation] make for a free slot. *)
Theorem worker_count_bounds (q : Queue) :
  get_active_worker_count q = Z.of_nat (length (busy (active_jobs q)))
  /\ 0 <= get_active_worker_count q <= Z.of_nat (length (active_jobs q))
  /\ py_in None (active_jobs q)
     = bool_decide (get_active_worker_count q < Z.of_nat (length (active_jobs q))).
Proof.
  rewrite worker_count_busy. pose proof (busy_length (active_jobs q)).
  split; [reflexivity|]. split; [lia|].
  rewrite free_cell_busy. apply bool_decide_ext. lia.
Qed.

(** ** Dispatch *)

Lemma py_slice_to_take {A} (l : list A) (n : Z) : exists k, py_slice_to l n = take k l.
Proof. unfold py_slice_to. destruct (decide (0 <= n)); eexists; reflexivity. Qed.

Lemma get_events_in_batch_some (q q1 : Queue) (events : list Event) (batch : bool) :
  get_events_in_batch q = (q1, Done (Some events, batch)) ->
  exists front rest remaining,
    event_queue q = front :: rest
    /\ q1 = set_event_queue remaining q
    /\ head events = Some front
    /\ Forall (fun e => fn_index e = fn_index front) events
    /\ events ++ remaining ≡ₚ event_queue q
    /\ sublist events (event_queue q)
    /\ sublist remaining rest
    /\ (batch = false -> events = [front] /\ remaining = rest).
Proof.
  unfold get_events_in_batch. step_monad.
  destruct (event_queue q) as [|front rest] eqn:Hq; simpl; [discriminate|].
  destruct (fn_index front) as [i|] eqn:Hfn; simpl; [|discriminate].
  destruct (py_getitem (blocks_dependencies q) i) as [dep|]; simpl; [|discriminate].
  destruct (dep_batch dep) eqn:Hbatch; simpl.
  - set (P := fun e : Event => fn_index e = Some i).
    destruct (py_slice_to_take (filter P rest) (dep_max_batch_size dep - 1)) as [k ->].
    erewrite for_each_remove by (simpl; apply remove_all_take_filter). simpl.
    intros [= <- <- <-].
    exists front, rest, (drop_matching P k rest).
    split; [reflexivity|]. split; [reflexivity|]. split; [reflexivity|].
    split.
    { constructor; [reflexivity|].
      apply Forall_take, list.Forall_forall. intros y Hy.
      apply list_elem_of_filter in Hy. rewrite Hfn. apply Hy. }
    split; [simpl; f_equiv; apply drop_matching_perm|].
    split; [apply sublist_skip, take_filter_sublist|].
    split; [apply drop_matching_sublist | discriminate].
  - intros [= <- <- <-].
    exists front, rest, rest.
    split; [reflexivity|]. split; [reflexivity|]. split; [reflexivity|].
    split; [constructor; [reflexivity | constructor]|].
    split; [reflexivity|].
    split; [apply sublist_skip, sublist_nil_l|].
    split; [reflexivity | auto].
Qed.

(** Property X2. A turn of the dispatcher that launches a batch found
    the queue running and not empty; the batch starts with the former
    front event, all its events target the endpoint of the front event,
    the batch and the events that stay are together a permutation of
    the former queue (no event is lost or duplicated, whatever the
    maximum batch size), the events that stay keep their order, the
    batch of an endpoint without batching is the front event alone, and
    the batch is stored in the first free cell, which raises the worker
    count by one. *)
Theorem dispatch_conserves_events (q q1 : Queue) (events : list Event) (batch : bool) :
  start_processing_step q = (q1, Done (Launch events batch)) ->
  exists front rest i,
    stopped q = false
    /\ event_queue q = front :: rest
    /\ head events = Some front
    /\ Forall (fun e => fn_index e = fn_index front) events
    /\ events ++ event_queue q1 ≡ₚ event_queue q
    /\ sublist events (event_queue q)
    /\ sublist (event_queue q1) rest
    /\ (batch = false -> events = [front] /\ event_queue q1 = rest)
    /\ py_index None (active_jobs q) = Some i
    /\ active_jobs q1 = <[i := Some events]> (active_jobs q)
    /\ get_active_worker_count q1 = get_active_worker_count q + 1.
Proof.
  intros Hstep.
  destruct (start_processing_step_launch _ _ _ _ Hstep) as (i & Hfree & Hjobs).
  revert Hstep. unfold start_processing_step. step_monad.
  destruct (stopped q) eqn:Hstopped; [discriminate|].
  destruct (event_queue q) as [|front0 rest0] eqn:Hq; [discriminate|].
  destruct (negb (py_in None (active_jobs q))); [discriminate|].
  destruct (get_events_in_batch q) as [q' [[[[|e es]|] b]|e|]] eqn:Hget; simpl;
    try discriminate.
  destruct (get_events_in_batch_some _ _ _ _ Hget)
    as (front & rest & remaining & Hq' & -> & Hhead & Hall & Hperm & Hsub & Hrem & Hplain).
  simpl. rewrite Hfree. simpl. intros [= <- <- <-].
  rewrite Hq in Hq'. injection Hq' as <- <-.
  exists front0, rest0, i. simpl.
  split; [reflexivity|]. split; [reflexivity|]. split; [exact Hhead|].
  split; [exact Hall|]. split; [rewrite Hq in Hperm; exact Hperm|].
  split; [rewrite Hq in Hsub; exact Hsub|]. split; [exact Hrem|].
  split; [exact Hplain|]. split; [reflexivity|]. split; [reflexivity|].
  rewrite !worker_count_busy. simpl.
  rewrite (busy_claim _ _ _ (py_index_lookup _ _ _ Hfree)). lia.
Qed.

Lemma py_getitem_out_of_range {A} (l : list A) (i : Z) :
  Z.of_nat (length l) <= i \/ i < - Z.of_nat (length l) -> py_getitem l i = None.
Proof.
  intros Hi. unfold py_getitem.
  destruct (decide (0 <= i)).
  - apply lookup_ge_None. lia.
  - destruct (decide (0 <= Z.of_nat (length l) + i)); [lia | reflexivity].
Qed.

(** Property X3. When the front event names no endpoint ([fn_index]
    is [None]) or one outside [blocks_dependencies],
    [get_events_in_batch], and with it the turn of the dispatcher,
    raises ([TypeError], [IndexError]) after the event was popped: the
    event has left the queue, no slot is taken and nothing else is
    written. *)
Theorem dispatch_drops_unroutable (q : Queue) (front : Event) (rest : list Event) :
  stopped q = false ->
  event_queue q = front :: rest ->
  py_in None (active_jobs q) = true ->
  (fn_index front = None ->
   get_events_in_batch q = (set_event_queue rest q, Raised TypeError)
   /\ start_processing_step q = (set_event_queue rest q, Raised TypeError))
  /\ (forall i,
        fn_index front = Some i ->
        Z.of_nat (length (blocks_dependencies q)) <= i
        \/ i < - Z.of_nat (length (blocks_dependencies q)) ->
        get_events_in_batch q = (set_event_queue rest q, Raised IndexError)
        /\ start_processing_step q = (set_event_queue rest q, Raised IndexError)).
Proof.
  intros Hrun Hq Hfree. split.
  - intros Hfn.
    assert (Hget : get_events_in_batch q = (set_event_queue rest q, Raised TypeError)).
    { unfold get_events_in_batch. step_monad. rewrite Hq. simpl. rewrite Hfn. reflexivity. }
    split; [exact Hget|].
    unfold start_processing_step. step_monad. rewrite Hrun, Hq, Hfree. simpl.
    rewrite Hget. reflexivity.
  - intros i Hfn Hi.
    assert (Hget : get_events_in_batch q = (set_event_queue rest q, Raised IndexError)).
    { unfold get_events_in_batch. step_monad. rewrite Hq. simpl. rewrite Hfn. simpl.
      rewrite (py_getitem_out_of_range _ _ Hi). reflexivity. }
    split; [exact Hget|].
    unfold start_processing_step. step_monad. rewrite Hrun, Hq, Hfree. simpl.
    rewrite Hget. reflexivity.
Qed.

Lemma start_processing_step_full (q : Queue) :
  py_in None (active_jobs q) = false ->
  start_processing_step q = (q, Done (if stopped q then Exit else Sleep)).
Proof.
  intros Hfull. unfold start_processing_step. step_monad.
  destruct (stopped q); [reflexivity|].
  destruct (event_queue q); [reflexivity|].
  rewrite Hfull. reflexivity.
Qed.

(** Property X4. While no cell of the slot table is free, a turn of
    the dispatcher leaves the queue object as it is, waiting events
    included: it leaves the loop when the queue is stopped and sleeps
    otherwise. *)
Theorem dispatch_waits_for_free_slot (q : Queue) :
  py_in None (active_jobs q) = false ->
  start_processing_step q = (q, Done (if stopped q then Exit else Sleep)).
Proof. apply start_processing_step_full. Qed.

(** Property X5. [close] only sets the flag that ends the loop of
    the dispatcher: [push] on a closed queue accepts or rejects as on
    an open one (push and close commute), the next turn of the
    dispatcher exits without touching the queue, closing twice is
    closing once, and [resume] after [close] is [resume]. *)
Theorem closed_queue_still_accepts (q : Queue) (event : Event) :
  push event (fst (close q)) = (fst (close (fst (push event q))), snd (push event q))
  /\ start_processing_step (fst (close q)) = (fst (close q), Done Exit)
  /\ fst (close (fst (close q))) = fst (close q)
  /\ fst (resume (fst (close q))) = fst (resume q).
Proof.
  split; [|split; [|split]]; try reflexivity.
  unfold push, close. step_monad.
  destruct (max_size q) as [m|]; [|reflexivity].
  destruct (bool_decide (Z.of_nat (length (event_queue q)) >= m)); reflexivity.
Qed.

(** ** Estimator *)

(** Property X7. On a queue with [max_thread_count = 0],
    [update_estimation] raises [ZeroDivisionError] at its second
    division, after it has written the total, the count and
    [avg_process_time]: [avg_concurrent_process_time] and
    [queue_duration] keep their former values. (With a count that no
    float can hold, the first division raises [OverflowError] instead,
    after the total and the count were written.) *)
Theorem update_estimation_without_threads (d : float) (q : Queue) :
  0 <= duration_history_count q ->
  max_thread_count q = 0 ->
  let total := float_add (duration_history_total q) d in
  let count := duration_history_count q + 1 in
  update_estimation d q
  = if is_finite (float_of_Z count)
    then (set_avg_process_time (Some (float_div total (float_of_Z count)))
            (set_duration_history_count count (set_duration_history_total total q)),
          Raised ZeroDivisionError)
    else (set_duration_history_count count (set_duration_history_total total q),
          Raised OverflowError).
Proof.
  intros Hcount Hlimit total count.
  unfold update_estimation, bind, modify, gets. simpl.
  unfold py_float at 1. fold count.
  destruct (is_finite (float_of_Z count)); [|reflexivity].
  unfold ret at 1. rewrite py_truediv_by by (unfold count; lia). simpl.
  rewrite Hlimit. replace (Z.min 0 count) with 0 by (unfold count; lia).
  reflexivity.
Qed.

(** ** What the tasks leave of the queue *)

Lemma only_leave_refl (s : St) : only_leave s s.
Proof. repeat split; reflexivity. Qed.

Lemma only_leave_trans (s1 s2 s3 : St) :
  only_leave s1 s2 -> only_leave s2 s3 -> only_leave s1 s3.
Proof.
  intros (L1 & C1 & S1) (L2 & C2 & S2). split; [|split; congruence].
  transitivity (event_queue (queue s2)); assumption.
Qed.

Lemma only_leave_queue (s s' : St) : queue s' = queue s -> only_leave s s'.
Proof. intros E. unfold only_leave. rewrite E. repeat split; reflexivity. Qed.

Lemma py_remove_sublist {A} `{EqDecision A} (x : A) (l l' : list A) :
  py_remove x l = Some l' -> sublist l' l.
Proof.
  revert l'. induction l as [|y l IH]; intros l'; simpl; [discriminate|].
  destruct (decide (y = x)).
  - intros [= <-]. apply sublist_cons. reflexivity.
  - destruct (py_remove x l) as [l1|]; simpl; [|discriminate].
    intros [= <-]. apply sublist_skip, IH. reflexivity.
Qed.

Lemma only_leave_remove (event : Event) :
  keeps only_leave (on_queue (event_queue_remove event)).
Proof.
  intros s. unfold on_queue, event_queue_remove. step_monad.
  destruct (py_remove event (event_queue (queue s))) as [l|] eqn:E; simpl.
  - split; [|split; reflexivity]. simpl. eapply py_remove_sublist, E.
  - apply only_leave_queue. reflexivity.
Qed.

Lemma update_estimation_settings (d : float) (q : Queue) :
  let q' := fst (update_estimation d q) in
  event_queue q' = event_queue q
  /\ settings q' = settings q
  /\ stopped q' = stopped q
  /\ active_jobs q' = active_jobs q.
Proof.
  update_cases; repeat split; reflexivity.
Qed.

Lemma only_leave_update (d : float) : keeps only_leave (on_queue (update_estimation d)).
Proof.
  intros s. unfold on_queue.
  pose proof (update_estimation_settings d (queue s)) as (E & C & S & _).
  destruct (update_estimation d (queue s)) as [q' r]. simpl in *.
  split; [simpl; rewrite E; reflexivity | split; simpl; assumption].
Qed.

Lemma only_leave_jobs (jobs : list (option (list Event))) :
  keeps only_leave (on_queue (modify (set_active_jobs jobs))).
Proof. intros s. repeat split; reflexivity. Qed.

Lemma only_leave_await (answer : option Leg) : keeps only_leave (await_answer answer).
Proof.
  intros s. destruct answer as [[e|latency r]|]; apply only_leave_queue; reflexivity.
Qed.

Ltac leave_side :=
  intros;
  first
    [ apply only_leave_refl
    | eapply only_leave_trans; eassumption
    | apply only_leave_remove
    | apply only_leave_update
    | apply only_leave_jobs
    | apply only_leave_await
    | reflexivity
    | (let s := fresh "s" in intros s; apply only_leave_queue; reflexivity) ].

Lemma process_events_only_leave legacy_python events batch legs :
  keeps only_leave (process_events legacy_python events batch legs).
Proof.
  unfold process_events.
  apply keeps_bind; try solve [leave_side].
  intros _. apply keeps_try_finally; try solve [leave_side].
  - apply keeps_process_events_body with (ok := any_effect); leave_side.
  - apply keeps_process_events_cleanup with (ok := any_effect); leave_side.
Qed.

Lemma broadcast_only_leave : keeps only_leave broadcast_estimations.
Proof. apply keeps_broadcast_estimations with (ok := any_effect); leave_side. Qed.

(** ** The slot table under the tasks *)

Lemma cleanup_without_slot (legacy_python : bool) (events : list Event) (s : St) :
  py_index (Some events) (active_jobs (queue s)) = None ->
  active_jobs (queue (fst (process_events_cleanup legacy_python events s))) = active_jobs (queue s).
Proof.
  intros Hnone. unfold process_events_cleanup.
  unfold bind at 1. simpl. unfold bind at 1.
  pose proof (disconnect_all_keeps_slots legacy_python (awake_events s) s) as [_ Hsame].
  unfold same in Hsame.
  destruct (disconnect_all legacy_python (awake_events s) s) as [s1 [[]|e|]];
    simpl in Hsame; try exact Hsame.
  unfold bind at 1. simpl. rewrite Hsame, Hnone. simpl. exact Hsame.
Qed.

Lemma process_events_slots legacy_python events batch legs (s : St) :
  active_jobs (queue (fst (process_events legacy_python events batch legs s)))
  = active_jobs (queue s)
  \/ exists i, py_index (Some events) (active_jobs (queue s)) = Some i
               /\ active_jobs (queue (fst (process_events legacy_python events batch legs s)))
                  = <[i := None]> (active_jobs (queue s)).
Proof.
  destruct (process_events legacy_python events batch legs s) as [s' r] eqn:Hrun. simpl.
  revert Hrun. unfold process_events. unfold bind at 1. simpl. unfold try_finally.
  pose proof (body_keeps_slots legacy_python events batch legs
                (set_awake_events [] s)) as [_ Hsame].
  unfold same in Hsame. simpl in Hsame.
  destruct (process_events_body legacy_python events batch legs (set_awake_events [] s))
    as [s1 rb]. simpl in Hsame.
  assert (Hclean : forall s2 rc, process_events_cleanup legacy_python events s1 = (s2, rc) ->
            active_jobs (queue s2) = active_jobs (queue s)
            \/ exists i, py_index (Some events) (active_jobs (queue s)) = Some i
                  /\ active_jobs (queue s2) = <[i := None]> (active_jobs (queue s))).
  { intros s2 rc Hc.
    destruct (py_index (Some events) (active_jobs (queue s1))) as [i|] eqn:Hidx.
    - destruct (cleanup_releases legacy_python events i s1 s2 rc Hidx Hc)
        as (_ & [(Hj & _) | (_ & _ & Hj & _)] & _).
      + right. exists i. rewrite <- Hsame. split; [exact Hidx | exact Hj].
      + left. congruence.
    - left. pose proof (cleanup_without_slot legacy_python events s1 Hidx) as Hw.
      rewrite Hc in Hw. simpl in Hw. congruence. }
  destruct rb as [[]|e|].
  - destruct (process_events_cleanup legacy_python events s1) as [s2 rc] eqn:Hc.
    specialize (Hclean s2 rc eq_refl).
    destruct rc as [[]|e|]; intros [= <- <-]; exact Hclean.
  - destruct (process_events_cleanup legacy_python events s1) as [s2 rc] eqn:Hc.
    specialize (Hclean s2 rc eq_refl).
    destruct rc as [[]|e'|]; intros [= <- <-]; exact Hclean.
  - intros [= <- <-]. left. exact Hsame.
Qed.

Lemma for_each_remove_sublist (picks : list Event) (q : Queue) :
  exists l, fst (for_each picks event_queue_remove q) = set_event_queue l q
            /\ sublist l (event_queue q).
Proof.
  revert q. induction picks as [|x picks IH]; intros q; simpl.
  - exists (event_queue q). split; [symmetry; apply set_event_queue_id | reflexivity].
  - unfold bind, event_queue_remove at 1. step_monad.
    destruct (py_remove x (event_queue q)) as [l1|] eqn:E; simpl.
    + destruct (IH (set_event_queue l1 q)) as (l & Hl & Hsub). simpl in Hsub.
      assert (Hsub' : sublist l (event_queue q))
        by (etransitivity; [exact Hsub | eapply py_remove_sublist, E]).
      destruct (for_each picks event_queue_remove (set_event_queue l1 q)) as [q' [[]| |]];
        simpl in *; exists l; split; assumption.
    + exists (event_queue q). split; [symmetry; apply set_event_queue_id | reflexivity].
Qed.

Lemma get_events_in_batch_sublist (q : Queue) :
  exists l, fst (get_events_in_batch q) = set_event_queue l q
            /\ sublist l (event_queue q).
Proof.
  unfold get_events_in_batch. step_monad.
  destruct (event_queue q) as [|front rest] eqn:Hq; simpl.
  { exists []. split; [|reflexivity]. rewrite <- Hq. symmetry. apply set_event_queue_id. }
  assert (Hrest : sublist rest (front :: rest)) by (apply sublist_cons; reflexivity).
  destruct (fn_index front) as [i|]; simpl; [|exists rest; split; [reflexivity | exact Hrest]].
  destruct (py_getitem (blocks_dependencies q) i) as [dep|]; simpl;
    [|exists rest; split; [reflexivity | exact Hrest]].
  destruct (dep_batch dep); simpl; [|exists rest; split; [reflexivity | exact Hrest]].
  match goal with
  | |- context [for_each ?picks event_queue_remove ?q0] =>
      destruct (for_each_remove_sublist picks q0) as (l & Hl & Hsub);
      destruct (for_each picks event_queue_remove q0) as [q' [[]| |]]
  end; simpl in *; exists l; (split; [exact Hl | etransitivity; eassumption]).
Qed.

Lemma start_processing_step_shape (q : Queue) :
  exists l jobs,
    fst (start_processing_step q) = set_active_jobs jobs (set_event_queue l q)
    /\ sublist l (event_queue q)
    /\ length jobs = length (active_jobs q).
Proof.
  assert (Hid : exists l jobs,
             q = set_active_jobs jobs (set_event_queue l q)
             /\ sublist l (event_queue q) /\ length jobs = length (active_jobs q)).
  { exists (event_queue q), (active_jobs q).
    split; [apply queue_rewritten | split; reflexivity]. }
  unfold start_processing_step. step_monad.
  destruct (stopped q); [exact Hid|].
  destruct (event_queue q) as [|front rest] eqn:Hq; [rewrite <- Hq; rewrite <- Hq in Hid; exact Hid|].
  destruct (negb (py_in None (active_jobs q))); [rewrite <- Hq; rewrite <- Hq in Hid; exact Hid|].
  destruct (get_events_in_batch_sublist q) as (l & Hl & Hsub). rewrite Hq in Hsub.
  assert (Hkeep : exists l0 jobs,
             set_event_queue l q = set_active_jobs jobs (set_event_queue l0 q)
             /\ sublist l0 (front :: rest) /\ length jobs = length (active_jobs q)).
  { exists l, (active_jobs q). split; [reflexivity | split; [exact Hsub | reflexivity]]. }
  destruct (get_events_in_batch q) as [q' [[[[|e es]|] b]|e|]]; simpl in *; subst q';
    try exact Hkeep.
  step_monad.
  destruct (py_index None (active_jobs q)) as [i|]; simpl; [|exact Hkeep].
  exists l, (<[i := Some (e :: es)]> (active_jobs q)).
  split; [reflexivity | split; [exact Hsub | apply length_insert]].
Qed.

Lemma push_shape (event : Event) (q : Queue) :
  exists l, fst (push event q) = set_event_queue l q
            /\ (l = event_queue q \/
                l = event_queue q ++ [event]
                /\ forall m, max_size q = Some m -> Z.of_nat (length (event_queue q)) < m).
Proof.
  unfold push. step_monad.
  destruct (max_size q) as [m|].
  - destruct (bool_decide (Z.of_nat (length (event_queue q)) >= m)) eqn:Hfull; simpl.
    + exists (event_queue q). split; [symmetry; apply set_event_queue_id | left; reflexivity].
    + eexists. split; [reflexivity|]. right. split; [reflexivity|].
      intros m' [= <-]. apply bool_decide_eq_false in Hfull. lia.
  - eexists. split; [reflexivity|]. right. split; [reflexivity | discriminate].
Qed.

(** What any action leaves: the settings, the size of the slot table,
    and, but for an admission, the order of the waiting events. *)
Lemma act_frame (a : Action) (s : St) :
  let s' := fst (act a s) in
  settings (queue s') = settings (queue s)
  /\ length (active_jobs (queue s')) = length (active_jobs (queue s))
  /\ match a with
     | APush event =>
         event_queue (queue s') = event_queue (queue s)
         \/ event_queue (queue s') = event_queue (queue s) ++ [event]
            /\ forall m, max_size (queue s) = Some m ->
                         Z.of_nat (length (event_queue (queue s))) < m
     | _ => sublist (event_queue (queue s')) (event_queue (queue s))
     end.
Proof.
  destruct a as [event| |legacy_python events batch legs| | |]; simpl.
  - unfold bind, on_queue. destruct (push event (queue s)) as [q' r] eqn:E.
    assert (q' = fst (push event (queue s))) as -> by (rewrite E; reflexivity).
    destruct (push_shape event (queue s)) as (l & -> & Hl).
    destruct r; simpl; (split; [reflexivity|]); (split; [reflexivity | exact Hl]).
  - unfold bind, on_queue.
    destruct (start_processing_step (queue s)) as [q' r] eqn:E.
    assert (q' = fst (start_processing_step (queue s))) as -> by (rewrite E; reflexivity).
    destruct (start_processing_step_shape (queue s)) as (l & jobs & -> & Hsub & Hlen).
    destruct r; simpl; (split; [reflexivity|]); (split; assumption).
  - pose proof (process_events_only_leave legacy_python events batch legs s)
      as (Hsub & Hset & _).
    split; [exact Hset|]. split; [|exact Hsub].
    destruct (process_events_slots legacy_python events batch legs s)
      as [-> | (i & _ & ->)]; [reflexivity | apply length_insert].
  - pose proof (broadcast_only_leave s) as (Hsub & Hset & _).
    split; [exact Hset|]. split; [|exact Hsub].
    assert (K : slots_kept s (fst (broadcast_estimations s))).
    { apply (keeps_broadcast_estimations slots_kept) with
        (ok := ok_both not_release any_effect);
        calm_side ltac:(intros; reflexivity). }
    destruct K as [_ K]. unfold same in K. rewrite K. reflexivity.
  - repeat split; reflexivity.
  - repeat split; reflexivity.
Qed.

Lemma run_frame (actions : list Action) (s : St) :
  settings (queue (run actions s)) = settings (queue s)
  /\ length (active_jobs (queue (run actions s))) = length (active_jobs (queue s)).
Proof.
  revert s. induction actions as [|a rest IH]; intros s; simpl; [split; reflexivity|].
  destruct (IH (fst (act a s))) as [-> ->].
  destruct (act_frame a s) as (Hset & Hlen & _). split; assumption.
Qed.

Lemma run_bounded (actions : list Action) (s : St) (m : Z) :
  max_size (queue s) = Some m ->
  Z.of_nat (length (event_queue (queue (run actions s))))
  <= Z.max m (Z.of_nat (length (event_queue (queue s)))).
Proof.
  revert s. induction actions as [|a rest IH]; intros s Hmax; simpl; [lia|].
  destruct (act_frame a s) as (Hset & _ & Hq).
  assert (Hmax' : max_size (queue (fst (act a s))) = Some m).
  { unfold settings in Hset. injection Hset as _ _ _ _ -> _. exact Hmax. }
  specialize (IH _ Hmax').
  assert (Hstep : Z.of_nat (length (event_queue (queue (fst (act a s)))))
                  <= Z.max m (Z.of_nat (length (event_queue (queue s))))).
  { destruct a; try (apply sublist_length in Hq; lia).
    destruct Hq as [-> | [-> Hroom]]; [lia|].
    specialize (Hroom m Hmax). rewrite length_app. simpl. lia. }
  lia.
Qed.

(** * The transport *)

Lemma drop_matching_none {A} (P : A -> Prop) `{forall x, Decision (P x)} (l : list A) :
  drop_matching P 0 l = l.
Proof.
  induction l as [|y l IH]; [reflexivity|]. simpl.
  destruct (decide (P y)); [reflexivity | rewrite IH; reflexivity].
Qed.

Lemma py_remove_first (x : Event) (l : list Event) :
  x ∈ l -> py_remove x l = Some (without_first x l).
Proof.
  unfold without_first. induction l as [|y l IH]; intros Hin; [inversion Hin|].
  simpl. destruct (decide (y = x)) as [->|Hne]; [rewrite drop_matching_none; reflexivity|].
  apply elem_of_cons in Hin as [->|Hin]; [congruence|].
  rewrite IH by exact Hin. reflexivity.
Qed.

Lemma without_first_absent (x : Event) (l : list Event) :
  x ∉ l -> without_first x l = l.
Proof.
  unfold without_first. induction l as [|y l IH]; intros Hnot; [reflexivity|].
  apply not_elem_of_cons in Hnot as [Hne Hnot]. simpl.
  rewrite decide_False by congruence. rewrite IH by exact Hnot. reflexivity.
Qed.

Lemma without_first_NoDup (x : Event) (l : list Event) :
  NoDup l -> x ∉ without_first x l.
Proof.
  unfold without_first. induction l as [|y l IH]; intros Hnd; [intros H; inversion H|].
  apply NoDup_cons in Hnd as [Hy Hnd]. simpl.
  destruct (decide (y = x)) as [->|Hne]; [rewrite drop_matching_none; exact Hy|].
  apply not_elem_of_cons. split; [congruence | apply IH, Hnd].
Qed.

Lemma clean_event_eq (event : Event) (s : St) :
  clean_event event s = (cleaned event s, Done tt).
Proof.
  unfold clean_event, cleaned. step_monad. unfold py_in.
  destruct (decide (event ∈ event_queue (queue s))) as [Hin|Hnot].
  - rewrite bool_decide_true by exact Hin.
    unfold on_queue, event_queue_remove. step_monad.
    rewrite (py_remove_first _ _ Hin). reflexivity.
  - rewrite bool_decide_false by exact Hnot.
    rewrite (without_first_absent _ _ Hnot), set_event_queue_id, set_queue_id.
    reflexivity.
Qed.

Lemma send_message_eq (event : Event) (data : Msg) (s : St) :
  send_message event data s
  = let delivered := default true (head (send_script (world s))) in
    (sent event data delivered s, Done delivered).
Proof.
  unfold send_message, ws_send_json, next_send, emit, sent. step_monad.
  destruct (default true (head (send_script (world s)))); [reflexivity|].
  unfold bind. rewrite clean_event_eq. reflexivity.
Qed.

Lemma get_message_eq (event : Event) (s : St) :
  get_message event s
  = let d := default None (head (recv_script (world s))) in
    (received event d s, Done d).
Proof.
  unfold get_message, ws_receive_json, next_recv, emit, received. step_monad.
  destruct (default None (head (recv_script (world s)))); [reflexivity|].
  unfold bind. rewrite clean_event_eq. reflexivity.
Qed.

Lemma gather_event_data_eq (event : Event) (s : St) :
  gather_event_data event s
  = match heap_get (heap s) (ev_id event) with
    | Some _ => (s, Done true)
    | None =>
        let delivered := default true (head (send_script (world s))) in
        let s1 := sent event MsgSendData delivered s in
        if delivered then
          let d := default None (head (recv_script (world s))) in
          (set_heap (heap_set (heap s) (ev_id event) d) (received event d s1), Done true)
        else (s1, Done false)
    end.
Proof.
  unfold gather_event_data, get_data. unfold bind at 1. unfold gets at 1.
  destruct (heap_get (heap s) (ev_id event)); [reflexivity|].
  unfold bind at 1. rewrite send_message_eq. simpl.
  destruct (default true (head (send_script (world s)))); simpl; [|reflexivity].
  unfold bind at 1. rewrite get_message_eq. simpl.
  unfold set_data. step_monad.
  destruct (default None (head (recv_script (world s)))); reflexivity.
Qed.

(** ** A batch whose clients are all gone *)

Lemma take_replicate_cons {A} (n : nat) (x : A) (l : list A) :
  take (S n) l = replicate (S n) x ->
  exists l', l = x :: l' /\ take n l' = replicate n x.
Proof.
  destruct l as [|y l']; simpl; [discriminate|].
  intros [= -> H]. exists l'. split; [reflexivity | exact H].
Qed.

Lemma gather_awake_asleep (events : list Event) (s : St) :
  take (length events) (send_script (world s)) = replicate (length events) false ->
  exists s',
    gather_awake events s = (s', Done tt)
    /\ trace s' = trace s ++ map (fun e => ESend e (first_message (heap s) e) false) events
    /\ awake_events s' = awake_events s
    /\ heap s' = heap s
    /\ active_jobs (queue s') = active_jobs (queue s).
Proof.
  unfold gather_awake. revert s.
  induction events as [|event rest IH]; intros s Hscript.
  - exists s. simpl. rewrite app_nil_r. repeat split; reflexivity.
  - change (length (event :: rest)) with (S (length rest)) in Hscript.
    apply take_replicate_cons in Hscript as (script & Hs & Hrest).
    simpl for_each. unfold bind at 1. unfold bind at 1.
    rewrite gather_event_data_eq.
    assert (Hstep : forall s1,
              s1 = cleaned event
                     (set_trace (trace s ++ [ESend event (first_message (heap s) event) false])
                        (set_world (after_send (world s)) s)) ->
              exists s',
                for_each rest
                  (fun event0 =>
                     client_awake <- gather_event_data event0 ;;
                     client_awake0 <- (if client_awake
                                       then send_message event0 MsgProcessStarts
                                       else ret false) ;;
                     (if client_awake0
                      then modify (fun s0 => set_awake_events (awake_events s0 ++ [event0]) s0)
                      else ret tt)) s1 = (s', Done tt)
                /\ trace s' = trace s
                     ++ map (fun e => ESend e (first_message (heap s) e) false) (event :: rest)
                /\ awake_events s' = awake_events s
                /\ heap s' = heap s
                /\ active_jobs (queue s') = active_jobs (queue s)).
    { intros s1 ->.
      match goal with |- context [for_each rest ?body ?s1] =>
        destruct (IH s1) as (s' & Hrun & Et & Haw & Hh & Hj) end.
      { simpl. rewrite Hs. exact Hrest. }
      exists s'. split; [exact Hrun|]. simpl in Et, Haw, Hh, Hj.
      split; [rewrite Et, <- app_assoc; reflexivity|].
      repeat split; assumption. }
    unfold first_message in Hstep at 1.
    destruct (heap_get (heap s) (ev_id event)) as [d|] eqn:Hd.
    + unfold bind at 1. rewrite send_message_eq. rewrite Hs. simpl.
      apply Hstep. reflexivity.
    + rewrite Hs. simpl. apply Hstep. reflexivity.
Qed.

(** Property X8. When the send to every event of a batch that holds
    a slot fails, [process_events] returns normally, having sent each
    event one
    message that was not delivered (the request for its payload, or the
    start notice when the payload was there): no event is awake, no
    prediction is requested, no connection is closed, no reset is
    requested, no payload is stored, and the slot of the batch is
    released. *)
Theorem all_asleep_returns_early (legacy_python : bool) (events : list Event)
    (batch : bool) (legs : list Leg) (s : St) (i : nat) :
  py_index (Some events) (active_jobs (queue s)) = Some i ->
  take (length events) (send_script (world s)) = replicate (length events) false ->
  exists s',
    process_events legacy_python events batch legs s = (s', Done tt)
    /\ trace s' = trace s
                  ++ map (fun e => ESend e (first_message (heap s) e) false) events
                  ++ [ERelease i]
    /\ awake_events s' = []
    /\ heap s' = heap s
    /\ active_jobs (queue s') = <[i := None]> (active_jobs (queue s)).
Proof.
  intros Hidx Hscript.
  destruct (gather_awake_asleep events (set_awake_events [] s) Hscript)
    as (sg & Hg & Et & Haw & Hh & Hj).
  simpl in Et, Haw, Hh, Hj.
  unfold process_events. unfold bind at 1. simpl.
  unfold try_finally, process_events_body. unfold bind at 1. rewrite Hg.
  unfold bind at 1. unfold gets at 1. rewrite Haw.
  unfold process_events_cleanup. step_monad. rewrite Haw. simpl.
  rewrite Hj, Hidx. simpl.
  eexists. split; [reflexivity|]. simpl.
  rewrite Et, <- app_assoc. repeat split; assumption.
Qed.

(** ** A payload that cannot be read *)

Lemma housekeeping_log (t : list effect) :
  forallb housekeeping t = true ->
  requests t = [] /\ answers t = [] /\ relayed t = [] /\ feeds t = [].
Proof.
  induction t as [|e t IH]; simpl; [auto|].
  intros [He Ht]%andb_prop. destruct (IH Ht) as (H1 & H2 & H3 & H4).
  unfold requests, answers, relayed, feeds in *. simpl.
  destruct e as [ev m d| | | | | | |]; try discriminate; simpl;
    try (destruct m; try discriminate; simpl); rewrite ?H1, ?H2, ?H3, ?H4; auto.
Qed.

Lemma cleanup_housekeeping (legacy_python : bool) (events : list Event) :
  keeps (calm housekeeping awake_events) (process_events_cleanup legacy_python events).
Proof.
  apply keeps_process_events_cleanup with (ok := ok_both housekeeping any_effect);
    calm_side ltac:(intros; reflexivity).
Qed.

Lemma heap_get_unset (h : list (nat * PredictBody)) (i : nat) :
  heap_get (heap_set h i None) i = None.
Proof.
  unfold heap_set. induction h as [|[j d] h IH]; [reflexivity|].
  rewrite filter_cons. simpl. destruct (decide (j <> i)) as [Hne|Heq]; [|exact IH].
  simpl. rewrite decide_False by exact Hne. exact IH.
Qed.

Lemma body_unreadable legacy_python event batch legs (s : St) :
  heap_get (heap s) (ev_id event) = None ->
  default None (head (recv_script (world s))) = None ->
  awake_events s = [] ->
  exists s1 rb t,
    process_events_body legacy_python [event] batch legs s = (s1, rb)
    /\ trace s1 = trace s ++ t
    /\ forallb housekeeping t = true
    /\ (awake_events s1 = [] /\ rb = Done tt
        \/ awake_events s1 = [event] /\ exists e, rb = Raised e).
Proof.
  intros Hheap Hrecv Haw.
  assert (Hraise : exists e, forall st,
             heap st = heap_set (heap s) (ev_id event) None ->
             request_body [event] batch st = (st, Raised e)).
  { destruct batch.
    - exists AttributeError. intros st Hst.
      unfold request_body, get_data. step_monad.
      rewrite Hst, heap_get_unset. reflexivity.
    - exists TypeError. intros st Hst.
      unfold request_body, get_data. step_monad.
      rewrite Hst, heap_get_unset. reflexivity. }
  destruct Hraise as [e Hraise].
  unfold process_events_body, gather_awake. simpl for_each.
  unfold bind at 1. unfold bind at 1. unfold bind at 1. unfold bind at 1.
  rewrite gather_event_data_eq, Hheap. cbv zeta.
  destruct (default true (head (send_script (world s)))) eqn:Hsend1.
  - rewrite Hrecv. rewrite send_message_eq. cbv zeta.
    match goal with |- context [default true ?x] => destruct (default true x) end.
    + unfold sent, received, cleaned. step_monad. rewrite Haw. simpl.
      unfold call_prediction. unfold bind at 1.
      rewrite Hraise by reflexivity.
      eexists _, _, _. split; [reflexivity|]. simpl.
      split; [rewrite <- !app_assoc; reflexivity|].
      split; [reflexivity|]. right. split; [reflexivity | eauto].
    + unfold sent, received, cleaned. step_monad. rewrite Haw. simpl.
      eexists _, _, _. split; [reflexivity|]. simpl.
      split; [rewrite <- !app_assoc; reflexivity|].
      split; [reflexivity|]. left. split; [exact Haw | reflexivity].
  - unfold sent, cleaned. step_monad. rewrite Haw. simpl.
    eexists _, _, _. split; [reflexivity|]. simpl.
    split; [reflexivity|]. split; [reflexivity|]. left. split; [exact Haw | reflexivity].
Qed.

(** Property X9. For a batch of one event without payload whose
    [receive_json] fails, [process_events] issues no prediction
    request, relays no result and does not feed the estimator: either
    the client is not awake, or [gather_event_data] has answered [True]
    all the same, the event is awake without payload, and the call ends
    on an exception, raised when the request is built. *)
Theorem unreadable_payload_no_request (legacy_python : bool) (event : Event)
    (batch : bool) (legs : list Leg) (s s' : St) (r : outcome unit) :
  heap_get (heap s) (ev_id event) = None ->
  default None (head (recv_script (world s))) = None ->
  process_events legacy_python [event] batch legs s = (s', r) ->
  exists t,
    trace s' = trace s ++ t
    /\ requests t = [] /\ answers t = [] /\ relayed t = [] /\ feeds t = []
    /\ (awake_events s' = [] \/ awake_events s' = [event] /\ exists e, r = Raised e).
Proof.
  intros Hheap Hrecv. unfold process_events. unfold bind at 1. simpl.
  unfold try_finally.
  destruct (body_unreadable legacy_python event batch legs (set_awake_events [] s)
              Hheap Hrecv eq_refl) as (s1 & rb & tb & -> & Etb & Hhb & Hcase).
  simpl in Etb.
  pose proof (cleanup_housekeeping legacy_python [event] s1) as Kc.
  pose proof (lively_cleanup legacy_python [event] s1) as Lc.
  destruct (process_events_cleanup legacy_python [event] s1) as [s2 rc]. simpl in Kc, Lc.
  destruct Kc as [(tc & Etc & Hhc) Hawc]. unfold same in Hawc.
  assert (Hlog : trace s2 = trace s ++ (tb ++ tc)
                 /\ forallb housekeeping (tb ++ tc) = true).
  { split; [rewrite Etc, Etb, app_assoc; reflexivity|].
    rewrite forallb_app, Hhb, Hhc. reflexivity. }
  destruct Hlog as [Et Hh]. apply housekeeping_log in Hh as (H1 & H2 & H3 & H4).
  destruct Hcase as [[Haw ->] | [Haw [e ->]]].
  - intros Hrun. exists (tb ++ tc).
    assert (s' = s2) as -> by (destruct rc as [[]| |]; congruence).
    split; [exact Et|]. repeat (split; [assumption|]). left. congruence.
  - intros Hrun. exists (tb ++ tc).
    assert (s' = s2 /\ exists e0, r = Raised e0) as [-> Hr].
    { destruct rc as [[]|e0|]; [| |contradiction];
        injection Hrun as <- <-; split; eauto. }
    split; [exact Et|]. repeat (split; [assumption|]). right. split; [congruence | exact Hr].
Qed.

(** ** The branches on the first response *)

Section Branches.
Variable legacy_python : bool.
Variable events : list Event.
Variable batch : bool.

Lemma handle_keeps_awake awake response legs :
  keeps awake_kept (handle_response legacy_python events batch awake response legs).
Proof.
  apply keeps_handle_response with (ok := ok_both any_effect any_effect);
    calm_side ltac:(intros; reflexivity).
Qed.

(** The [try] block, when the first prediction call was answered: the
    rest of the log is that of the branches on this answer. *)
Lemma body_first_answer legs s s1 rb t latency response rest :
  process_events_body legacy_python events batch legs s = (s1, rb) ->
  trace s1 = trace s ++ t ->
  answers t = (latency, response) :: rest ->
  exists sc sh rh th,
    handle_response legacy_python events batch (awake_events s1) response
      (tail legs) sc = (sh, rh)
    /\ trace sh = trace sc ++ th
    /\ awake_events s1 <> []
    /\ relayed t = relayed th
    /\ answers th = rest
    /\ (rh = Hung -> rb = Hung)
    /\ (forall e, rh = Raised e -> rb = Raised e).
Proof.
  intros H Et Ha. unfold process_events_body in H.
  apply bind_inv in H as [(sg & [] & Hg & H) | [(e & Hg & ->) | [Hg ->]]];
    apply gather_quiet in Hg as (tg & Etg & Hag & Hrg);
    try (exfalso; rewrite Et in Etg; apply app_inv_head in Etg; subst t;
         rewrite Hag in Ha; discriminate).
  unfold bind at 1 in H. simpl in H.
  destruct (awake_events sg) as [|e awake] eqn:Hawake.
  { exfalso. injection H as <- <-.
    rewrite Et in Etg; apply app_inv_head in Etg; subst t.
    rewrite Hag in Ha; discriminate. }
  unfold bind at 1 in H. simpl in H.
  assert (Hdead : forall sc tc, trace sc = trace sg ++ tc -> answers tc = [] ->
                                s1 = sc -> False).
  { intros sc tc Etc Hac ->.
    rewrite (trace_split _ _ _ _ _ _ Etg Etc Et) in Ha.
    unfold answers in *. rewrite omap_app, Hag, Hac in Ha. discriminate. }
  apply bind_inv in H as [(sc & response' & Hc & H) | [(e' & Hc & ->) | [Hc ->]]];
    [|exfalso; apply call_prediction_spec in Hc as (tc & Etc & _ & _ & Hac);
      eapply Hdead; eauto ..].
  clear Hdead.
  pose proof (call_prediction_answer _ _ _ _ _ _ Hc) as (latency1 & _ & Hhead & _).
  apply call_prediction_spec in Hc as (tc & Etc & Hrc & Hawc & Hac).
  rewrite Hhead in Hac. simpl in Hac.
  assert (Hmain : forall sh rh th tr,
            handle_response legacy_python events batch (e :: awake) response'
              (tail legs) sc = (sh, rh) ->
            trace sh = trace sc ++ th ->
            t = (tg ++ tc ++ th) ++ tr ->
            answers tr = [] -> relayed tr = [] ->
            awake_events s1 = awake_events sh ->
            response' = response
            /\ awake_events s1 = e :: awake
            /\ relayed t = relayed th
            /\ answers th = rest).
  { intros sh rh th tr Hh Eth -> Har Hrr Haw.
    pose proof (keeps_run _ _ _ _ _ (handle_keeps_awake _ _ _) Hh) as [_ Hawh].
    unfold same in Hawh.
    unfold answers in Ha, Har, Hag, Hac |- *.
    rewrite !omap_app, Hag, Hac, Har in Ha. simpl in Ha. rewrite app_nil_r in Ha.
    injection Ha as <- <- <-.
    split; [reflexivity|]. split; [congruence|]. split; [|reflexivity].
    unfold relayed in *. rewrite !omap_app, Hrg, Hrc, Hrr. simpl.
    apply app_nil_r. }
  apply bind_inv in H as [(sh & fin & Hh & H) | [(e' & Hh & ->) | [Hh ->]]];
    pose proof (keeps_run _ _ _ _ _
                  (handle_grows legacy_python events batch _ _ _) Hh)
      as [(th & Eth & _) _].
  - apply record_quiet in H as (tr & Etr & Har & Hrr & Hawr).
    assert (Ht : t = (tg ++ tc ++ th) ++ tr).
    { eapply trace_split; [|exact Etr | exact Et].
      rewrite Eth, Etc, Etg, <- !app_assoc. reflexivity. }
    destruct (Hmain sh _ th tr Hh Eth Ht Har Hrr Hawr) as (-> & Haw & Hrel & Hrest).
    exists sc, sh, (Done fin), th. rewrite Haw.
    split; [exact Hh|]. split; [exact Eth|]. split; [discriminate|].
    split; [exact Hrel|]. split; [exact Hrest|]. split; discriminate.
  - assert (Ht : t = (tg ++ tc ++ th) ++ []).
    { rewrite app_nil_r. rewrite Eth, Etc, Etg, <- !app_assoc in Et.
      apply app_inv_head in Et. auto. }
    destruct (Hmain s1 _ th [] Hh Eth Ht eq_refl eq_refl eq_refl)
      as (-> & Haw & Hrel & Hrest).
    exists sc, s1, (Raised e'), th. rewrite Haw.
    split; [exact Hh|]. split; [exact Eth|]. split; [discriminate|].
    split; [exact Hrel|]. split; [exact Hrest|].
    split; [discriminate | intros e0 [= ->]; reflexivity].
  - assert (Ht : t = (tg ++ tc ++ th) ++ []).
    { rewrite app_nil_r. rewrite Eth, Etc, Etg, <- !app_assoc in Et.
      apply app_inv_head in Et. auto. }
    destruct (Hmain s1 _ th [] Hh Eth Ht eq_refl eq_refl eq_refl)
      as (-> & Haw & Hrel & Hrest).
    exists sc, s1, Hung, th. rewrite Haw.
    split; [exact Hh|]. split; [exact Eth|]. split; [discriminate|].
    split; [exact Hrel|]. split; [exact Hrest|].
    split; [intros _; reflexivity | discriminate].
Qed.

(** The same for the whole of [process_events]. *)
Lemma process_events_first_answer legs s s' r t latency response rest :
  process_events legacy_python events batch legs s = (s', r) ->
  trace s' = trace s ++ t ->
  answers t = (latency, response) :: rest ->
  exists sc sh rh th,
    handle_response legacy_python events batch (awake_events s') response
      (tail legs) sc = (sh, rh)
    /\ trace sh = trace sc ++ th
    /\ awake_events s' <> []
    /\ relayed t = relayed th
    /\ answers th = rest
    /\ (rh = Hung -> r = Hung)
    /\ (forall e, rh = Raised e -> exists e', r = Raised e').
Proof.
  intros H Et Ha. unfold process_events in H.
  unfold bind at 1 in H. simpl in H. unfold try_finally in H.
  destruct (process_events_body legacy_python events batch legs
              (set_awake_events [] s)) as [s1 rb] eqn:Eb.
  pose proof (keeps_run _ _ _ _ _ (body_grows legacy_python events batch legs) Eb)
    as [(tb & Etb & _) _]. simpl in Etb.
  assert (Hclean : forall s2 rc, process_events_cleanup legacy_python events s1 = (s2, rc) ->
            s' = s2 ->
            exists sc sh rh th,
              handle_response legacy_python events batch (awake_events s') response
                (tail legs) sc = (sh, rh)
              /\ trace sh = trace sc ++ th
              /\ awake_events s' <> []
              /\ relayed t = relayed th
              /\ answers th = rest
              /\ (rh = Hung -> rb = Hung)
              /\ (forall e, rh = Raised e -> rb = Raised e)).
  { intros s2 rc Ec ->.
    apply cleanup_quiet in Ec as (tc & Etc & Hac & Hrc & Hawc).
    pose proof (trace_split _ _ _ _ _ _ Etb Etc Et) as ->.
    assert (Hab : answers (tb ++ tc) = answers tb)
      by (unfold answers in *; rewrite omap_app, Hac; apply app_nil_r).
    assert (Hrb : relayed (tb ++ tc) = relayed tb)
      by (unfold relayed in *; rewrite omap_app, Hrc; apply app_nil_r).
    rewrite Hab in Ha. rewrite Hrb, Hawc.
    eapply body_first_answer; eauto. }
  destruct rb as [[]|e|].
  - destruct (process_events_cleanup legacy_python events s1) as [s2 rc] eqn:Ec.
    assert (s' = s2) as -> by (destruct rc as [[]| |]; congruence).
    destruct (Hclean s2 rc eq_refl eq_refl)
      as (sc & sh & rh & th & H1 & H2 & H3 & H4 & H5 & H6 & H7).
    exists sc, sh, rh, th.
    split; [exact H1|]. split; [exact H2|]. split; [exact H3|].
    split; [exact H4|]. split; [exact H5|].
    split; [intros Hh; discriminate (H6 Hh) | intros e Hr; discriminate (H7 e Hr)].
  - destruct (process_events_cleanup legacy_python events s1) as [s2 rc] eqn:Ec.
    pose proof (lively_cleanup legacy_python events s1) as Lc. rewrite Ec in Lc. simpl in Lc.
    assert (s' = s2) as -> by (destruct rc as [[]| |]; congruence).
    destruct (Hclean s2 rc eq_refl eq_refl)
      as (sc & sh & rh & th & H1 & H2 & H3 & H4 & H5 & H6 & H7).
    exists sc, sh, rh, th.
    split; [exact H1|]. split; [exact H2|]. split; [exact H3|].
    split; [exact H4|]. split; [exact H5|].
    split; [intros Hh; discriminate (H6 Hh)|].
    intros e0 _. destruct rc as [[]|e1|]; [| |contradiction]; injection H as <-; eauto.
  - injection H as <- <-.
    destruct (body_first_answer legs _ _ _ _ _ _ _ Eb Et Ha)
      as (sc & sh & rh & th & H1 & H2 & H3 & H4 & H5 & H6 & H7).
    exists sc, sh, rh, th.
    split; [exact H1|]. split; [exact H2|]. split; [exact H3|].
    split; [exact H4|]. split; [exact H5|].
    split; [intros _; reflexivity|]. intros e Hr. discriminate (H7 e Hr).
Qed.
End Branches.

Lemma relay_single_plain batch response output e awake (s : St) :
  batch = false \/ (exists j, output = Some j /\ j_data j = None) ->
  relay_single batch response output e awake s
  = relay awake (MsgProcessCompleted (OJson output) (status_ok response)) s.
Proof.
  intros Hplain. revert e s. unfold relay.
  induction awake as [|event awake IH]; intros e s; [reflexivity|].
  simpl. unfold bind at 1.
  assert (Hout : (if batch
                  then out <- or_raise TypeError output ;;
                       match j_data out with
                       | Some _ =>
                           j <- or_raise AttributeError (json response) ;;
                           d <- or_raise TypeError (j_data j) ;;
                           l <- or_raise TypeError (iter_val d) ;;
                           cols <- or_raise TypeError (mapM iter_val l) ;;
                           row <- or_raise IndexError (zip_star cols !! e) ;;
                           ret (Some (set_j_data (VList row) out))
                       | None => ret output
                       end
                  else ret output) s = (s, Done output)).
  { destruct Hplain as [-> | (j & -> & Hnone)]; [reflexivity|].
    destruct batch; [|reflexivity]. step_monad. rewrite Hnone. reflexivity. }
  rewrite Hout. unfold bind, ret.
  destruct (send_message event (MsgProcessCompleted (OJson output) (status_ok response)) s)
    as [s1 [b| |]]; [apply IH | reflexivity | reflexivity].
Qed.

Lemma trace_sent (event : Event) (data : Msg) (delivered : bool) (s : St) :
  trace (sent event data delivered s) = trace s ++ [ESend event data delivered].
Proof. unfold sent, cleaned. destruct delivered; reflexivity. Qed.

Section Rows.
Variable response : Response.
Variable j : Json.
Variable d : val.
Variable l : list val.
Variable cols : list (list val).
Hypothesis Hjson : json response = Some j.
Hypothesis Hdata : j_data j = Some d.
Hypothesis Hiter : iter_val d = Some l.
Hypothesis Hcols : mapM iter_val l = Some cols.

Lemma relay_single_rows (awake : list Event) :
  forall (e : nat) (out : Json) (s : St),
    out = j \/ (exists v, out = set_j_data v j) ->
    exists s' r t,
      relay_single true response (Some out) e awake s = (s', r)
      /\ trace s' = trace s ++ t
      /\ relayed t = zip_with (fun event row => (event, row_msg j (status_ok response) row))
                              awake (drop e (zip_star cols))
      /\ answers t = []
      /\ r = if decide (length awake <= length (drop e (zip_star cols)))%nat
             then Done tt else Raised IndexError.
Proof.
  induction awake as [|event awake IH]; intros e out s Hout.
  - exists s, (Done tt), []. simpl. rewrite app_nil_r.
    repeat split; reflexivity.
  - assert (Hsome : exists v, j_data out = Some v).
    { destruct Hout as [-> | [v ->]]; eauto. }
    destruct Hsome as [v0 Hv0].
    assert (Hset : forall row, set_j_data row out = set_j_data row j).
    { intros row. destruct Hout as [-> | [v ->]]; reflexivity. }
    assert (Hstep :
      (out0 <- ret out ;;
       match j_data out0 with
       | Some _ =>
           j0 <- or_raise AttributeError (json response) ;;
           d0 <- or_raise TypeError (j_data j0) ;;
           l0 <- or_raise TypeError (iter_val d0) ;;
           cols0 <- or_raise TypeError (mapM iter_val l0) ;;
           row <- or_raise IndexError (zip_star cols0 !! e) ;;
           ret (Some (set_j_data (VList row) out0))
       | None => ret (Some out)
       end) s
      = match zip_star cols !! e with
        | Some row => (s, Done (Some (set_j_data (VList row) j)))
        | None => (s, Raised IndexError)
        end).
    { step_monad. rewrite Hv0. simpl. rewrite Hjson. simpl. rewrite Hdata. simpl.
      rewrite Hiter. simpl. rewrite Hcols. simpl.
      destruct (zip_star cols !! e); simpl; [rewrite Hset|]; reflexivity. }
    simpl relay_single. unfold bind at 1. rewrite Hstep.
    destruct (zip_star cols !! e) as [row|] eqn:Hrow.
    + unfold bind at 1. rewrite send_message_eq. cbv zeta.
      set (delivered := default true (head (send_script (world s)))).
      destruct (IH (S e) (set_j_data (VList row) j)
                  (sent event (row_msg j (status_ok response) row) delivered s))
        as (s' & r & t & Hrun & Et & Hrel & Ha & Hr); [right; eauto|].
      unfold row_msg in Hrun at 1. rewrite Hrun.
      exists s', r, (ESend event (row_msg j (status_ok response) row) delivered :: t).
      split; [reflexivity|].
      split; [rewrite Et, trace_sent, <- app_assoc; reflexivity|].
      rewrite (drop_S _ _ _ Hrow).
      split; [rewrite relayed_cons_send by reflexivity; simpl; rewrite Hrel; reflexivity|].
      split; [exact Ha|].
      rewrite Hr. simpl. destruct (decide _), (decide _); try reflexivity; lia.
    + exists s, (Raised IndexError), []. rewrite app_nil_r.
      split; [reflexivity|]. split; [reflexivity|].
      apply lookup_ge_None in Hrow. rewrite drop_ge by exact Hrow.
      split; [reflexivity|]. split; [reflexivity|].
      rewrite decide_False by (simpl; lia). reflexivity.
Qed.
End Rows.

Lemma sent_to_all (awake : list Event) (m : Msg) (t : list effect) :
  NoDup awake ->
  relayed t = to_all awake m ->
  forall event, event ∈ awake -> sent_to event t = [m].
Proof.
  intros Hnd Hrel event Hin. unfold sent_to. rewrite Hrel.
  rewrite filter_to_all by assumption. reflexivity.
Qed.

Lemma filter_rows_other {R} (f : R -> Msg) (awake : list Event) (rows : list R)
    (event : Event) :
  event ∉ awake ->
  filter (fun p => fst p = event) (zip_with (fun ev row => (ev, f row)) awake rows) = [].
Proof.
  revert rows. induction awake as [|ev awake IH]; intros rows Hnot; [reflexivity|].
  apply not_elem_of_cons in Hnot as [Hne Hnot].
  destruct rows as [|row rows]; [reflexivity|]. simpl.
  rewrite filter_cons. simpl. rewrite decide_False by congruence. apply IH, Hnot.
Qed.

Lemma filter_rows {R} (f : R -> Msg) (awake : list Event) (rows : list R)
    (event : Event) (e : nat) (row : R) :
  NoDup awake ->
  awake !! e = Some event ->
  rows !! e = Some row ->
  filter (fun p => fst p = event) (zip_with (fun ev row => (ev, f row)) awake rows)
  = [(event, f row)].
Proof.
  revert rows e. induction awake as [|ev awake IH]; intros rows e Hnd Hev Hrow;
    [destruct e; discriminate|].
  apply NoDup_cons in Hnd as [Hfresh Hnd].
  destruct rows as [|row0 rows]; [destruct e; discriminate|].
  simpl. rewrite filter_cons. simpl.
  destruct e as [|e]; simpl in Hev, Hrow.
  - injection Hev as ->. injection Hrow as ->.
    rewrite decide_True by reflexivity. f_equal. apply filter_rows_other, Hfresh.
  - rewrite decide_False.
    + eapply IH; eassumption.
    + intros ->. apply Hfresh. eapply list_elem_of_lookup_2, Hev.
Qed.

Section Outcomes.
Variable legacy_python : bool.
Variable events : list Event.

(** Property X10. When the first prediction call is answered by a
    response that carries an exception, no further call is answered and
    the only results relayed are one [process_completed] message for
    every awake event, with the text of the exception as output and
    success [False]; in a batch of distinct events it is the only
    result that an awake event is sent. *)
Theorem upstream_error_reported (batch : bool) (legs : list Leg) (s s' : St)
    (r : outcome unit) (t : list effect) (latency : float) (response : Response)
    (rest : list (float * Response)) :
  process_events legacy_python events batch legs s = (s', r) ->
  trace s' = trace s ++ t ->
  answers t = (latency, response) :: rest ->
  has_exception response = true ->
  NoDup events ->
  let awake := awake_events s' in
  rest = []
  /\ relayed t = to_all awake (error_msg response)
  /\ forall event, event ∈ awake -> sent_to event t = [error_msg response].
Proof.
  intros Hrun Et Ha Hexc Hnd awake.
  destruct (process_events_first_answer _ _ _ _ _ _ _ _ _ _ _ Hrun Et Ha)
    as (sc & sh & rh & th & Hh & Eth & _ & Hrel & Hrest & _).
  fold awake in Hh. unfold handle_response in Hh. rewrite Hexc in Hh.
  destruct (relay_spec awake (error_msg response) sc eq_refl)
    as (s1 & t1 & Hrelay & Et1 & Hr1 & Ha1 & _).
  unfold error_msg in Hrelay. rewrite (bind_done _ _ _ _ _ Hrelay) in Hh.
  injection Hh as <- <-. rewrite Eth in Et1. apply app_inv_head in Et1. subst t1.
  assert (Hrelayed : relayed t = to_all awake (error_msg response)) by congruence.
  split; [congruence|]. split; [exact Hrelayed|].
  apply sent_to_all; [|exact Hrelayed].
  exact (sublist_NoDup _ _ Hnd (process_events_awake _ _ _ _ _ _ _ Hrun)).
Qed.

(** Property X11. When the first prediction call is answered by a
    response without exception that is not generating, and the call is
    not batched or the response has no ["data"], no further call is
    answered and the only results relayed are one [process_completed]
    message for every awake event, with the JSON of the response as
    output and its status compared with 200 as success; in a batch of
    distinct events it is the only result that an awake event is
    sent. *)
Theorem single_response_completes (batch : bool) (legs : list Leg) (s s' : St)
    (r : outcome unit) (t : list effect) (latency : float) (response : Response)
    (rest : list (float * Response)) (j : Json) :
  process_events legacy_python events batch legs s = (s', r) ->
  trace s' = trace s ++ t ->
  answers t = (latency, response) :: rest ->
  has_exception response = false ->
  json response = Some j ->
  j_is_generating j = false ->
  batch = false \/ j_data j = None ->
  NoDup events ->
  let awake := awake_events s' in
  rest = []
  /\ relayed t = to_all awake (completed_msg response)
  /\ forall event, event ∈ awake -> sent_to event t = [completed_msg response].
Proof.
  intros Hrun Et Ha Hexc Hj Hgen Hplain Hnd awake.
  destruct (process_events_first_answer _ _ _ _ _ _ _ _ _ _ _ Hrun Et Ha)
    as (sc & sh & rh & th & Hh & Eth & _ & Hrel & Hrest & _).
  fold awake in Hh. unfold handle_response in Hh. rewrite Hexc in Hh.
  unfold is_generating in Hh. rewrite Hj in Hh.
  unfold or_raise at 1, ret at 1, bind at 1 in Hh.
  unfold ret at 1, bind at 1 in Hh. rewrite Hgen in Hh.
  unfold bind at 1 in Hh. rewrite relay_single_plain in Hh
    by (destruct Hplain as [->|Hnone]; [left; reflexivity | right; eauto]).
  destruct (relay_spec awake (completed_msg response) sc eq_refl)
    as (s1 & t1 & Hrelay & Et1 & Hr1 & Ha1 & _).
  unfold completed_msg in Hrelay. rewrite Hj in Hrelay. rewrite Hrelay in Hh.
  injection Hh as <- <-. rewrite Eth in Et1. apply app_inv_head in Et1. subst t1.
  assert (Hrelayed : relayed t = to_all awake (completed_msg response)) by congruence.
  split; [congruence|]. split; [exact Hrelayed|].
  apply sent_to_all; [|exact Hrelayed].
  exact (sublist_NoDup _ _ Hnd (process_events_awake _ _ _ _ _ _ _ Hrun)).
Qed.

(** Property X12. In a batched call answered by a response that is
    not generating and has ["data"], the only result that the e-th
    awake event of a batch of distinct events is sent is one
    [process_completed] message whose ["data"] is the e-th row of the
    transposed data, the other keys being those of the response; rows
    beyond the number of awake events are dropped, and when there are
    fewer rows than awake events the call raises once the rows are used
    up, the remaining events being sent nothing. *)
Theorem batched_response_split_by_row (legs : list Leg) (s s' : St)
    (r : outcome unit) (t : list effect) (latency : float) (response : Response)
    (rest : list (float * Response)) (j : Json) (d : val) (l : list val)
    (cols : list (list val)) :
  process_events legacy_python events true legs s = (s', r) ->
  trace s' = trace s ++ t ->
  answers t = (latency, response) :: rest ->
  has_exception response = false ->
  json response = Some j ->
  j_is_generating j = false ->
  j_data j = Some d ->
  iter_val d = Some l ->
  mapM iter_val l = Some cols ->
  NoDup events ->
  let awake := awake_events s' in
  let rows := zip_star cols in
  rest = []
  /\ relayed t = zip_with (fun event row => (event, row_msg j (status_ok response) row))
                          awake rows
  /\ (forall e event row,
        awake !! e = Some event -> rows !! e = Some row ->
        sent_to event t = [row_msg j (status_ok response) row])
  /\ ((length rows < length awake)%nat -> exists e, r = Raised e).
Proof.
  intros Hrun Et Ha Hexc Hj Hgen Hd Hl Hcols Hnd awake rows.
  destruct (process_events_first_answer _ _ _ _ _ _ _ _ _ _ _ Hrun Et Ha)
    as (sc & sh & rh & th & Hh & Eth & _ & Hrel & Hrest & _ & Hraised).
  fold awake in Hh. unfold handle_response in Hh. rewrite Hexc in Hh.
  unfold is_generating in Hh. rewrite Hj in Hh.
  unfold or_raise at 1, ret at 1, bind at 1 in Hh.
  unfold ret at 1, bind at 1 in Hh. rewrite Hgen in Hh.
  unfold bind at 1 in Hh.
  destruct (relay_single_rows response j d l cols Hj Hd Hl Hcols awake 0%nat j sc
              (or_introl eq_refl))
    as (s1 & r1 & t1 & Hrelay & Et1 & Hr1 & Ha1 & Hres).
  rewrite Hrelay in Hh. rewrite drop_0 in Hr1, Hres. fold rows in Hr1, Hres.
  assert (sh = s1 /\ (r1 = Raised IndexError -> rh = Raised IndexError)) as [-> Hrh].
  { destruct r1 as [[]|e1|]; simpl in Hh; unfold ret in Hh; injection Hh as <- <-;
      (split; [reflexivity | congruence]). }
  rewrite Eth in Et1. apply app_inv_head in Et1. subst t1.
  assert (Hrelayed : relayed t
            = zip_with (fun event row => (event, row_msg j (status_ok response) row))
                       awake rows) by congruence.
  assert (Hnd' : NoDup awake)
    by exact (sublist_NoDup _ _ Hnd (process_events_awake _ _ _ _ _ _ _ Hrun)).
  split; [congruence|]. split; [exact Hrelayed|]. split.
  - intros e event row Hev Hrow. unfold sent_to. rewrite Hrelayed.
    rewrite (filter_rows (row_msg j (status_ok response)) awake rows event e row)
      by assumption.
    reflexivity.
  - intros Hshort. rewrite decide_False in Hres by lia.
    eapply Hraised. apply Hrh, Hres.
Qed.
End Outcomes.

Lemma reset_iterators_eq (session : string) (fn : option Z) (s : St) :
  reset_iterators session fn s
  = (reset session fn s,
     match default None (head (reset_script (world s))) with
     | Some e => Raised e
     | None => Done tt
     end).
Proof.
  unfold reset_iterators, next_reset, emit, reset. step_monad.
  destruct (default None (head (reset_script (world s)))); reflexivity.
Qed.

Lemma not_closing_log (t : list effect) :
  forallb not_closing t = true -> closes t = [] /\ resets t = [].
Proof.
  induction t as [|e t IH]; simpl; [auto|].
  intros [He Ht]%andb_prop. destruct (IH Ht) as [H1 H2].
  unfold closes, resets in *. destruct e; try discriminate; simpl; auto.
Qed.

Lemma body_not_closing legacy_python events batch legs :
  keeps (calm not_closing (fun _ => tt))
    (process_events_body legacy_python events batch legs).
Proof.
  apply keeps_process_events_body with (ok := ok_both not_closing any_effect);
    calm_side ltac:(intros; reflexivity).
Qed.

Lemma closes_close event ok t : closes (EClose event ok :: t) = event :: closes t.
Proof. reflexivity. Qed.

Lemma resets_close event ok t : resets (EClose event ok :: t) = resets t.
Proof. reflexivity. Qed.

Lemma closes_reset session fn t : closes (EReset session fn :: t) = closes t.
Proof. reflexivity. Qed.

Lemma resets_reset session fn t : resets (EReset session fn :: t) = (session, fn) :: resets t.
Proof. reflexivity. Qed.

Lemma closes_release i t : closes (ERelease i :: t) = closes t.
Proof. reflexivity. Qed.

Lemma resets_release i t : resets (ERelease i :: t) = resets t.
Proof. reflexivity. Qed.

Lemma closes_app t1 t2 : closes (t1 ++ t2) = closes t1 ++ closes t2.
Proof. apply omap_app. Qed.

Lemma resets_app t1 t2 : resets (t1 ++ t2) = resets t1 ++ resets t2.
Proof. apply omap_app. Qed.

Lemma disconnect_all_closes (legacy : bool) (awake : list Event) (s : St) :
  exists s1 r1 t1 k,
    disconnect_all legacy awake s = (s1, r1)
    /\ trace s1 = trace s ++ t1
    /\ closes t1 = take k awake
    /\ resets t1 = []
    /\ awake_events s1 = awake_events s
    /\ queue s1 = queue s
    /\ (r1 = Done tt /\ closes t1 = awake
        \/ legacy = false /\ r1 = Raised CancelledError).
Proof.
  revert s. induction awake as [|event awake IH]; intros s.
  - exists s, (Done tt), [], 0%nat. simpl. rewrite app_nil_r.
    repeat split; try reflexivity. left. split; reflexivity.
  - rewrite disconnect_all_cons. cbv zeta.
    set (r := default None (head (close_script (world s)))).
    destruct (close_outcome_cases legacy r) as [E|(Hl & _ & E)]; rewrite E.
    + destruct (IH (closed event r s))
        as (s1 & r1 & t1 & k & Hrun & Et & Hc & Hr & Haw & Hq & Hend).
      simpl in Et, Haw, Hq.
      exists s1, r1, (EClose event r :: t1), (S k). split; [exact Hrun|].
      split; [rewrite Et, <- app_assoc; reflexivity|].
      rewrite closes_close, resets_close, Hc.
      split; [reflexivity|]. split; [exact Hr|]. split; [exact Haw|]. split; [exact Hq|].
      destruct Hend as [[Hd Hall] | Hcancel]; [left | right; exact Hcancel].
      split; [exact Hd | rewrite <- Hc, Hall; reflexivity].
    + exists (closed event r s), (Raised CancelledError), [EClose event r], 1%nat.
      split; [reflexivity|]. split; [reflexivity|].
      split; [simpl; rewrite take_0; reflexivity|].
      split; [reflexivity|]. split; [reflexivity|]. split; [reflexivity|].
      right. auto.
Qed.

Lemma reset_all_resets (awake : list Event) (s : St) :
  exists s2 r2 t2 k,
    for_each awake (fun event =>
      clean_event event ;;
      reset_iterators (session_hash event) (fn_index event)) s = (s2, r2)
    /\ trace s2 = trace s ++ t2
    /\ closes t2 = []
    /\ resets t2 = take k (reset_key <$> awake)
    /\ (r2 = Done tt -> resets t2 = reset_key <$> awake)
    /\ r2 <> Hung
    /\ awake_events s2 = awake_events s.
Proof.
  revert s. induction awake as [|event awake IH]; intros s.
  - exists s, (Done tt), [], 0%nat. simpl. rewrite app_nil_r.
    repeat split; try reflexivity. discriminate.
  - simpl for_each. unfold bind at 1. unfold bind at 1. rewrite clean_event_eq.
    rewrite reset_iterators_eq.
    set (s0 := reset (session_hash event) (fn_index event) (cleaned event s)).
    assert (Et0 : trace s0 = trace s ++ [EReset (session_hash event) (fn_index event)])
      by reflexivity.
    assert (Haw0 : awake_events s0 = awake_events s) by reflexivity.
    destruct (default None (head (reset_script (world (cleaned event s))))) as [e|].
    + exists s0, (Raised e), [EReset (session_hash event) (fn_index event)], 1%nat.
      split; [reflexivity|]. split; [exact Et0|]. split; [reflexivity|].
      split; [simpl; rewrite take_0; reflexivity|].
      split; [discriminate|]. split; [discriminate | exact Haw0].
    + destruct (IH s0) as (s2 & r2 & t2 & k & Hrun & Et & Hc & Hr & Hall & Hlive & Haw).
      rewrite Hrun.
      exists s2, r2, (EReset (session_hash event) (fn_index event) :: t2), (S k).
      split; [reflexivity|].
      split; [rewrite Et, Et0, <- app_assoc; reflexivity|].
      rewrite closes_reset, resets_reset, Hr.
      split; [exact Hc|]. split; [reflexivity|].
      split; [intros Hd; rewrite <- Hr, (Hall Hd); reflexivity|].
      split; [exact Hlive | congruence].
Qed.

Lemma cleanup_closes (legacy_python : bool) (events : list Event) (s s' : St)
    (r : outcome unit) :
  process_events_cleanup legacy_python events s = (s', r) ->
  exists t kc kr,
    trace s' = trace s ++ t
    /\ closes t = take kc (awake_events s)
    /\ resets t = take kr (reset_key <$> awake_events s)
    /\ (closes t = awake_events s
        \/ legacy_python = false /\ r = Raised CancelledError /\ resets t = [])
    /\ (closes_guarded legacy_python s -> closes t = awake_events s)
    /\ (r = Done tt ->
        closes t = awake_events s /\ resets t = reset_key <$> awake_events s)
    /\ awake_events s' = awake_events s.
Proof.
  unfold process_events_cleanup. unfold bind at 1. unfold gets at 1.
  pose proof (disconnect_all_done legacy_python (awake_events s) s) as Hguard.
  destruct (disconnect_all_closes legacy_python (awake_events s) s)
    as (s1 & r1 & t1 & k1 & Hrun & Et1 & Hc1 & Hr1 & Haw1 & Hq1 & Hend).
  rewrite Hrun in Hguard. simpl in Hguard.
  unfold bind at 1. rewrite Hrun.
  destruct Hend as [[-> Hall1] | [Hl ->]].
  - unfold bind at 1. unfold gets at 1. rewrite Hq1.
    destruct (py_index (Some events) (active_jobs (queue s))) as [i|].
    + unfold or_raise at 1, ret at 1, bind at 1.
      unfold bind at 1. unfold on_queue at 1, modify at 1.
      unfold bind at 1. unfold emit at 1, modify at 1.
      match goal with |- for_each _ _ ?s3 = _ -> _ =>
        destruct (reset_all_resets (awake_events s) s3)
          as (s2 & r2 & t2 & k & Hrun2 & Et2 & Hc2 & Hr2 & Hall & _ & Haw2)
      end.
      rewrite Hrun2. intros [= <- <-]. simpl in Et2, Haw2.
      assert (Hcl : closes (t1 ++ ERelease i :: t2) = awake_events s).
      { rewrite closes_app, closes_release, Hc2, app_nil_r. exact Hall1. }
      assert (Hre : resets (t1 ++ ERelease i :: t2) = resets t2).
      { rewrite resets_app, resets_release, Hr1. reflexivity. }
      exists (t1 ++ ERelease i :: t2), (length (awake_events s)), k.
      split; [rewrite Et2, Et1, <- !app_assoc; reflexivity|].
      rewrite Hcl, Hre, Hr2, firstn_all.
      split; [reflexivity|]. split; [reflexivity|]. split; [left; reflexivity|].
      split; [reflexivity|].
      split; [intros Hd; split; [reflexivity | rewrite <- Hr2; apply Hall, Hd] | congruence].
    + unfold or_raise at 1, raise at 1, bind at 1. intros [= <- <-].
      exists t1, (length (awake_events s)), 0%nat.
      split; [exact Et1|]. rewrite Hall1, Hr1, firstn_all, take_0.
      split; [reflexivity|]. split; [reflexivity|]. split; [left; reflexivity|].
      split; [reflexivity|]. split; [discriminate | exact Haw1].
  - intros [= <- <-]. exists t1, k1, 0%nat.
    split; [exact Et1|]. split; [exact Hc1|]. split; [rewrite Hr1, take_0; reflexivity|].
    split; [right; auto|].
    split; [intros Hg; specialize (Hguard Hg); discriminate|].
    split; [discriminate | exact Haw1].
Qed.

(** Property X13. Whenever [process_events] returns or raises, the
    connections closed during the call are those of a prefix of the
    awake events, each once and in the order of the batch, and the
    iterator resets requested are those of a prefix of the awake events
    (a reset that raises stops the loop). An [Exception] raised by a
    close is swallowed, so every awake event is closed, unless the task
    is cancelled at a close on Python 3.8 or later: the
    [CancelledError] ends the call there, with no reset requested.
    Every awake event is closed when no cancellation arrives at a close
    and always on Python 3.7; when the call returns normally every
    awake event has been closed and reset. *)
Theorem awake_clients_closed_and_reset (legacy_python : bool) (events : list Event)
    (batch : bool) (legs : list Leg) (s s' : St) (r : outcome unit) (t : list effect) :
  process_events legacy_python events batch legs s = (s', r) ->
  trace s' = trace s ++ t ->
  r <> Hung ->
  (exists k, closes t = take k (awake_events s'))
  /\ (exists k, resets t = take k (reset_key <$> awake_events s'))
  /\ (closes t = awake_events s'
      \/ legacy_python = false /\ r = Raised CancelledError /\ resets t = [])
  /\ (closes_guarded legacy_python s -> closes t = awake_events s')
  /\ (r = Done tt ->
      closes t = awake_events s' /\ resets t = reset_key <$> awake_events s').
Proof.
  intros Hrun Et Hr. unfold process_events in Hrun.
  unfold bind at 1 in Hrun. simpl in Hrun. unfold try_finally in Hrun.
  pose proof (body_not_closing legacy_python events batch legs (set_awake_events [] s))
    as [(tb & Etb & Hb) _].
  pose proof (body_keeps_close_script legacy_python events batch legs
                (set_awake_events [] s)) as Hscript.
  destruct (process_events_body legacy_python events batch legs (set_awake_events [] s))
    as [s1 rb]. simpl in Etb, Hscript.
  apply not_closing_log in Hb as [Hcb Hrb].
  assert (Hclean : forall rc, process_events_cleanup legacy_python events s1 = (s', rc) ->
            (exists k, closes t = take k (awake_events s'))
            /\ (exists k, resets t = take k (reset_key <$> awake_events s'))
            /\ (closes t = awake_events s'
                \/ legacy_python = false /\ rc = Raised CancelledError /\ resets t = [])
            /\ (closes_guarded legacy_python s -> closes t = awake_events s')
            /\ (rc = Done tt ->
                closes t = awake_events s'
                /\ resets t = reset_key <$> awake_events s')).
  { intros rc Hc.
    apply cleanup_closes in Hc as (tc & kc & kr & Etc & Hcc & Hrc & Hend & Hg & Hall & Haw).
    pose proof (trace_split _ _ _ _ _ _ Etb Etc Et) as ->.
    rewrite closes_app, resets_app, Hcb, Hrb, Haw. simpl.
    split; [exists kc; exact Hcc|]. split; [exists kr; exact Hrc|].
    split; [exact Hend|]. split; [|exact Hall].
    intros Hguard. apply Hg. unfold closes_guarded in *. rewrite Hscript. exact Hguard. }
  destruct rb as [[]|e|]; [| |injection Hrun as <- <-; contradiction];
    destruct (process_events_cleanup legacy_python events s1) as [s2 rc] eqn:Hc.
  - assert (s' = s2 /\ r = rc) as [-> ->]
      by (destruct rc as [[]| |]; injection Hrun as <- <-; split; reflexivity).
    apply Hclean. reflexivity.
  - assert (s' = s2 /\ r <> Done tt /\ (rc = Raised CancelledError -> r = rc))
      as (-> & Hnot & Hsame)
      by (destruct rc as [[]| |]; injection Hrun as <- <-;
          repeat split; congruence).
    destruct (Hclean rc eq_refl) as (H1 & H2 & H3 & H4 & _).
    split; [exact H1|]. split; [exact H2|]. split.
    + destruct H3 as [H3|(Hl & Hrc & H3)]; [left; exact H3 | right].
      split; [exact Hl|]. split; [rewrite (Hsame Hrc); exact Hrc | exact H3].
    + split; [exact H4 | intros Hd; contradiction].
Qed.

(** ** Streams of any length *)

Lemma filter_progress (awake : list Event) (event : Event) (f : Response -> Msg)
    (l : list Response) :
  NoDup awake -> event ∈ awake ->
  filter (fun p => fst p = event) (concat (map (fun resp => to_all awake (f resp)) l))
  = map (fun resp => (event, f resp)) l.
Proof.
  intros Hnd Hin. induction l as [|resp l IH]; [reflexivity|].
  simpl. rewrite filter_app, IH, filter_to_all by assumption. reflexivity.
Qed.

(** Property X14. For a streamed prediction of any length (at least
    two answers, the last of them not generating): every answer but the
    last is relayed to every awake event as a [process_generating]
    message, in order, and then one [process_completed] message is
    relayed that is made from the answer before the last; in a batch
    of distinct events these are the results that an awake event is
    sent, and the only ones. *)
Theorem streamed_prediction_relayed (legacy_python : bool) (events : list Event)
    (batch : bool) (legs : list Leg) (s s' : St) (r : outcome unit)
    (t : list effect) (a1 : float * Response) (rest : list (float * Response))
    (latency : float) (final : Response) (j : Json) :
  process_events legacy_python events batch legs s = (s', r) ->
  trace s' = trace s ++ t ->
  answers t = a1 :: rest ->
  last rest = Some (latency, final) ->
  json final = Some j ->
  j_is_generating j = false ->
  NoDup events ->
  let awake := awake_events s' in
  let streamed := removelast (snd <$> answers t) in
  exists old,
    last streamed = Some old
    /\ relayed t = concat (map (fun resp => to_all awake (generating_msg resp)) streamed)
                   ++ to_all awake (completed_msg old)
    /\ forall event,
         event ∈ awake ->
         sent_to event t = map generating_msg streamed ++ [completed_msg old].
Proof.
  intros Hrun Et Ha Hlast Hj Hgen Hnd awake streamed.
  destruct (process_events_streams legacy_python events batch legs s s' r t
              a1 rest latency final j Hrun Et Ha Hlast Hj Hgen)
    as (old & Hold & Hrel).
  exists old. split; [exact Hold|]. split; [exact Hrel|].
  intros event Hin.
  assert (Hnd' : NoDup awake)
    by exact (sublist_NoDup _ _ Hnd (process_events_awake _ _ _ _ _ _ _ Hrun)).
  unfold sent_to. rewrite Hrel, filter_app.
  fold awake. fold streamed.
  rewrite (filter_progress awake event generating_msg streamed Hnd' Hin).
  rewrite (filter_to_all awake event _ Hnd' Hin).
  rewrite fmap_app, <- list_fmap_compose. reflexivity.
Qed.

(** ** Broadcasting *)

Lemma stamped_twice (q : Queue) (i k : Z) (est : Estimation) :
  stamped q i (stamped q k est) = stamped q i est.
Proof.
  unfold stamped.
  destruct (avg_concurrent_process_time q), (avg_process_time q); reflexivity.
Qed.

Lemma send_estimation_eq (event : Event) (est : Estimation) (rank : Z) (s : St) :
  avg_concurrent_process_time (queue s) = None
  \/ (is_Some (avg_process_time (queue s)) /\ in_float_range rank) ->
  send_estimation event est rank s
  = let est' := stamped (queue s) rank est in
    let delivered := default true (head (send_script (world s))) in
    (if delivered then sent event (MsgEstimation est') true s
     else cleaned event (sent event (MsgEstimation est') false s),
     Done est').
Proof.
  intros Hok.
  assert (Hsend : forall est0 : Estimation,
            (client_awake <- send_message event (MsgEstimation est0) ;;
             (if negb client_awake then clean_event event else ret tt) ;;
             ret est0) s
            = (if default true (head (send_script (world s)))
               then sent event (MsgEstimation est0) true s
               else cleaned event (sent event (MsgEstimation est0) false s),
               Done est0)).
  { intros est0. unfold bind at 1. rewrite send_message_eq. cbv zeta.
    destruct (default true (head (send_script (world s)))); simpl negb; cbv iota.
    - reflexivity.
    - unfold bind at 1. rewrite clean_event_eq. reflexivity. }
  unfold send_estimation, stamped.
  remember (fun est0 : Estimation =>
              client_awake <- send_message event (MsgEstimation est0) ;;
              (if negb client_awake then clean_event event else ret tt) ;;
              ret est0) as K eqn:HK.
  assert (HsendK : forall est0,
             K est0 s
             = (if default true (head (send_script (world s)))
                then sent event (MsgEstimation est0) true s
                else cleaned event (sent event (MsgEstimation est0) false s),
                Done est0))
    by (subst K; exact Hsend).
  clear Hsend HK. unfold bind, gets, or_raise, ret. simpl.
  destruct (avg_concurrent_process_time (queue s)) as [c|] eqn:Hc.
  - destruct Hok as [Hok | [[a Ha] Hrank]]; [discriminate|].
    rewrite (py_float_in_range rank s Hrank), Ha.
    destruct (py_in None (active_jobs (queue s))); simpl; apply HsendK.
  - apply HsendK.
Qed.

Lemma lookup_tail_S {A} (l : list A) (i : nat) : tail l !! i = l !! S i.
Proof. destruct l; reflexivity. Qed.

Lemma head_lookup_0 {A} (l : list A) : head l = l !! 0%nat.
Proof. destruct l; reflexivity. Qed.

Lemma send_estimations_spec (events : list Event) :
  forall (est : Estimation) (rank : Z) (s : St),
    avg_concurrent_process_time (queue s) = None
    \/ (is_Some (avg_process_time (queue s))
        /\ 0 <= rank /\ in_float_range (rank + Z.of_nat (length events))) ->
    exists s',
      send_estimations est rank events s = (s', Done tt)
      /\ trace s'
         = trace s
           ++ imap (fun i event =>
                      ESend event
                        (MsgEstimation (stamped (queue s) (rank + Z.of_nat i) est))
                        (default true (send_script (world s) !! i))) events
      /\ event_queue (queue s')
         = after_broadcast (send_script (world s)) events (event_queue (queue s)).
Proof.
  induction events as [|event rest IH]; intros est rank s Hok.
  - exists s. simpl. rewrite app_nil_r. repeat split; reflexivity.
  - assert (Hok1 : avg_concurrent_process_time (queue s) = None
                   \/ (is_Some (avg_process_time (queue s)) /\ in_float_range rank)).
    { destruct Hok as [Hok | (Ha & Hrank & Hrange)]; [left; exact Hok | right].
      split; [exact Ha|]. unfold in_float_range in *. simpl length in Hrange. lia. }
    simpl send_estimations. unfold bind at 1.
    rewrite (send_estimation_eq _ _ _ _ Hok1). cbv zeta.
    set (delivered := default true (head (send_script (world s)))).
    set (est' := stamped (queue s) rank est).
    set (s1 := if delivered then sent event (MsgEstimation est') true s
               else cleaned event (sent event (MsgEstimation est') false s)).
    assert (Hs1 : trace s1 = trace s ++ [ESend event (MsgEstimation est') delivered]
                  /\ send_script (world s1) = tail (send_script (world s))
                  /\ event_queue (queue s1)
                     = (if delivered then event_queue (queue s)
                        else without_first event (without_first event (event_queue (queue s))))
                  /\ (forall i e, stamped (queue s1) i e = stamped (queue s) i e)
                  /\ avg_concurrent_process_time (queue s1)
                     = avg_concurrent_process_time (queue s)
                  /\ avg_process_time (queue s1) = avg_process_time (queue s)).
    { unfold s1. destruct delivered; repeat split; reflexivity. }
    destruct Hs1 as (Et1 & Hscript & Hq1 & Hst & Hc1 & Ha1).
    destruct (IH est' (rank + 1) s1) as (s' & Hrun & Et & Hq).
    { rewrite Hc1, Ha1.
      destruct Hok as [Hok | (Ha & Hrank & Hrange)]; [left; exact Hok | right].
      split; [exact Ha|]. split; [lia|].
      unfold in_float_range in *. simpl length in Hrange. lia. }
    exists s'. split; [exact Hrun|]. split.
    + rewrite Et, Et1, <- app_assoc. f_equal. simpl. f_equal.
      * unfold est', delivered. rewrite head_lookup_0.
        replace (rank + Z.of_nat 0) with rank by lia. reflexivity.
      * apply imap_ext. intros i ev _. simpl.
        rewrite Hst. unfold est'. rewrite stamped_twice, Hscript, lookup_tail_S.
        replace (rank + 1 + Z.of_nat i) with (rank + Z.of_nat (S i)) by lia.
        reflexivity.
    + rewrite Hq, Hscript, Hq1. reflexivity.
Qed.

Lemma without_first_here (event : Event) (l : list Event) :
  without_first event (event :: l) = l.
Proof.
  unfold without_first. simpl. rewrite decide_True by reflexivity.
  apply drop_matching_none.
Qed.

Lemma without_first_app (event : Event) (kept l : list Event) :
  event ∉ kept -> without_first event (kept ++ l) = kept ++ without_first event l.
Proof.
  unfold without_first. induction kept as [|x kept IH]; intros Hnot; [reflexivity|].
  apply not_elem_of_cons in Hnot as [Hne Hnot]. simpl.
  rewrite decide_False by congruence. rewrite IH by exact Hnot. reflexivity.
Qed.

Lemma after_broadcast_NoDup (events : list Event) :
  forall (script : list bool) (kept : list Event),
    NoDup (kept ++ events) ->
    after_broadcast script events (kept ++ events) = kept ++ reached script events.
Proof.
  induction events as [|event rest IH]; intros script kept Hnd; [reflexivity|].
  simpl. destruct (default true (head script)).
  - change (kept ++ event :: rest) with (kept ++ [event] ++ rest).
    rewrite app_assoc. rewrite IH by (rewrite <- app_assoc; exact Hnd).
    rewrite <- app_assoc. reflexivity.
  - apply NoDup_app in Hnd as (Hkept & Hdisj & Hrest).
    apply NoDup_cons in Hrest as [Hfresh Hrest].
    assert (Hnot : event ∉ kept).
    { intros Hin. apply (Hdisj _ Hin). apply elem_of_cons. auto. }
    rewrite (without_first_app _ _ _ Hnot), without_first_here.
    rewrite (without_first_app _ _ _ Hnot), (without_first_absent _ _ Hfresh).
    apply IH. apply NoDup_app. split; [exact Hkept|]. split; [|exact Hrest].
    intros x Hx Hx'. apply (Hdisj _ Hx). apply elem_of_cons. auto.
Qed.

Lemma broadcast_estimations_eq (s : St) :
  broadcast_estimations s
  = match snd (get_estimation (queue s)) with
    | Done est => send_estimations est 0 (event_queue (queue s)) s
    | Raised e => (s, Raised e)
    | Hung => (s, Hung)
    end.
Proof.
  unfold broadcast_estimations. unfold bind at 1. rewrite on_queue_get_estimation.
  destruct (snd (get_estimation (queue s))); reflexivity.
Qed.

(** Property X15. Unless the concurrent average is set while the
    average is not (and with a queue length that a float can hold),
    [broadcast_estimations] raises before it has sent anything when
    [queue_duration] has no integer part, and otherwise returns, having
    sent one estimation to every waiting event, in queue order; the
    i-th carries rank i, the size the queue had when the broadcast
    began and the [queue_eta] of [get_estimation]: ranks are not
    renumbered when a client is found gone. An event whose send fails
    is taken off the queue, once by [send_message] and once more by
    [send_estimation]; on a queue of distinct events exactly the events
    that were reached stay, in order. *)
Theorem broadcast_estimations_ranks (s : St) :
  avg_concurrent_process_time (queue s) = None
  \/ (is_Some (avg_process_time (queue s))
      /\ in_float_range (Z.of_nat (length (event_queue (queue s))))) ->
  let events := event_queue (queue s) in
  let script := send_script (world s) in
  match py_int_of_float (queue_duration (queue s)) with
  | None => broadcast_estimations s = (s, Raised ValueError)
  | Some eta =>
      exists est s',
        get_estimation (queue s) = (queue s, Done est)
        /\ broadcast_estimations s = (s', Done tt)
        /\ trace s'
           = trace s
             ++ imap (fun i event =>
                        ESend event (MsgEstimation (stamped (queue s) (Z.of_nat i) est))
                              (default true (script !! i))) events
        /\ (forall i, rank (stamped (queue s) i est) = Some i
                      /\ queue_size (stamped (queue s) i est) = Z.of_nat (length events)
                      /\ queue_eta (stamped (queue s) i est) = eta)
        /\ event_queue (queue s') = after_broadcast script events events
        /\ (NoDup events -> event_queue (queue s') = reached script events)
  end.
Proof.
  intros Hok events script.
  rewrite broadcast_estimations_eq, get_estimation_eq. simpl snd.
  destruct (py_int_of_float (queue_duration (queue s))) as [eta|]; [|reflexivity].
  match goal with |- context [send_estimations ?e 0 _ _] => set (est := e) end.
  destruct (send_estimations_spec events est 0 s) as (s' & Hrun & Et & Hq).
  { destruct Hok as [Hok | [Ha Hrange]]; [left; exact Hok | right].
    split; [exact Ha|]. split; [lia | exact Hrange]. }
  exists est, s'. split; [reflexivity|].
  split; [exact Hrun|]. split; [exact Et|]. split.
  { intros i. unfold stamped.
    destruct (avg_concurrent_process_time (queue s)), (avg_process_time (queue s));
      repeat split; reflexivity. }
  split; [exact Hq|].
  intros Hnd. rewrite Hq. apply (after_broadcast_NoDup events script []). exact Hnd.
Qed.

(** ** Invariants of the queue at work *)

(** Property X16. [process_events] and [broadcast_estimations] never
    add to the waiting queue nor reorder it: the queue they leave is a
    sublist of the queue they found; they write neither the settings
    given to [__init__] nor the [stopped] flag. *)
Theorem tasks_only_remove_events (legacy_python : bool) (events : list Event)
    (batch : bool) (legs : list Leg) (s : St) :
  only_leave s (fst (process_events legacy_python events batch legs s))
  /\ only_leave s (fst (broadcast_estimations s)).
Proof. split; [apply process_events_only_leave | apply broadcast_only_leave]. Qed.

(** Property X17. Whatever happens to a queue after [__init__]
    (admissions, turns of the dispatcher, processing tasks, broadcasts,
    [close] and [resume], in any order and number), the slot table keeps
    its [concurrency_count] cells (none when that number is negative),
    the worker count stays between zero and [concurrency_count], and
    the settings are those given to [__init__]. *)
Theorem worker_count_within_limit (live_updates : bool)
    (concurrency_count data_gathering_start update_intervals : Z)
    (max_size : option Z) (blocks_dependencies : list Dependency)
    (w : World) (actions : list Action) :
  let s := run actions
             (started (init live_updates concurrency_count data_gathering_start
                            update_intervals max_size blocks_dependencies) w) in
  length (active_jobs (queue s)) = Z.to_nat concurrency_count
  /\ 0 <= get_active_worker_count (queue s) <= Z.max 0 concurrency_count
  /\ settings (queue s)
     = (concurrency_count, data_gathering_start, update_intervals,
        live_updates, max_size, blocks_dependencies).
Proof.
  intros s. destruct (run_frame actions
    (started (init live_updates concurrency_count data_gathering_start
                   update_intervals max_size blocks_dependencies) w)) as [Hset Hlen].
  fold s in Hset, Hlen. simpl in Hlen. rewrite length_replicate in Hlen.
  split; [exact Hlen|]. split; [|exact Hset].
  rewrite worker_count_busy. pose proof (busy_length (active_jobs (queue s))). lia.
Qed.

(** Property X18. A bounded queue that holds at most [max_size]
    events still holds at most [max_size] events after any sequence of
    actions, and its bound is never changed. *)
Theorem queue_never_exceeds_max_size (s : St) (m : Z) (actions : list Action) :
  max_size (queue s) = Some m ->
  Z.of_nat (length (event_queue (queue s))) <= m ->
  max_size (queue (run actions s)) = Some m
  /\ Z.of_nat (length (event_queue (queue (run actions s)))) <= m.
Proof.
  intros Hmax Hlen. split.
  - destruct (run_frame actions s) as [Hset _]. unfold settings in Hset.
    injection Hset as _ _ _ _ -> _. exact Hmax.
  - pose proof (run_bounded actions s m Hmax). lia.
Qed.

(** Property X19. A queue created with [concurrency_count <= 0] has
    no slot: whatever happens to it, no batch is ever dispatched; every
    turn of the dispatcher exits or sleeps and leaves the queue as it
    is. *)
Theorem no_slot_never_dispatches (live_updates : bool)
    (concurrency_count data_gathering_start update_intervals : Z)
    (max_size : option Z) (blocks_dependencies : list Dependency)
    (w : World) (actions : list Action) :
  concurrency_count <= 0 ->
  let s := run actions
             (started (init live_updates concurrency_count data_gathering_start
                            update_intervals max_size blocks_dependencies) w) in
  active_jobs (queue s) = []
  /\ get_active_worker_count (queue s) = 0
  /\ start_processing_step (queue s)
     = (queue s, Done (if stopped (queue s) then Exit else Sleep)).
Proof.
  intros Hc s. destruct (run_frame actions
    (started (init live_updates concurrency_count data_gathering_start
                   update_intervals max_size blocks_dependencies) w)) as [_ Hlen].
  fold s in Hlen. simpl in Hlen. rewrite length_replicate in Hlen.
  assert (Hjobs : active_jobs (queue s) = []).
  { apply nil_length_inv. rewrite Hlen. lia. }
  split; [exact Hjobs|]. split.
  - rewrite worker_count_busy, Hjobs. reflexivity.
  - apply start_processing_step_full. rewrite Hjobs. reflexivity.
Qed.

(** ** The transport *)

(** Property X20. [clean_event] never raises: it takes the first
    occurrence of the event off the waiting queue and leaves everything
    else; when the event is not waiting the state is unchanged, and on
    a queue of distinct events the event is not waiting afterwards. *)
Theorem clean_event_removes_first (event : Event) (s : St) :
  clean_event event s = (cleaned event s, Done tt)
  /\ (event ∉ event_queue (queue s) -> clean_event event s = (s, Done tt))
  /\ (NoDup (event_queue (queue s)) ->
      event ∉ event_queue (queue (fst (clean_event event s)))).
Proof.
  split; [apply clean_event_eq|]. split.
  - intros Hnot. rewrite clean_event_eq. unfold cleaned.
    rewrite (without_first_absent _ _ Hnot), set_event_queue_id, set_queue_id.
    reflexivity.
  - intros Hnd. rewrite clean_event_eq. simpl. apply without_first_NoDup, Hnd.
Qed.

(** Property X21. [send_message] never raises: it returns whether
    [send_json] went through, logs that one send, and when it did not
    go through takes the event off the waiting queue; payloads and slot
    table are untouched. *)
Theorem send_message_never_raises (event : Event) (data : Msg) (s : St) :
  let delivered := default true (head (send_script (world s))) in
  let s' := fst (send_message event data s) in
  send_message event data s = (sent event data delivered s, Done delivered)
  /\ trace s' = trace s ++ [ESend event data delivered]
  /\ event_queue (queue s')
     = (if delivered then event_queue (queue s)
        else without_first event (event_queue (queue s)))
  /\ heap s' = heap s
  /\ active_jobs (queue s') = active_jobs (queue s).
Proof.
  intros delivered s'. unfold s'. rewrite send_message_eq. fold delivered.
  split; [reflexivity|]. unfold sent, cleaned.
  destruct delivered; repeat split; reflexivity.
Qed.

(** Property X22. [gather_event_data] contacts nobody when the event
    has its payload. Otherwise it asks for it; when the request is not
    delivered it answers [False] and the event leaves the queue; when
    it is delivered it answers [True] whether or not a payload came
    back, and stores what came back: after a failed [receive_json] the
    event is off the queue and still without payload. *)
Theorem gather_event_data_cases (event : Event) (s : St) :
  let delivered := default true (head (send_script (world s))) in
  let payload := default None (head (recv_script (world s))) in
  let s' := fst (gather_event_data event s) in
  match heap_get (heap s) (ev_id event) with
  | Some _ => gather_event_data event s = (s, Done true)
  | None =>
      snd (gather_event_data event s) = Done delivered
      /\ trace s'
         = trace s ++ ESend event MsgSendData delivered
                      :: (if delivered then [ERecv event payload] else [])
      /\ heap_get (heap s') (ev_id event) = (if delivered then payload else None)
      /\ event_queue (queue s')
         = (if delivered && bool_decide (is_Some payload)
            then event_queue (queue s)
            else without_first event (event_queue (queue s)))
  end.
Proof.
  intros delivered payload s'. unfold s'. rewrite gather_event_data_eq.
  destruct (heap_get (heap s) (ev_id event)) as [d|] eqn:Hd; [reflexivity|].
  cbv zeta. fold delivered. fold payload.
  destruct delivered.
  - simpl fst. simpl snd. split; [reflexivity|].
    unfold received, sent, cleaned.
    destruct payload as [p|]; simpl.
    + split; [rewrite <- app_assoc; reflexivity|].
      split; [rewrite decide_True by reflexivity; reflexivity | reflexivity].
    + split; [rewrite <- app_assoc; reflexivity|].
      split; [apply (heap_get_unset (heap s)) | reflexivity].
  - simpl. unfold sent, cleaned. simpl.
    split; [reflexivity|]. split; [reflexivity|]. split; [exact Hd | reflexivity].
Qed.

(** ** Batches of a non-positive size *)

(** Property X23. With batching enabled and a maximum batch size
    [k <= 0], the slice [[: k - 1]] counts from the back: the batch is
    the front event and all the matching events but the last [1 - k];
    with [k = 0] it takes all the matching events but one, however many
    there are. *)
Theorem get_events_in_batch_nonpositive_size (q : Queue) (front : Event)
    (rest : list Event) (i k : Z) (dep : Dependency) :
  event_queue q = front :: rest ->
  fn_index front = Some i ->
  py_getitem (blocks_dependencies q) i = Some dep ->
  dep_batch dep = true ->
  dep_max_batch_size dep = k ->
  k <= 0 ->
  let same_fn := fun e : Event => fn_index e = fn_index front in
  let matching := filter same_fn rest in
  let n := (length matching - Z.to_nat (1 - k))%nat in
  get_events_in_batch q
  = (set_event_queue (drop_matching same_fn n rest) q,
     Done (Some (front :: take n matching), true))
  /\ length (front :: take n matching) = S n.
Proof.
  intros Hq Hfn Hdep Hbatch Hk Hle.
  destruct front as [id fi sh tk]; simpl in Hfn; subst fi; simpl.
  set (front := {| ev_id := id; fn_index := Some i; session_hash := sh; token := tk |}) in *.
  set (P := fun e : Event => fn_index e = Some i).
  split.
  - unfold get_events_in_batch. step_monad. rewrite Hq. simpl.
    rewrite Hdep. simpl. rewrite Hbatch, Hk.
    unfold py_slice_to. rewrite decide_False by lia.
    fold P.
    replace (Z.to_nat (Z.of_nat (length (filter P rest)) + (k - 1)))
      with (length (filter P rest) - Z.to_nat (1 - k))%nat by lia.
    erewrite for_each_remove by (simpl; apply remove_all_take_filter).
    reflexivity.
  - rewrite length_take. lia.
Qed.

(** ** The request of a batched call *)

(** Property X24. A batched [call_prediction] overwrites the payload
    of the first event with the request it builds, so that the next
    call of the same cycle (the streaming loop calls again) is built
    from the rewritten payload: for a batch of one event with payload
    [[x1, ..., xn]] the first request carries [[[x1], ..., [xn]]] and the
    second [[[[x1]], ..., [[xn]]]]. *)
Theorem batched_request_rewraps_payload (event : Event) (l : list val) (b : bool)
    (s : St) :
  heap_get (heap s) (ev_id event) = Some {| pb_data := VList l; pb_batched := b |} ->
  let once := {| pb_data := VList (map (fun x => VList [x]) l); pb_batched := true |} in
  let twice := {| pb_data := VList (map (fun x => VList [VList [x]]) l);
                  pb_batched := true |} in
  exists s1 s2,
    request_body [event] true s = (s1, Done (once, token event))
    /\ heap_get (heap s1) (ev_id event) = Some once
    /\ request_body [event] true s1 = (s2, Done (twice, token event))
    /\ heap_get (heap s2) (ev_id event) = Some twice.
Proof.
  intros Hdata once twice.
  assert (Hstep : forall (l0 : list val) (b0 : bool) (s0 : St),
            heap_get (heap s0) (ev_id event)
              = Some {| pb_data := VList l0; pb_batched := b0 |} ->
            exists s',
              request_body [event] true s0
              = (s', Done ({| pb_data := VList (map (fun x => VList [x]) l0);
                              pb_batched := true |}, token event))
              /\ heap_get (heap s') (ev_id event)
                 = Some {| pb_data := VList (map (fun x => VList [x]) l0);
                           pb_batched := true |}).
  { intros l0 b0 s0 H0. unfold request_body, get_data, set_data. step_monad.
    rewrite H0. simpl. rewrite decide_True by reflexivity. simpl.
    rewrite map_map. eexists. split; [reflexivity|]. simpl.
    rewrite decide_True by reflexivity. reflexivity. }
  destruct (Hstep l b s Hdata) as (s1 & Hrun1 & Hheap1).
  destruct (Hstep _ _ s1 Hheap1) as (s2 & Hrun2 & Hheap2).
  rewrite map_map in Hrun2, Hheap2.
  exists s1, s2. repeat split; assumption.
Qed.

(** ** Broadcasting on dispatch or on a timer *)

(** Property X25. Estimations are sent in one of two ways, never
    both: with [live_updates], [start] launches the dispatcher alone
    and [broadcast_live_estimations], run after a dispatch, broadcasts;
    without it, [start] also launches [notify_clients] and
    [broadcast_live_estimations] does nothing. *)
Theorem estimations_live_or_periodic (s : St) :
  (live_updates (queue s) = true ->
   start (queue s) = [StartProcessing]
   /\ broadcast_live_estimations s = broadcast_estimations s)
  /\ (live_updates (queue s) = false ->
      start (queue s) = [StartProcessing; NotifyClients]
      /\ broadcast_live_estimations s = (s, Done tt)).
Proof.
  unfold start, broadcast_live_estimations. step_monad.
  split; intros ->; split; reflexivity.
Qed.

Lemma notify_clients_turn_cases (s : St) :
  notify_clients_turn s
  = match event_queue (queue s) with
    | [] => (s, Done tt)
    | _ :: _ => broadcast_estimations s
    end.
Proof.
  unfold notify_clients_turn. step_monad.
  destruct (event_queue (queue s)); reflexivity.
Qed.

(** Property X26. [notify_clients] reads [stopped] only at the head
    of its loop: called on a stopped queue it returns at once, but when
    the queue is closed while it sleeps it still takes its turn after
    waking, which is one broadcast when events are waiting, and returns
    only then. *)
Theorem notify_clients_stops_at_loop_head (sleeps : list (list Action))
    (meanwhile : list Action) (s : St) :
  (stopped (queue s) = true -> notify_clients sleeps s = (s, Done tt))
  /\ (stopped (queue s) = false ->
      stopped (queue (run meanwhile s)) = true ->
      notify_clients (meanwhile :: sleeps) s = notify_clients_turn (run meanwhile s)
      /\ (event_queue (queue (run meanwhile s)) <> [] ->
          notify_clients (meanwhile :: sleeps) s
          = broadcast_estimations (run meanwhile s))).
Proof.
  split.
  - intros Hs. destruct sleeps; simpl; step_monad; rewrite Hs; reflexivity.
  - intros Hs Hclosed.
    assert (Hturn : notify_clients (meanwhile :: sleeps) s
                    = notify_clients_turn (run meanwhile s)).
    { simpl. unfold bind at 1, gets at 1. rewrite Hs.
      unfold bind at 1, modify at 1. unfold bind at 1.
      assert (Hstop : stopped (queue (fst (notify_clients_turn (run meanwhile s)))) = true).
      { rewrite notify_clients_turn_cases.
        destruct (event_queue (queue (run meanwhile s))); [exact Hclosed|].
        pose proof (broadcast_only_leave (run meanwhile s)) as (_ & _ & Hstop).
        rewrite Hstop. exact Hclosed. }
      destruct (notify_clients_turn (run meanwhile s)) as [s' [[]|e|]]; try reflexivity.
      simpl in Hstop.
      destruct sleeps; simpl; step_monad; rewrite Hstop; reflexivity. }
    split; [exact Hturn|].
    intros Hne. rewrite Hturn, notify_clients_turn_cases.
    destruct (event_queue (queue (run meanwhile s))); [contradiction | reflexivity].
Qed.

Lemma sublist_elem {A} (l k : list A) (x : A) : sublist l k -> x ∈ l -> x ∈ k.
Proof. intros Hsub Hin. eapply elem_of_submseteq; [exact Hin | apply sublist_submseteq, Hsub]. Qed.

Section Among.
Variable legacy_python : bool.
Variable events : list Event.
Variable batch : bool.

Ltac among_side := calm_side ltac:(intros; reflexivity).

Lemma among_refl s : among events s s.
Proof. apply calm_refl. Qed.

Lemma among_trans s1 s2 s3 : among events s1 s2 -> among events s2 s3 -> among events s1 s3.
Proof. apply calm_trans. Qed.

Lemma within_log (s s' : St) (t : list effect) :
  among events s s' -> trace s' = trace s ++ t ->
  forall event, event ∈ contacted t -> event ∈ events.
Proof.
  intros [Hlog _] Et event Hin.
  pose proof (logs_only_ext _ _ _ _ Hlog Et) as Hall.
  unfold contacted in Hin. apply list_elem_of_omap in Hin as (e & He & Hadd).
  rewrite forallb_forall in Hall. apply list_elem_of_In in He.
  specialize (Hall e He). unfold within in Hall. rewrite Hadd in Hall.
  apply bool_decide_eq_true in Hall. exact Hall.
Qed.

Lemma among_for_each {A} (l : list A) (body : A -> M St unit) :
  (forall x, x ∈ l -> keeps (among events) (body x)) ->
  keeps (among events) (for_each l body).
Proof.
  induction l as [|x l IH]; intros Hbody; simpl.
  - apply keeps_ret. apply among_refl.
  - apply keeps_bind; [apply among_trans | |].
    + apply Hbody. apply elem_of_cons. auto.
    + intros _. apply IH. intros y Hy. apply Hbody. apply elem_of_cons. auto.
Qed.

Lemma among_send_message (event : Event) (data : Msg) :
  event ∈ events -> keeps (among events) (send_message event data).
Proof.
  intros Hin.
  apply (keeps_send_message (among events)) with (ok := ok_both (within events) any_effect);
    try solve [among_side].
  intros delivered. unfold ok_both, within. simpl.
  rewrite bool_decide_true by exact Hin. reflexivity.
Qed.

Lemma among_gather_event_data (event : Event) :
  event ∈ events -> keeps (among events) (gather_event_data event).
Proof.
  intros Hin.
  apply (keeps_gather_event_data (among events))
    with (ok := ok_both (within events) any_effect);
    try solve [among_side];
    intros; unfold ok_both, within; simpl;
    rewrite bool_decide_true by exact Hin; reflexivity.
Qed.

Lemma among_disconnect (event : Event) :
  event ∈ events -> keeps (among events) (disconnect event).
Proof.
  intros Hin.
  apply (keeps_disconnect (among events)) with (ok := ok_both (within events) any_effect);
    try solve [among_side].
  intros closed. unfold ok_both, within. simpl.
  rewrite bool_decide_true by exact Hin. reflexivity.
Qed.

Lemma among_gather_awake : keeps (among events) (gather_awake events).
Proof.
  unfold gather_awake. apply among_for_each. intros event Hin.
  apply keeps_bind; [apply among_trans | apply among_gather_event_data, Hin |].
  intros awake1. apply keeps_bind; [apply among_trans | |].
  - destruct awake1; [apply among_send_message, Hin | apply keeps_ret, among_refl].
  - intros []; [|apply keeps_ret, among_refl]. among_side.
Qed.

Lemma among_relay (awake : list Event) (data : Msg) :
  (forall event, event ∈ awake -> event ∈ events) ->
  keeps (among events) (relay awake data).
Proof.
  intros Hsub. unfold relay. apply among_for_each. intros event Hin.
  apply keeps_bind; [apply among_trans | apply among_send_message, Hsub, Hin |].
  intros _. apply keeps_ret, among_refl.
Qed.

Lemma among_call_prediction (awake : list Event) (answer : option Leg) :
  keeps (among events) (call_prediction awake batch answer).
Proof.
  apply (keeps_call_prediction (among events))
    with (ok := ok_both (within events) any_effect); among_side.
Qed.

Lemma among_is_generating (response : Response) :
  keeps (among events) (is_generating response).
Proof. apply keeps_is_generating; among_side. Qed.

Lemma among_ping (target : option Event) :
  (forall event, target = Some event -> event ∈ events) ->
  keeps (among events)
    (if legacy_python
     then target <- or_raise UnboundLocalError target ;; send_message target MsgAlive
     else ret true).
Proof.
  intros Htarget. destruct legacy_python; [|apply keeps_ret, among_refl].
  destruct target as [event|]; intros s.
  - apply (among_send_message event MsgAlive (Htarget event eq_refl) s).
  - apply among_refl.
Qed.

Lemma among_generating_loop (awake : list Event) (legs : list Leg) :
  (forall event, event ∈ awake -> event ∈ events) ->
  forall (response : Response) (target : option Event),
    (forall event, target = Some event -> event ∈ events) ->
    keeps (among events) (generating_loop legacy_python batch awake legs response target).
Proof.
  intros Hsub.
  assert (Hnext : forall target : option Event,
            (forall event, target = Some event -> event ∈ events) ->
            forall event,
              match last awake with
              | Some e => Some e
              | None => target
              end = Some event -> event ∈ events).
  { intros target Htarget event.
    destruct (last awake) as [e|] eqn:Hlast; [|apply Htarget].
    intros [= <-]. apply Hsub. eapply last_Some_elem_of, Hlast. }
  induction legs as [|leg legs IH]; intros response target Htarget; simpl.
  - apply keeps_bind; [apply among_trans | apply among_ping, Htarget |].
    intros []; simpl; [|apply keeps_ret, among_refl].
    apply keeps_bind; [apply among_trans | apply among_relay, Hsub |].
    intros _. apply keeps_bind; [apply among_trans | apply among_call_prediction |].
    intros _. apply keeps_hang, among_refl.
  - apply keeps_bind; [apply among_trans | apply among_ping, Htarget |].
    intros []; simpl; [|apply keeps_ret, among_refl].
    apply keeps_bind; [apply among_trans | apply among_relay, Hsub |].
    intros _. apply keeps_bind; [apply among_trans | apply among_call_prediction |].
    intros response'.
    apply keeps_bind; [apply among_trans | apply among_is_generating |].
    intros []; [apply IH, Hnext, Htarget | apply keeps_ret, among_refl].
Qed.

Lemma among_relay_single (response : Response) (awake : list Event) :
  (forall event, event ∈ awake -> event ∈ events) ->
  forall (output : option Json) (e : nat),
    keeps (among events) (relay_single batch response output e awake).
Proof.
  induction awake as [|event awake IH]; intros Hsub output e; simpl.
  - apply keeps_ret, among_refl.
  - apply keeps_bind; [apply among_trans | |].
    + destruct batch; [|apply keeps_ret, among_refl].
      apply keeps_bind; [apply among_trans | apply keeps_or_raise, among_refl |].
      intros out. destruct (j_data out); [|apply keeps_ret, among_refl].
      repeat (apply keeps_bind;
              [apply among_trans | apply keeps_or_raise, among_refl | intros ?]).
      apply keeps_ret, among_refl.
    + intros output'.
      apply keeps_bind; [apply among_trans | |].
      * apply among_send_message, Hsub, elem_of_cons. auto.
      * intros _. apply IH. intros ev Hev. apply Hsub, elem_of_cons. auto.
Qed.

Lemma among_handle_response (awake : list Event) (response : Response)
    (legs : list Leg) :
  (forall event, event ∈ awake -> event ∈ events) ->
  keeps (among events)
    (handle_response legacy_python events batch awake response legs).
Proof.
  intros Hsub. unfold handle_response. destruct (has_exception response).
  - apply keeps_bind; [apply among_trans | apply among_relay, Hsub |].
    intros _. apply keeps_ret, among_refl.
  - apply keeps_bind; [apply among_trans | apply among_is_generating |].
    intros [].
    + apply keeps_bind; [apply among_trans | |].
      * apply among_generating_loop; [exact Hsub|].
        intros event Hlast. eapply last_Some_elem_of, Hlast.
      * intros [[r old]|]; [|apply keeps_ret, among_refl].
        apply keeps_bind; [apply among_trans | apply among_relay, Hsub |].
        intros _. apply keeps_ret, among_refl.
    + apply keeps_bind; [apply among_trans | apply among_relay_single, Hsub |].
      intros _. apply keeps_ret, among_refl.
Qed.

Lemma among_record_duration (begin_time : float) (final : option Response) :
  keeps (among events) (record_duration begin_time final).
Proof.
  apply (keeps_record_duration (among events))
    with (ok := ok_both (within events) any_effect); among_side.
Qed.

(** The [try] block after its first loop, for the awake events it has
    found. *)
Lemma among_rest (awake : list Event) (legs : list Leg) :
  (forall event, event ∈ awake -> event ∈ events) ->
  keeps (among events)
    (match awake with
     | [] => ret tt
     | _ :: _ =>
         begin_time <- time ;;
         response <- call_prediction awake batch (head legs) ;;
         final <- handle_response legacy_python events batch awake response (tail legs) ;;
         record_duration begin_time final
     end).
Proof.
  intros Hsub. destruct awake as [|e awake]; [apply keeps_ret, among_refl|].
  apply keeps_bind; [apply among_trans | apply keeps_gets, among_refl |].
  intros begin_time.
  apply keeps_bind; [apply among_trans | apply among_call_prediction |].
  intros response.
  apply keeps_bind; [apply among_trans | apply among_handle_response, Hsub |].
  intros final. apply among_record_duration.
Qed.

Lemma among_body (legs : list Leg) (s : St) :
  awake_events s = [] ->
  among events s (fst (process_events_body legacy_python events batch legs s)).
Proof.
  intros Hempty. unfold process_events_body. unfold bind at 1.
  pose proof (among_gather_awake s) as Kg.
  destruct (gather_awake_sublist events s) as (l & El & Hl).
  destruct (gather_awake events s) as [sg rg]. simpl in Kg, El.
  rewrite Hempty in El. simpl in El.
  destruct rg as [[]|e|]; simpl; try exact Kg.
  eapply among_trans; [exact Kg|].
  unfold bind at 1, gets at 1. rewrite El.
  apply among_rest. intros event Hin. eapply sublist_elem; eassumption.
Qed.

Lemma among_cleanup (s : St) :
  (forall event, event ∈ awake_events s -> event ∈ events) ->
  among events s (fst (process_events_cleanup legacy_python events s)).
Proof.
  intros Hsub. unfold process_events_cleanup. unfold bind at 1, gets at 1.
  revert s Hsub.
  enough (K : forall awake,
             (forall event, event ∈ awake -> event ∈ events) ->
             keeps (among events)
               (disconnect_all legacy_python awake ;;
                jobs <- gets (fun s => active_jobs (queue s)) ;;
                i <- or_raise ValueError (py_index (Some events) jobs) ;;
                on_queue (modify (set_active_jobs (<[i := None]> jobs))) ;;
                emit (ERelease i) ;;
                for_each awake (fun event =>
                  clean_event event ;;
                  reset_iterators (session_hash event) (fn_index event))))
    by (intros s Hsub; apply (K (awake_events s) Hsub s)).
  intros awake Hsub.
  apply keeps_bind; [apply among_trans | |].
  { unfold disconnect_all. apply among_for_each. intros event Hin.
    apply keeps_except_Exception, among_disconnect, Hsub, Hin. }
  intros _. apply keeps_bind; [apply among_trans | apply keeps_gets, among_refl |].
  intros jobs. apply keeps_bind; [apply among_trans | apply keeps_or_raise, among_refl |].
  intros i. apply keeps_bind; [apply among_trans | among_side |].
  intros _. apply keeps_bind; [apply among_trans | |].
  { apply (calm_emit (within events) any_effect (fun _ => tt));
      [intros; reflexivity | reflexivity]. }
  intros _. apply among_for_each. intros event Hin.
  apply keeps_bind; [apply among_trans | |].
  - apply keeps_clean_event; among_side.
  - intros _.
    apply (keeps_reset_iterators (among events))
      with (ok := ok_both (within events) any_effect); among_side.
Qed.

(** Property X27. [process_events] exchanges messages only with the
    events of its own batch: every send, receive and close of the call
    is addressed to an event of [events]. *)
Theorem process_events_contacts_own_batch (legs : list Leg) (s s' : St)
    (r : outcome unit) (t : list effect) :
  process_events legacy_python events batch legs s = (s', r) ->
  trace s' = trace s ++ t ->
  forall event, event ∈ contacted t -> event ∈ events.
Proof.
  intros Hrun Et. eapply (within_log s s'); [|exact Et].
  assert (Hs' : s' = fst (process_events legacy_python events batch legs s))
    by (rewrite Hrun; reflexivity).
  rewrite Hs'. clear Hrun Et Hs'.
  unfold process_events. unfold bind at 1. simpl. unfold try_finally.
  pose proof (among_body legs (set_awake_events [] s) eq_refl) as Kb.
  assert (Hawake : forall s1 rb,
            process_events_body legacy_python events batch legs (set_awake_events [] s)
            = (s1, rb) ->
            forall event, event ∈ awake_events s1 -> event ∈ events).
  { intros s1 rb Hb event Hin.
    assert (Hsub : sublist (awake_events s1) events).
    { destruct (gather_awake_sublist events (set_awake_events [] s))
        as (l & El & Hl). simpl in El.
      unfold process_events_body in Hb.
      apply bind_inv in Hb as [(sg & [] & Hg & Hb) | [(e & Hg & ->) | [Hg ->]]];
        rewrite Hg in El; simpl in El; try (rewrite El; exact Hl).
      enough (K : awake_kept sg s1) by (destruct K as [_ K]; rewrite K, El; exact Hl).
      eapply keeps_run; [|exact Hb].
      apply keeps_bind; try solve [awake_side].
      { apply keeps_gets; awake_side. }
      intros [|e awake]; [apply keeps_ret; awake_side|].
      apply keeps_bind; try solve [awake_side].
      { apply keeps_gets; awake_side. }
      intros begin_time. apply keeps_bind; try solve [awake_side].
      { apply keeps_call_prediction with (ok := ok_both any_effect any_effect);
          awake_side. }
      intros response. apply keeps_bind; try solve [awake_side].
      { apply keeps_handle_response with (ok := ok_both any_effect any_effect);
          awake_side. }
      intros final.
      apply keeps_record_duration with (ok := ok_both any_effect any_effect);
        awake_side. }
    eapply sublist_elem; eassumption. }
  destruct (process_events_body legacy_python events batch legs (set_awake_events [] s))
    as [s1 rb]. simpl in Kb.
  assert (Kb' : among events s s1).
  { destruct Kb as [(tb & Etb & Hb) _]. split; [|reflexivity]. exists tb. auto. }
  pose proof (among_cleanup s1 (Hawake s1 rb eq_refl)) as Kc.
  destruct rb as [[]|e|]; simpl; try exact Kb';
    destruct (process_events_cleanup legacy_python events s1) as [s2 [[]| |]]; simpl in *;
    eapply among_trans; eassumption.
Qed.
End Among.

(** * Further scenarios, checked *)

Lemma dispatch_conserves_events_witness :
  [client 1 5; client 2 5] ++ [client 3 5] ≡ₚ event_queue batching_queue
  /\ get_active_worker_count (fst (start_processing_step batching_queue)) = 1.
Proof.
  destruct (dispatch_conserves_events batching_queue
              (fst (start_processing_step batching_queue))
              [client 1 5; client 2 5] true)
    as (front & rest & i & _ & _ & _ & _ & Hperm & _ & _ & _ & _ & _ & Hcount).
  - vm_compute. reflexivity.
  - split; [exact Hperm|]. rewrite Hcount. vm_compute. reflexivity.
Defined.

Lemma dispatch_drops_unroutable_witness :
  start_processing_step (set_event_queue [unroutable; client 2 0] plain_queue)
  = (set_event_queue [client 2 0] plain_queue, Raised TypeError)
  /\ start_processing_step (set_event_queue [client 1 7; client 2 0] plain_queue)
     = (set_event_queue [client 2 0] plain_queue, Raised IndexError).
Proof.
  split.
  - refine (proj2 (proj1 (dispatch_drops_unroutable
                            (set_event_queue [unroutable; client 2 0] plain_queue)
                            unroutable [client 2 0] _ _ _) _));
      reflexivity.
  - refine (proj2 (proj2 (dispatch_drops_unroutable
                            (set_event_queue [client 1 7; client 2 0] plain_queue)
                            (client 1 7) [client 2 0] _ _ _) 7 _ _));
      first [reflexivity | left; vm_compute; discriminate].
Defined.

Lemma dispatch_waits_for_free_slot_witness :
  event_queue single_busy = [client 2 0]
  /\ start_processing_step single_busy = (single_busy, Done Sleep).
Proof.
  split; [reflexivity|].
  apply (dispatch_waits_for_free_slot single_busy). reflexivity.
Defined.

Lemma update_estimation_without_threads_witness :
  snd (update_estimation (float_of_Z 4) no_thread_queue) = Raised ZeroDivisionError
  /\ avg_process_time (fst (update_estimation (float_of_Z 4) no_thread_queue))
     = Some (float_of_Z 4)
  /\ avg_concurrent_process_time (fst (update_estimation (float_of_Z 4) no_thread_queue))
     = None.
Proof.
  rewrite (update_estimation_without_threads (float_of_Z 4) no_thread_queue)
    by (vm_compute; first [reflexivity | discriminate]).
  split; [reflexivity|]. split; [|reflexivity].
  vm_compute. reflexivity.
Defined.

Lemma queue_never_exceeds_max_size_witness :
  Z.of_nat (length (event_queue (queue
    (run [APush (client 1 0); APush (client 2 0); APush (client 3 0)]
       (started small_queue calm_world))))) <= 2.
Proof.
  apply (queue_never_exceeds_max_size (started small_queue calm_world) 2).
  - reflexivity.
  - vm_compute. discriminate.
Defined.

Lemma no_slot_never_dispatches_witness :
  let s := run [APush (client 1 0); ADispatch] (started no_thread_queue calm_world) in
  event_queue (queue s) = [client 1 0]
  /\ start_processing_step (queue s) = (queue s, Done Sleep).
Proof.
  split; [reflexivity|].
  apply (no_slot_never_dispatches false 0 1 1 None
           [ {| dep_batch := false; dep_max_batch_size := 4 |} ] calm_world
           [APush (client 1 0); ADispatch]).
  vm_compute. discriminate.
Defined.

Lemma clean_event_removes_first_witness :
  clean_event (client 2 0) one_waiting = (one_waiting, Done tt)
  /\ client 1 0 ∉ event_queue (queue (fst (clean_event (client 1 0) one_waiting))).
Proof.
  split.
  - apply (proj1 (proj2 (clean_event_removes_first (client 2 0) one_waiting))).
    apply (bool_decide_eq_false_1 _). vm_compute. reflexivity.
  - apply (proj2 (proj2 (clean_event_removes_first (client 1 0) one_waiting))).
    apply (bool_decide_unpack _). vm_compute. exact I.
Defined.

Lemma all_asleep_returns_early_witness :
  exists s',
    process_events false [client 1 0] false three_legs deaf_client = (s', Done tt)
    /\ trace s' = [ESend (client 1 0) MsgSendData false; ERelease 0]
    /\ awake_events s' = [].
Proof.
  destruct (all_asleep_returns_early false [client 1 0] false three_legs deaf_client 0%nat)
    as (s' & Hrun & Et & Haw & _).
  - vm_compute. reflexivity.
  - reflexivity.
  - exists s'. split; [exact Hrun|]. split; [exact Et | exact Haw].
Defined.

Lemma unreadable_payload_no_request_witness :
  exists t,
    trace (fst (process_events false [client 1 0] false three_legs mute_client)) = t
    /\ requests t = [] /\ relayed t = [] /\ feeds t = [].
Proof.
  destruct (unreadable_payload_no_request false (client 1 0) false three_legs mute_client
              (fst (process_events false [client 1 0] false three_legs mute_client))
              (snd (process_events false [client 1 0] false three_legs mute_client)))
    as (t & Et & Hreq & _ & Hrel & Hfeeds & _).
  - reflexivity.
  - reflexivity.
  - vm_compute. reflexivity.
  - exists t. split; [exact Et|]. repeat split; assumption.
Defined.

Lemma upstream_error_reported_witness :
  sent_to (client 1 0)
    (trace (fst (process_events false [client 1 0] false
                   [LReturn (float_of_Z 1) upstream_failure] one_dispatched)))
  = [MsgProcessCompleted (OError "boom") false].
Proof.
  refine (proj2 (proj2 (upstream_error_reported false [client 1 0] false
                          [LReturn (float_of_Z 1) upstream_failure] one_dispatched
                          _ _ _ (float_of_Z 1) upstream_failure [] _ _ _ _ _))
            (client 1 0) _).
  - vm_compute. reflexivity.
  - vm_compute. reflexivity.
  - vm_compute. reflexivity.
  - reflexivity.
  - apply (bool_decide_unpack _). vm_compute. exact I.
  - apply (bool_decide_unpack _). vm_compute. exact I.
Defined.

Lemma single_response_completes_witness :
  sent_to (client 1 0)
    (trace (fst (process_events false [client 1 0] false
                   [LReturn (float_of_Z 5) (answer false "c" 200)] one_dispatched)))
  = [MsgProcessCompleted (OJson (json (answer false "c" 200))) true].
Proof.
  refine (proj2 (proj2 (single_response_completes false [client 1 0] false
                          [LReturn (float_of_Z 5) (answer false "c" 200)] one_dispatched
                          _ _ _ (float_of_Z 5) (answer false "c" 200) []
                          {| j_is_generating := false; j_data := Some (VList [VStr "c"]) |}
                          _ _ _ _ _ _ _ _))
            (client 1 0) _).
  - vm_compute. reflexivity.
  - vm_compute. reflexivity.
  - vm_compute. reflexivity.
  - reflexivity.
  - reflexivity.
  - reflexivity.
  - left. reflexivity.
  - apply (bool_decide_unpack _). vm_compute. exact I.
  - apply (bool_decide_unpack _). vm_compute. exact I.
Defined.

Lemma batched_response_split_by_row_witness :
  let t := trace (fst (process_events false [client 1 5; client 2 5] true
                         [LReturn (float_of_Z 1) two_rows] two_dispatched)) in
  sent_to (client 1 5) t
  = [MsgProcessCompleted
       (OJson (Some {| j_is_generating := false; j_data := Some (VList [VStr "a"]) |}))
       true]
  /\ sent_to (client 2 5) t
     = [MsgProcessCompleted
          (OJson (Some {| j_is_generating := false; j_data := Some (VList [VStr "b"]) |}))
          true].
Proof.
  destruct (batched_response_split_by_row false [client 1 5; client 2 5]
              [LReturn (float_of_Z 1) two_rows] two_dispatched
              (fst (process_events false [client 1 5; client 2 5] true
                      [LReturn (float_of_Z 1) two_rows] two_dispatched))
              (snd (process_events false [client 1 5; client 2 5] true
                      [LReturn (float_of_Z 1) two_rows] two_dispatched))
              (trace (fst (process_events false [client 1 5; client 2 5] true
                             [LReturn (float_of_Z 1) two_rows] two_dispatched)))
              (float_of_Z 1) two_rows []
              {| j_is_generating := false;
                 j_data := Some (VList [VList [VStr "a"; VStr "b"]]) |}
              (VList [VList [VStr "a"; VStr "b"]])
              [VList [VStr "a"; VStr "b"]]
              [[VStr "a"; VStr "b"]])
    as (_ & _ & Hrows & _).
  - vm_compute. reflexivity.
  - vm_compute. reflexivity.
  - vm_compute. reflexivity.
  - reflexivity.
  - reflexivity.
  - reflexivity.
  - reflexivity.
  - reflexivity.
  - reflexivity.
  - apply (bool_decide_unpack _). vm_compute. exact I.
  - split.
    + apply (Hrows 0%nat (client 1 5) [VStr "a"]); vm_compute; reflexivity.
    + apply (Hrows 1%nat (client 2 5) [VStr "b"]); vm_compute; reflexivity.
Defined.

Lemma awake_clients_closed_and_reset_witness :
  closes (trace one_processed) = [client 1 0]
  /\ resets (trace one_processed) = [("foo"%string, Some 0)].
Proof.
  destruct (awake_clients_closed_and_reset false [client 1 0] false three_legs
              one_dispatched one_processed
              (snd (process_events false [client 1 0] false three_legs one_dispatched))
              (trace one_processed))
    as (_ & _ & _ & _ & Hall).
  - vm_compute. reflexivity.
  - vm_compute. reflexivity.
  - vm_compute. discriminate.
  - destruct Hall as [Hc Hr]; [vm_compute; reflexivity|].
    split; [rewrite Hc | rewrite Hr]; vm_compute; reflexivity.
Defined.

Lemma streamed_prediction_relayed_witness :
  sent_to (client 1 0)
    (trace (fst (process_events false [client 1 0] false four_legs one_dispatched)))
  = [generating_msg (answer true "a" 200);
     generating_msg (answer true "b" 200);
     generating_msg (answer true "c" 200);
     completed_msg (answer true "c" 200)].
Proof.
  destruct (streamed_prediction_relayed false [client 1 0] false four_legs
              one_dispatched
              (fst (process_events false [client 1 0] false four_legs one_dispatched))
              (snd (process_events false [client 1 0] false four_legs one_dispatched))
              (trace (fst (process_events false [client 1 0] false four_legs
                             one_dispatched)))
              (float_of_Z 1, answer true "a" 200)
              [(float_of_Z 1, answer true "b" 200); (float_of_Z 1, answer true "c" 200);
               (float_of_Z 1, answer false "d" 200)]
              (float_of_Z 1) (answer false "d" 200)
              {| j_is_generating := false; j_data := Some (VList [VStr "d"]) |})
    as (old & Hold & _ & Hsent).
  - vm_compute. reflexivity.
  - vm_compute. reflexivity.
  - vm_compute. reflexivity.
  - reflexivity.
  - reflexivity.
  - reflexivity.
  - apply (bool_decide_unpack _). vm_compute. exact I.
  - rewrite (Hsent (client 1 0)) by (apply (bool_decide_unpack _); vm_compute; exact I).
    assert (Hstreamed : removelast (snd <$> answers
                (trace (fst (process_events false [client 1 0] false four_legs
                               one_dispatched))))
              = [answer true "a" 200; answer true "b" 200; answer true "c" 200])
      by (vm_compute; reflexivity).
    rewrite Hstreamed in Hold |- *. injection Hold as <-. reflexivity.
Defined.

Lemma broadcast_estimations_ranks_witness :
  exists s',
    broadcast_estimations two_waiting = (s', Done tt)
    /\ event_queue (queue s') = [client 2 0]
    /\ omap (fun e => match e with
                      | ESend event (MsgEstimation est) delivered =>
                          Some (event, rank est, queue_size est, delivered)
                      | _ => None
                      end) (trace s')
       = [(client 1 0, Some 0, 2, false); (client 2 0, Some 1, 2, true)].
Proof.
  pose proof (broadcast_estimations_ranks two_waiting (or_introl eq_refl)) as H.
  change (py_int_of_float (queue_duration (queue two_waiting))) with (Some 1) in H.
  cbv beta iota zeta in H.
  destruct H as (est & s' & Hget & Hrun & Et & _ & _ & Hq).
  vm_compute in Hget. injection Hget as <-.
  exists s'. split; [exact Hrun|]. split.
  - rewrite Hq; [reflexivity|]. apply (bool_decide_unpack _). vm_compute. exact I.
  - rewrite Et. vm_compute. reflexivity.
Defined.

Lemma get_events_in_batch_nonpositive_size_witness :
  get_events_in_batch greedy_queue
  = (set_event_queue [client 4 0] greedy_queue,
     Done (Some [client 1 0; client 2 0; client 3 0], true)).
Proof.
  refine (proj1 (get_events_in_batch_nonpositive_size greedy_queue (client 1 0)
                   [client 2 0; client 3 0; client 4 0] 0 0
                   {| dep_batch := true; dep_max_batch_size := 0 |} _ _ _ _ _ _));
    first [reflexivity | vm_compute; discriminate].
Defined.

Lemma batched_request_rewraps_payload_witness :
  exists s1 s2,
    request_body [client 1 0] true one_loaded
    = (s1, Done ({| pb_data := VList [VList [VStr "x"]]; pb_batched := true |}, None))
    /\ request_body [client 1 0] true s1
       = (s2, Done ({| pb_data := VList [VList [VList [VStr "x"]]]; pb_batched := true |},
                    None)).
Proof.
  destruct (batched_request_rewraps_payload (client 1 0) [VStr "x"] false one_loaded)
    as (s1 & s2 & H1 & _ & H2 & _).
  - reflexivity.
  - exists s1, s2. split; [exact H1 | exact H2].
Defined.

Lemma estimations_live_or_periodic_witness :
  start (queue never_processed) = [StartProcessing; NotifyClients]
  /\ broadcast_live_estimations never_processed = (never_processed, Done tt).
Proof.
  apply (proj2 (estimations_live_or_periodic never_processed)). reflexivity.
Defined.

Lemma notify_clients_stops_at_loop_head_witness :
  notify_clients [[AClose]; []] two_waiting
  = broadcast_estimations (run [AClose] two_waiting)
  /\ notify_clients [[]] (run [AClose] two_waiting) = (run [AClose] two_waiting, Done tt).
Proof.
  split.
  - apply (proj2 (notify_clients_stops_at_loop_head [[]] [AClose] two_waiting));
      [reflexivity | reflexivity | discriminate].
  - apply (proj1 (notify_clients_stops_at_loop_head [[]] [] (run [AClose] two_waiting))).
    reflexivity.
Defined.

Lemma process_events_contacts_own_batch_witness :
  Forall (fun event => event ∈ [client 1 0]) (contacted (trace one_processed)).
Proof.
  apply list.Forall_forall.
  apply (process_events_contacts_own_batch false [client 1 0] false three_legs
           one_dispatched one_processed
           (snd (process_events false [client 1 0] false three_legs one_dispatched))
           (trace one_processed)).
  - vm_compute. reflexivity.
  - vm_compute. reflexivity.
Defined.
